(** * Evaluation Server of the contest management system

    A shallow embedding of [system/EvaluationServer.py]: the job queue
    ([JobQueue]), the worker pool ([WorkerPool]), the dispatcher
    ([JobDispatcher]) and the RPC surface ([EvaluationServer]), followed by
    the properties of the natural-language specification that were checked
    against them.

    Conventions of the embedding.
    - A Python method is a computation in the monad [M S A]: it threads the
      object's own state [S] and the outside world [io], and ends in a value
      or in a raised exception.  A raised exception does NOT roll the state
      back: whatever was assigned before the [raise] stays assigned.
    - Python dictionaries are [gmap]s, [d[k]] on a missing key raises
      [KeyError], [d[k] = v] is insertion.
    - [threading.Semaphore] is its counter; a blocking acquire on a zero
      counter suspends the calling thread, which the sequential model renders
      as the outcome [Raise WouldBlock] with the state untouched.
    - Wall-clock values ([time.time()], submission timestamps) are integers
      (ticks); no property below depends on sub-tick precision.
    - Threads are interleaved at the granularity of whole method calls. *)

From Stdlib Require Import ZArith Lia.
From stdpp Require Import base option list gmap fin_maps strings sorting.

Local Open Scope string_scope.
Local Open Scope Z_scope.

(** ** Python values shared by all classes *)

(** The exceptions the module raises or lets through. *)
Inductive exn : Type :=
| LookupError | TypeError | ValueError | KeyError | RuntimeError
| IndexError | AttributeError | AssertionError
| ResourceConflict       (* couchdb.ResourceConflict *)
| ResourceNotFound       (* the document store does not know the id *)
| RpcError               (* anything an outgoing XML-RPC call raises *)
| WouldBlock             (* the calling thread suspends (see above) *)
| OutOfFuel.             (* artefact of the model; shown unreachable *)

Inductive result (A : Type) : Type :=
| Ok (a : A)
| Raise (e : exn).
Arguments Ok {A} a.
Arguments Raise {A} e.

(** Modelled from the spec: the [Submission] documents of the external store
    ([CouchObject] is not part of the sources at hand).  Only the fields the
    server reads or writes are kept; [tokened] stands for the result of the
    method [tokened()]. *)
Record submission : Type := mk_submission {
  couch_id : string;
  timestamp : Z;
  compilation_tentatives : Z;
  evaluation_tentatives : Z;
  compilation_outcome : option string;
  evaluation_outcome : option string;
  tokened : bool
}.

(** [EvaluationServer.JOB_TYPE_*]: the strings "compile", "evaluate", "bomb". *)
Inductive job_type : Type :=
| JOB_TYPE_COMPILATION | JOB_TYPE_EVALUATION | JOB_TYPE_BOMB.

Definition job_type_str (k : job_type) : string :=
  match k with
  | JOB_TYPE_COMPILATION => "compile"
  | JOB_TYPE_EVALUATION => "evaluate"
  | JOB_TYPE_BOMB => "bomb"
  end.

(** A job is the couple [(job_type, submission)]; the bomb carries [None]. *)
Definition job : Type := job_type * option submission.

(** Elements of the queue: [(priority, timestamp, job)]. *)
Definition entry : Type := Z * Z * job.

Definition job_type_eqb (a b : job_type) : bool :=
  match a, b with
  | JOB_TYPE_COMPILATION, JOB_TYPE_COMPILATION
  | JOB_TYPE_EVALUATION, JOB_TYPE_EVALUATION
  | JOB_TYPE_BOMB, JOB_TYPE_BOMB => true
  | _, _ => false
  end.

(** Modelled from the spec: equality of submissions ([CouchObject.__eq__] is
    not in the sources); two submissions are the same when their ids are. *)
Definition submission_eqb (a b : option submission) : bool :=
  match a, b with
  | None, None => true
  | Some x, Some y => String.eqb (couch_id x) (couch_id y)
  | _, _ => false
  end.

(** Python's [==] on two job tuples: componentwise. *)
Definition job_eqb (a b : job) : bool :=
  job_type_eqb (fst a) (fst b) && submission_eqb (snd a) (snd b).

(** Modelled from the spec: ordering of submissions, needed only to break
    ties between heap entries with equal priority, timestamp and job type.
    [None] sorts before every object, as in Python 2. *)
Definition submission_ltb (a b : option submission) : bool :=
  match a, b with
  | None, Some _ => true
  | Some x, Some y => String.ltb (couch_id x) (couch_id y)
  | _, _ => false
  end.

(** Python's [<] on job tuples and on queue entries: lexicographic. *)
Definition job_ltb (a b : job) : bool :=
  if String.ltb (job_type_str (fst a)) (job_type_str (fst b)) then true
  else if job_type_eqb (fst a) (fst b) then submission_ltb (snd a) (snd b)
  else false.

Definition entry_ltb (a b : entry) : bool :=
  let '(pa, ta, ja) := a in
  let '(pb, tb, jb) := b in
  if pa <? pb then true
  else if pa =? pb then
    if ta <? tb then true
    else if ta =? tb then job_ltb ja jb
    else false
  else false.

(** ** The outside world *)

Definition address_t : Type := string * Z.

(** Outgoing XML-RPC calls to a worker. *)
Inductive rpc_call : Type :=
| rpc_compile (id : string)
| rpc_evaluate (id : string)
| rpc_shut_down (reason : string).

(** Calls into the scorer and the contest, which are external collaborators. *)
Inductive collaborator_call : Type :=
| scorer_add_token (id : string)
| scorer_add_submission (id : string)
| contest_refresh
| contest_update_ranking_view.

Inductive severity : Type :=
| SEVERITY_DEBUG | SEVERITY_NORMAL | SEVERITY_IMPORTANT | SEVERITY_CRITICAL.

Inductive lock_id : Type := QueueLock | PoolLock | DispatcherLock.

(** What an observer of the server sees, most recent event first. *)
Inductive event : Type :=
| EvLog (msg : string) (sev : severity)
| EvRpc (addr : address_t) (c : rpc_call)
| EvCall (c : collaborator_call)
| EvAcquire (l : lock_id)
| EvRelease (l : lock_id).

(** The module [Configuration] is not part of the sources: its options are
    parameters of the model. *)
Record configuration : Type := mk_configuration {
  cfg_workers : list address_t;
  worker_timeout : Z
}.

(** The world outside the server objects: clock, configuration, behaviour of
    the remote workers, the document store and the events emitted so far.
    [conflicts] lists the versions concurrent writers will put in the store,
    one for each save that is going to fail with [ResourceConflict]. *)
Record io : Type := mk_io {
  now : Z;
  config : configuration;
  rpc_raises : address_t -> rpc_call -> bool;
  store : gmap string submission;
  conflicts : list submission;
  events : list event
}.

Definition emit (e : event) (i : io) : io :=
  mk_io (now i) (config i) (rpc_raises i) (store i) (conflicts i)
        (e :: events i).

Definition set_store (f : gmap string submission -> gmap string submission)
    (i : io) : io :=
  mk_io (now i) (config i) (rpc_raises i) (f (store i)) (conflicts i)
        (events i).

Definition set_conflicts (c : list submission) (i : io) : io :=
  mk_io (now i) (config i) (rpc_raises i) (store i) c (events i).

(** ** The monad of methods *)

Definition M (S A : Type) : Type := S -> io -> result A * S * io.

Definition ret {S A} (a : A) : M S A := fun s i => (Ok a, s, i).

Definition raise {S A} (e : exn) : M S A := fun s i => (Raise e, s, i).

Definition bind {S A B} (m : M S A) (k : A -> M S B) : M S B :=
  fun s i =>
    match m s i with
    | (Ok a, s', i') => k a s' i'
    | (Raise e, s', i') => (Raise e, s', i')
    end.

Declare Scope py_scope.
Delimit Scope py_scope with py.
Notation "x <~ y ; z" := (bind y (fun x => z))
  (at level 20, y at level 100, z at level 200, only parsing) : py_scope.
Notation "' x <~ y ; z" := (bind y (fun x => z))
  (at level 20, x pattern, y at level 100, z at level 200, only parsing)
  : py_scope.
Notation "y ;; z" := (bind y (fun _ => z))
  (at level 100, z at level 200, only parsing, right associativity)
  : py_scope.
Local Open Scope py_scope.

Definition gets {S A} (f : S -> A) : M S A := fun s i => (Ok (f s), s, i).

Definition modify {S} (f : S -> S) : M S unit := fun s i => (Ok tt, f s, i).

(** [try: m  except: h] with a bare [except]; [h] receives the exception. *)
Definition try_except {S A} (m : M S A) (h : exn -> M S A) : M S A :=
  fun s i =>
    match m s i with
    | (Ok a, s', i') => (Ok a, s', i')
    | (Raise e, s', i') => h e s' i'
    end.

(** Run a method of a component object from its owner. *)
Definition zoom {S T A} (get : T -> S) (set : S -> T -> T) (m : M S A)
    : M T A :=
  fun t i =>
    match m (get t) i with
    | (r, s', i') => (r, set s' t, i')
    end.

Definition world {S A} (f : io -> A) : M S A := fun s i => (Ok (f i), s, i).

Definition emit_event {S} (e : event) : M S unit :=
  fun s i => (Ok tt, s, emit e i).

(** [with lock: m] -- the lock is released however the body ends. *)
Definition with_lock {S A} (l : lock_id) (m : M S A) : M S A :=
  fun s i =>
    match m s (emit (EvAcquire l) i) with
    | (r, s', i') => (r, s', emit (EvRelease l) i')
    end.

(** [Utils.log(msg, severity)]; the message is kept as its template. *)
Definition Utils_log {S} (msg : string) (sev : severity) : M S unit :=
  emit_event (EvLog msg sev).

(** [time.time()] *)
Definition time_time {S} : M S Z := world now.

(** [d[k]] *)
Definition getitem {S V} (d : S -> gmap Z V) (k : Z) : M S V :=
  fun s i =>
    match d s !! k with
    | Some v => (Ok v, s, i)
    | None => (Raise KeyError, s, i)
    end.

(** [assert c] *)
Definition py_assert {S} (c : bool) : M S unit :=
  if c then ret tt else raise AssertionError.

(** [xmlrpclib.ServerProxy("http://host:port").call(...)] *)
Definition rpc {S} (addr : address_t) (c : rpc_call) : M S unit :=
  fun s i =>
    if rpc_raises i addr c then (Raise RpcError, s, emit (EvRpc addr c) i)
    else (Ok tt, s, emit (EvRpc addr c) i).

(** [for x in xs: acc = body(acc, x)] *)
Fixpoint for_each {S A B} (xs : list A) (acc : B) (body : B -> A -> M S B)
    : M S B :=
  match xs with
  | [] => ret acc
  | x :: rest => acc' <~ body acc x; for_each rest acc' body
  end.

(** ** Walking a dictionary

    [for k in d], [d.iteritems()] and [d.keys()] walk the hash table of the
    dictionary slot by slot.  An integer is its own hash, so the workers
    [0 .. n-1] that [JobDispatcher.__init__] registers sit at the slots of
    their ids and are met in ascending order of the ids.  The model walks
    a dictionary keyed by integers in ascending order of its keys; what is
    proved of a walk is stated up to its order wherever the order shows in
    the result and the source allows other ids. *)

Definition key_order {V} (a b : Z * V) : Prop := fst a <= fst b.

#[global] Instance key_order_dec {V} (a b : Z * V) : Decision (key_order a b) :=
  Z_le_dec (fst a) (fst b).

(** [d.iteritems()] *)
Definition dict_items {V} (d : gmap Z V) : list (Z * V) :=
  merge_sort key_order (map_to_list d).

(** [d.keys()], and what [for k in d] ranges over. *)
Definition dict_keys {V} (d : gmap Z V) : list Z := fst <$> dict_items d.

(** ** heapq: the binary heap of the Python standard library *)

Module heapq.
Section heap.
Context {A : Type} (lt : A -> A -> bool).

(** The [while pos > startpos] loop of [_siftdown]; [pos] strictly
    decreases, so [pos] itself is enough fuel. *)
Fixpoint siftdown_loop (fuel : nat) (heap : list A) (newitem : A)
    (startpos pos : nat) : list A * nat :=
  match fuel with
  | O => (heap, pos)
  | S fuel' =>
      if decide (startpos < pos)%nat then
        let parentpos := ((pos - 1) / 2)%nat in
        match heap !! parentpos with
        | Some parent =>
            if lt newitem parent then
              siftdown_loop fuel' (<[pos := parent]> heap) newitem
                            startpos parentpos
            else (heap, pos)
        | None => (heap, pos)
        end
      else (heap, pos)
  end.

Definition _siftdown (heap : list A) (startpos pos : nat) : list A :=
  match heap !! pos with
  | Some newitem =>
      let '(h, p) := siftdown_loop pos heap newitem startpos pos in
      <[p := newitem]> h
  | None => heap
  end.

(** The [while childpos < endpos] loop of [_siftup]: the smaller child is
    moved up until a leaf is reached. *)
Fixpoint siftup_loop (fuel : nat) (heap : list A) (endpos pos : nat)
    : list A * nat :=
  match fuel with
  | O => (heap, pos)
  | S fuel' =>
      let childpos := (2 * pos + 1)%nat in
      if decide (childpos < endpos)%nat then
        let rightpos := (childpos + 1)%nat in
        let childpos :=
          match heap !! childpos, heap !! rightpos with
          | Some c, Some r => if negb (lt c r) then rightpos else childpos
          | _, _ => childpos
          end in
        match heap !! childpos with
        | Some c => siftup_loop fuel' (<[pos := c]> heap) endpos childpos
        | None => (heap, pos)
        end
      else (heap, pos)
  end.

Definition _siftup (heap : list A) (pos : nat) : list A :=
  match heap !! pos with
  | Some newitem =>
      let endpos := length heap in
      let '(h, p) := siftup_loop endpos heap endpos pos in
      _siftdown (<[p := newitem]> h) pos p
  | None => heap
  end.

Definition heappush (heap : list A) (item : A) : list A :=
  _siftdown (heap ++ [item])%list 0 (length heap).

(** [None] stands for the [IndexError] of popping from an empty list. *)
Definition heappop (heap : list A) : option (A * list A) :=
  match last heap with
  | None => None
  | Some lastelt =>
      let heap := take (length heap - 1) heap in
      match heap with
      | [] => Some (lastelt, heap)
      | returnitem :: _ =>
          Some (returnitem, _siftup (<[0%nat := lastelt]> heap) 0)
      end
  end.

(** [for i in reversed(xrange(n//2)): _siftup(x, i)] *)
Definition heapify (x : list A) : list A :=
  foldl _siftup x (reverse (seq 0 (length x / 2))).
End heap.
End heapq.

(** ** class JobQueue *)

Module JobQueue.

Record t : Type := mk {
  queue : list entry;
  (* The semaphore counts the number of items in the queue *)
  semaphore : nat
}.

Definition set_queue (f : list entry -> list entry) (q : t) : t :=
  mk (f (queue q)) (semaphore q).

Definition set_semaphore (f : nat -> nat) (q : t) : t :=
  mk (queue q) (f (semaphore q)).

Definition __init__ : t := mk [] 0.

(** [self.semaphore.release()] *)
Definition semaphore_release : M t unit := modify (set_semaphore S).

(** [self.semaphore.acquire()] (blocking). *)
Definition semaphore_acquire : M t unit :=
  n <~ gets semaphore;
  match n with
  | O => raise WouldBlock
  | S n' => modify (set_semaphore (fun _ => n'))
  end.

(** [job[1].timestamp]: an [AttributeError] when the job has no
    submission, as for the bomb. *)
Definition job_timestamp (j : job) : M t Z :=
  match snd j with
  | Some s => ret (timestamp s)
  | None => raise AttributeError
  end.

Definition push (j : job) (priority : Z) (timestamp : option Z)
    : M t unit :=
  timestamp <~
    match timestamp with
    | None => try_except (job_timestamp j) (fun _ => time_time)
    | Some ts => ret ts
    end;
  with_lock QueueLock
    (modify (set_queue
               (fun q => heapq.heappush entry_ltb q (priority, timestamp, j))));;
  semaphore_release.

Definition top : M t entry :=
  with_lock QueueLock
    (q <~ gets queue;
     if decide (0 < length q)%nat then
       match q !! 0%nat with
       | Some e => ret e
       | None => raise IndexError
       end
     else raise LookupError).

Definition pop : M t entry :=
  semaphore_acquire;;
  with_lock QueueLock
    (q <~ gets queue;
     match heapq.heappop entry_ltb q with
     | Some (e, q') => modify (set_queue (fun _ => q'));; ret e
     | None =>
         Utils_log "Job queue went out-of-sync with semaphore"
                   SEVERITY_CRITICAL;;
         raise RuntimeError
     end).

(** What the loop variable of [search] ranges over, and what [search]
    returns: the source iterates over the queue itself, so the "position"
    is a queue element, not an integer. *)
Inductive position : Type :=
| PosInt (n : Z)
| PosEntry (e : entry).

(** [self.queue[pos]]: list indices must be integers. *)
Definition queue_getitem (pos : position) : M t entry :=
  match pos with
  | PosInt n =>
      q <~ gets queue;
      let n' := if n <? 0 then n + Z.of_nat (length q) else n in
      if n' <? 0 then raise IndexError
      else match q !! Z.to_nat n' with
           | Some e => ret e
           | None => raise IndexError
           end
  | PosEntry _ => raise TypeError
  end.

(** [for i in self.queue: if self.queue[i][2] == job: return i];
    [None] when the loop falls through. *)
Fixpoint search_loop (items : list entry) (j : job)
    : M t (option position) :=
  match items with
  | [] => ret None
  | i :: rest =>
      e <~ queue_getitem (PosEntry i);
      if job_eqb (snd e) j then ret (Some (PosEntry i))
      else search_loop rest j
  end.

Definition search (j : job) : M t position :=
  found <~ with_lock QueueLock (q <~ gets queue; search_loop q j);
  match found with
  | Some i => ret i
  | None => raise LookupError
  end.

(** [self.queue[pos][0] == priority] is a comparison whose value is
    thrown away; then [heapq.heapify(self.queue)]. *)
Definition set_priority (j : job) (priority : Z) : M t unit :=
  with_lock QueueLock
    (pos <~ search j;
     e <~ queue_getitem pos;
     let _unused := (fst (fst e) =? priority) in
     modify (set_queue (heapq.heapify entry_ltb))).

Definition length : M t nat := gets (fun q => List.length (queue q)).

Definition empty : M t bool := n <~ length; ret (Nat.eqb n 0).

End JobQueue.

(** ** class WorkerPool *)

Module WorkerPool.

(** What [self.workers[n]] holds: [WORKER_INACTIVE] ([None]),
    [WORKER_DISABLED] (the string "disabled") or the job of a busy worker. *)
Inductive wstate : Type :=
| WORKER_INACTIVE
| WORKER_DISABLED
| BUSY (j : job).

(** Python's [==] between two such values. *)
Definition wstate_eqb (a b : wstate) : bool :=
  match a, b with
  | WORKER_INACTIVE, WORKER_INACTIVE => true
  | WORKER_DISABLED, WORKER_DISABLED => true
  | BUSY j1, BUSY j2 => job_eqb j1 j2
  | _, _ => false
  end.

Record t : Type := mk {
  workers : gmap Z wstate;
  (* The semaphore counts the number of _inactive_ workers *)
  semaphore : nat;
  start_time : gmap Z (option Z);
  address : gmap Z address_t;
  error_count : gmap Z Z;
  side_data : gmap Z (option (Z * Z));
  (* If schedule_disabling is True, then the next time the worker is
     inactive it will be disabled. *)
  schedule_disabling : gmap Z bool
}.

Definition set_workers (f : gmap Z wstate -> gmap Z wstate) (p : t) : t :=
  mk (f (workers p)) (semaphore p) (start_time p) (address p)
     (error_count p) (side_data p) (schedule_disabling p).
Definition set_semaphore (f : nat -> nat) (p : t) : t :=
  mk (workers p) (f (semaphore p)) (start_time p) (address p)
     (error_count p) (side_data p) (schedule_disabling p).
Definition set_start_time (f : gmap Z (option Z) -> gmap Z (option Z))
    (p : t) : t :=
  mk (workers p) (semaphore p) (f (start_time p)) (address p)
     (error_count p) (side_data p) (schedule_disabling p).
Definition set_address (f : gmap Z address_t -> gmap Z address_t)
    (p : t) : t :=
  mk (workers p) (semaphore p) (start_time p) (f (address p))
     (error_count p) (side_data p) (schedule_disabling p).
Definition set_error_count (f : gmap Z Z -> gmap Z Z) (p : t) : t :=
  mk (workers p) (semaphore p) (start_time p) (address p)
     (f (error_count p)) (side_data p) (schedule_disabling p).
Definition set_side_data
    (f : gmap Z (option (Z * Z)) -> gmap Z (option (Z * Z))) (p : t) : t :=
  mk (workers p) (semaphore p) (start_time p) (address p)
     (error_count p) (f (side_data p)) (schedule_disabling p).
Definition set_schedule_disabling (f : gmap Z bool -> gmap Z bool)
    (p : t) : t :=
  mk (workers p) (semaphore p) (start_time p) (address p)
     (error_count p) (side_data p) (f (schedule_disabling p)).

Definition __init__ : t := mk ∅ 0 ∅ ∅ ∅ ∅ ∅.

(** [self.semaphore.release()] *)
Definition semaphore_release : M t unit := modify (set_semaphore S).

(** [self.semaphore.acquire(blocking)] *)
Definition semaphore_acquire (blocking : bool) : M t bool :=
  n <~ gets semaphore;
  match n with
  | S n' => modify (set_semaphore (fun _ => n'));; ret true
  | O => if blocking then raise WouldBlock else ret false
  end.

(** [for worker, workerJob in self.workers.iteritems(): ...] *)
Definition find_worker (v : wstate) : M t Z :=
  with_lock PoolLock
    (ws <~ gets (fun p => dict_items (workers p));
     match List.find (fun kv => wstate_eqb (snd kv) v) ws with
     | Some (worker, _) => ret worker
     | None => raise LookupError
     end).

Definition acquire_worker (j : job) (blocking : bool)
    (side_data : option (Z * Z)) : M t (option Z) :=
  available <~ semaphore_acquire blocking;
  if negb available then ret None
  else
    with_lock PoolLock
      (worker <~ try_except (find_worker WORKER_INACTIVE)
                   (fun e =>
                      match e with
                      | LookupError =>
                          Utils_log
                            "Worker array went out-of-sync with semaphore"
                            SEVERITY_CRITICAL;;
                          raise RuntimeError
                      | _ => raise e
                      end);
       modify (set_workers <[worker := BUSY j]>);;
       t0 <~ time_time;
       modify (set_start_time <[worker := Some t0]>);;
       modify (set_side_data <[worker := side_data]>);;
       Utils_log "Worker %d acquired" SEVERITY_DEBUG;;
       ret (Some worker)).

Definition is_free (w : wstate) : bool :=
  wstate_eqb w WORKER_INACTIVE || wstate_eqb w WORKER_DISABLED.

Definition release_worker (worker : Z) : M t (option (Z * Z)) :=
  with_lock PoolLock
    (w <~ getitem workers worker;
     if is_free w then
       Utils_log "Trying to release worker while it's inactive"
                 SEVERITY_IMPORTANT;;
       raise ValueError
     else
       modify (set_start_time <[worker := None]>);;
       sd <~ getitem side_data worker;
       modify (set_side_data <[worker := None]>);;
       disabling <~ getitem schedule_disabling worker;
       (if disabling : bool then
          modify (set_workers <[worker := WORKER_DISABLED]>);;
          modify (set_schedule_disabling <[worker := false]>);;
          Utils_log "Worker %d released and disabled" SEVERITY_DEBUG
        else
          modify (set_workers <[worker := WORKER_INACTIVE]>);;
          semaphore_release;;
          Utils_log "Worker %d released" SEVERITY_DEBUG);;
       ret sd).

Definition disable_worker (n : Z) : M t unit :=
  avail <~ semaphore_acquire false;
  if negb avail then raise ValueError
  else
    with_lock PoolLock
      (w <~ getitem workers n;
       if negb (wstate_eqb w WORKER_INACTIVE) then
         semaphore_release;;
         Utils_log "Trying to disable worker while it isn't inactive"
                   SEVERITY_IMPORTANT;;
         raise ValueError
       else modify (set_workers <[n := WORKER_DISABLED]>));;
    Utils_log "Worker %d disabled" SEVERITY_DEBUG.

Definition enable_worker (n : Z) : M t unit :=
  with_lock PoolLock
    (ws <~ gets workers;
     if decide (n ∉ dom ws) then
       Utils_log "Trying to enable a non existing worker (`%s')"
                 SEVERITY_IMPORTANT;;
       raise ValueError
     else
       w <~ getitem workers n;
       if negb (wstate_eqb w WORKER_DISABLED) then
         Utils_log "Trying to enable worker while is isn't disabled"
                   SEVERITY_IMPORTANT;;
         raise ValueError
       else modify (set_workers <[n := WORKER_INACTIVE]>));;
  semaphore_release;;
  Utils_log "Worker %d enabled" SEVERITY_DEBUG.

Definition add_worker (n : Z) (host : string) (port : Z) : M t unit :=
  with_lock PoolLock
    (ws <~ gets workers;
     if decide (n ∈ dom ws) then
       Utils_log "There is already a worker with name `%s'" SEVERITY_NORMAL;;
       raise ValueError
     else
       modify (set_workers <[n := WORKER_INACTIVE]>);;
       modify (set_start_time <[n := None]>);;
       modify (set_address <[n := (host, port)]>);;
       modify (set_error_count <[n := 0]>);;
       modify (set_schedule_disabling <[n := false]>);;
       modify (set_side_data <[n := None]>));;
  semaphore_release;;
  Utils_log "Worker %d added with address %s:%d" SEVERITY_DEBUG.

Definition del_worker (n : Z) : M t unit :=
  with_lock PoolLock
    (ws <~ gets workers;
     if decide (n ∉ dom ws) then
       Utils_log "Trying to delete a non existing worker (`%s')"
                 SEVERITY_IMPORTANT;;
       raise ValueError
     else
       w <~ getitem workers n;
       if negb (wstate_eqb w WORKER_DISABLED) then
         Utils_log "Trying to delete a worker while it is not disabled (`%s')"
                   SEVERITY_IMPORTANT;;
         raise ValueError
       else
         (* [del d[n]] raises [KeyError] when [n] is missing *)
         getitem workers n;; modify (set_workers (delete n));;
         getitem start_time n;; modify (set_start_time (delete n));;
         getitem address n;; modify (set_address (delete n));;
         getitem error_count n;; modify (set_error_count (delete n));;
         getitem schedule_disabling n;;
         modify (set_schedule_disabling (delete n));;
         getitem side_data n;; modify (set_side_data (delete n)));;
  Utils_log "Worker %d deleted" SEVERITY_DEBUG.

(** What the list comprehension of [working_workers] iterates over. *)
Inductive iterable : Type :=
| ItList (xs : list wstate)           (* a list: [d.values()] *)
| ItBoundMethod.                      (* a method object: [d.values] *)

(** [self.workers.values] -- the attribute, the method is not called. *)
Definition dict_values_attr (d : gmap Z wstate) : iterable := ItBoundMethod.

(** [iter(x)]: a built-in method object is not iterable. *)
Definition py_iter (x : iterable) : M t (list wstate) :=
  match x with
  | ItList xs => ret xs
  | ItBoundMethod => raise TypeError
  end.

Definition working_workers : M t nat :=
  with_lock PoolLock
    (ws <~ gets workers;
     xs <~ py_iter (dict_values_attr ws);
     ret (List.length
            (List.filter
               (fun x => negb (wstate_eqb x WORKER_INACTIVE)
                         && negb (wstate_eqb x WORKER_DISABLED)) xs))).

(** [priority, timestamp = self.side_data[worker]] *)
Definition unpack_pair (sd : option (Z * Z)) : M t (Z * Z) :=
  match sd with
  | Some pt => ret pt
  | None => raise TypeError
  end.

(** The body of the [for worker in self.workers] loop of
    [check_timeout]; [lost_jobs] is the accumulator. *)
Definition check_timeout_body (now : Z) (lost_jobs : list entry)
    (worker : Z) : M t (list entry) :=
  st <~ getitem start_time worker;
  match st with
  | None => ret lost_jobs
  | Some started =>
      let active_for := now - started in
      limit <~ world (fun i => worker_timeout (config i));
      if limit <? active_for then
        addr <~ getitem address worker;
        Utils_log "Disabling and shutting down worker %d (%s:%d) because of no reponse in %.2f seconds"
                  SEVERITY_IMPORTANT;;
        w <~ getitem workers worker;
        py_assert (negb (wstate_eqb w WORKER_INACTIVE)
                   && negb (wstate_eqb w WORKER_DISABLED));;
        sd <~ getitem side_data worker;
        ' (priority, timestamp) <~ unpack_pair sd;
        match w with
        | BUSY j =>
            let lost_jobs := (lost_jobs ++ [(priority, timestamp, j)])%list in
            modify (set_schedule_disabling <[worker := true]>);;
            release_worker worker;;
            try_except
              (rpc addr (rpc_shut_down "No response in %.2f seconds"))
              (fun _ => ret tt);;
            ret lost_jobs
        | _ => raise AssertionError
        end
      else ret lost_jobs
  end.

Definition check_timeout : M t (list entry) :=
  with_lock PoolLock
    (now <~ time_time;
     ws <~ gets (fun p => dict_keys (workers p));
     for_each ws [] (check_timeout_body now)).

End WorkerPool.

(** ** class JobDispatcher *)

(** [EvaluationServer.JOB_PRIORITY_*] *)
Definition JOB_PRIORITY_EXTRA_HIGH : Z := 0.
Definition JOB_PRIORITY_HIGH : Z := 1.
Definition JOB_PRIORITY_MEDIUM : Z := 2.
Definition JOB_PRIORITY_LOW : Z := 3.
Definition JOB_PRIORITY_EXTRA_LOW : Z := 4.

Definition MAX_COMPILATION_TENTATIVES : Z := 3.
Definition MAX_EVALUATION_TENTATIVES : Z := 3.

Module JobDispatcher.

(** [ACTION_OK, ACTION_FAIL, ACTION_REQUEUE = True, False, "requeue"] *)
Inductive action : Type := ACTION_OK | ACTION_FAIL | ACTION_REQUEUE.

Record t : Type := mk {
  queue : JobQueue.t;
  workers : WorkerPool.t;
  bomb_primed : bool;
  (* the [threading.Event] that wakes the dispatcher up *)
  touched : bool
}.

Definition set_queue (q : JobQueue.t) (d : t) : t :=
  mk q (workers d) (bomb_primed d) (touched d).
Definition set_workers (p : WorkerPool.t) (d : t) : t :=
  mk (queue d) p (bomb_primed d) (touched d).
Definition set_bomb_primed (b : bool) (d : t) : t :=
  mk (queue d) (workers d) b (touched d).
Definition set_touched (b : bool) (d : t) : t :=
  mk (queue d) (workers d) (bomb_primed d) b.

Definition on_queue {A} (m : M JobQueue.t A) : M t A :=
  zoom queue set_queue m.
Definition on_workers {A} (m : M WorkerPool.t A) : M t A :=
  zoom workers set_workers m.

(** [self.touched.set()], [.clear()] and [.wait()] *)
Definition touched_set : M t unit := modify (set_touched true).
Definition touched_clear : M t unit := modify (set_touched false).
Definition touched_wait : M t unit :=
  b <~ gets touched; if b : bool then ret tt else raise WouldBlock.

(** [for i, w in enumerate(Configuration.workers):
       self.workers.add_worker(i, w[0], w[1])] *)
Fixpoint add_configured_workers (i : Z) (ws : list address_t)
    : M t unit :=
  match ws with
  | [] => ret tt
  | w :: rest =>
      on_workers (WorkerPool.add_worker i (fst w) (snd w));;
      add_configured_workers (i + 1) rest
  end.

Definition __init__ : M t unit :=
  ws <~ world (fun i => cfg_workers (config i));
  add_configured_workers 0 ws.

(** The object before [__init__] has registered the configured workers. *)
Definition fresh : t := mk JobQueue.__init__ WorkerPool.__init__ false false.

Definition queue_push (j : job) (priority : Z) (timestamp : option Z)
    : M t unit :=
  with_lock DispatcherLock (on_queue (JobQueue.push j priority timestamp));;
  touched_set.

Definition queue_set_priority (j : job) (priority : Z) : M t unit :=
  with_lock DispatcherLock (on_queue (JobQueue.set_priority j priority));;
  touched_set.

Definition release_worker (worker : Z) : M t (option (Z * Z)) :=
  side_data <~
    with_lock DispatcherLock
      (on_workers (WorkerPool.release_worker worker));
  touched_set;;
  ret side_data.

Definition find_worker (j : job) : M t Z :=
  with_lock DispatcherLock
    (on_workers (WorkerPool.find_worker (WorkerPool.BUSY j))).

Definition enable_worker (n : Z) : M t unit :=
  with_lock DispatcherLock (on_workers (WorkerPool.enable_worker n));;
  touched_set.

Definition add_worker (n : Z) (addr : string) (port : Z) : M t unit :=
  with_lock DispatcherLock (on_workers (WorkerPool.add_worker n addr port));;
  touched_set.

Definition del_worker (n : Z) : M t unit :=
  with_lock DispatcherLock (on_workers (WorkerPool.del_worker n)).

(** [for priority, timestamp, job in lost_jobs: self.queue_push(...)] *)
Definition check_timeout : M t unit :=
  Utils_log "Check for timeouting workers started" SEVERITY_DEBUG;;
  lost_jobs <~ on_workers WorkerPool.check_timeout;
  for_each lost_jobs tt
    (fun _ e =>
       let '(priority, timestamp, j) := e in
       match snd j with
       | Some _ =>
           Utils_log "Requeuing job (%s, %s), lost because of timeouting worker"
                     SEVERITY_NORMAL
       | None => raise AttributeError      (* [job[1].couch_id] *)
       end;;
       queue_push j priority (Some timestamp));;
  Utils_log "Check for timeouting workers finished" SEVERITY_DEBUG.

(** [submission.couch_id] *)
Definition get_couch_id (s : option submission) : M t string :=
  match s with
  | Some s => ret (couch_id s)
  | None => raise AttributeError
  end.

(** [self.workers.start_time[worker] - timestamp] *)
Definition minus_timestamp (st : option Z) (timestamp : Z) : M t Z :=
  match st with
  | Some t0 => ret (t0 - timestamp)
  | None => raise TypeError
  end.

Definition check_action (priority timestamp : Z) (j : job) : M t action :=
  let action := fst j in
  if job_type_eqb action JOB_TYPE_BOMB then
    primed <~ gets bomb_primed;
    (if negb primed then
       Utils_log "Priming the bomb" SEVERITY_NORMAL;;
       modify (set_bomb_primed true);;
       touched_set
     else ret tt);;
    ret ACTION_FAIL
  else
    worker <~ on_workers
                (WorkerPool.acquire_worker j false
                   (Some (priority, timestamp)));
    match worker with
    | None => ret ACTION_FAIL
    | Some worker =>
        let submission := snd j in
        st <~ on_workers (getitem WorkerPool.start_time worker);
        queue_time <~ minus_timestamp st timestamp;
        addr <~ on_workers (getitem WorkerPool.address worker);
        id <~ get_couch_id submission;
        Utils_log "Asking worker %d (%s:%d) to %s submission %s  (after around %.2f seconds of queue)"
                  SEVERITY_NORMAL;;
        on_queue JobQueue.length;;
        Utils_log "Still %d jobs in the queue" SEVERITY_DEBUG;;
        try_except
          ((if job_type_eqb action JOB_TYPE_COMPILATION then
              rpc addr (rpc_compile id)
            else if job_type_eqb action JOB_TYPE_EVALUATION then
              rpc addr (rpc_evaluate id)
            else ret tt);;
           ret ACTION_OK)
          (fun _ =>
             Utils_log "Couldn't contact worker %d (%s:%d), disabling it and requeuing submission %s"
                       SEVERITY_IMPORTANT;;
             n <~ on_workers (getitem WorkerPool.error_count worker);
             on_workers
               (modify (WorkerPool.set_error_count <[worker := n + 1]>));;
             on_workers (WorkerPool.release_worker worker);;
             on_workers (WorkerPool.disable_worker worker);;
             ret ACTION_REQUEUE)
    end.

(** The [while True] loop of [process_queue].  Every turn that goes on to
    the next one has taken a permit of the pool's semaphore for good, so
    the value of that semaphore plus one bounds the number of turns
    ([process_queue_fuel_enough] below). *)
Fixpoint process_queue_loop (fuel : nat) : M t unit :=
  match fuel with
  | O => raise OutOfFuel
  | S fuel' =>
      top <~ try_except
               (e <~ on_queue JobQueue.top; ret (Some e))
               (fun e =>
                  match e with
                  | LookupError => ret None
                  | _ => raise e
                  end);
      match top with
      | None => ret tt
      | Some (priority, timestamp, j) =>
          res <~ check_action priority timestamp j;
          match res with
          | ACTION_OK => on_queue JobQueue.pop;; process_queue_loop fuel'
          | ACTION_FAIL => ret tt
          | ACTION_REQUEUE => process_queue_loop fuel'
          end
      end
  end.

Definition process_queue : M t unit :=
  with_lock DispatcherLock
    (permits <~ gets (fun d => WorkerPool.semaphore (workers d));
     process_queue_loop (S permits)).

(** One turn of the [while True] loop of [run]: [Some tt] when the loop
    goes on, [None] when [run] returns (the "KABOOM"). *)
Definition run_turn : M t (option unit) :=
  touched_wait;;
  touched_clear;;
  with_lock DispatcherLock
    (primed <~ gets bomb_primed;
     explode <~
       (if primed : bool then
          n <~ on_workers WorkerPool.working_workers;
          ret (Nat.eqb n 0)
        else ret false);
     if explode : bool then
       Utils_log "KABOOM!!" SEVERITY_NORMAL;;
       ret None
     else process_queue;; ret (Some tt)).

End JobDispatcher.

(** ** The document store *)

(** Modelled from the spec: [CouchObject.from_couch], [to_couch] and
    [refresh] are not in the sources; they are the [load], [save] (with
    optimistic-concurrency conflicts) and [refresh] of the external store. *)
Module CouchObject.

Definition from_couch {S} (id : string) : M S submission :=
  fun s i =>
    match store i !! id with
    | Some sub => (Ok sub, s, i)
    | None => (Raise ResourceNotFound, s, i)
    end.

(** A save either goes through, or loses against a concurrent writer whose
    version is then the one in the store. *)
Definition to_couch {S} (sub : submission) : M S unit :=
  fun s i =>
    match conflicts i with
    | [] => (Ok tt, s, set_store <[couch_id sub := sub]> i)
    | other :: rest =>
        (Raise ResourceConflict, s,
         set_conflicts rest (set_store <[couch_id sub := other]> i))
    end.

Definition refresh {S} (sub : submission) : M S submission :=
  from_couch (couch_id sub).

End CouchObject.

(** ** class EvaluationServer *)

Module EvaluationServer.

Record t : Type := mk { jd : JobDispatcher.t }.

Definition on_jd {A} (m : M JobDispatcher.t A) : M t A :=
  zoom jd (fun d _ => mk d) m.

Definition bump_compilation (s : submission) : submission :=
  mk_submission (couch_id s) (timestamp s) (compilation_tentatives s + 1)
    (evaluation_tentatives s) (compilation_outcome s)
    (evaluation_outcome s) (tokened s).

Definition bump_evaluation (s : submission) : submission :=
  mk_submission (couch_id s) (timestamp s) (compilation_tentatives s)
    (evaluation_tentatives s + 1) (compilation_outcome s)
    (evaluation_outcome s) (tokened s).

(** The loop
    [retry = True
     while retry:
         retry = False
         submission.<counter> += 1
         try: submission.to_couch()
         except couchdb.ResourceConflict:
             retry = True
             submission.refresh()]
    with [bump] the increment of the counter.  Every turn but the last
    consumes one pending conflict. *)
Fixpoint save_loop (fuel : nat) (bump : submission -> submission)
    (sub : submission) : M t submission :=
  match fuel with
  | O => raise OutOfFuel
  | S fuel' =>
      let sub := bump sub in
      retry <~ try_except
                 (CouchObject.to_couch sub;; ret None)
                 (fun e =>
                    match e with
                    | ResourceConflict =>
                        sub' <~ CouchObject.refresh sub; ret (Some sub')
                    | _ => raise e
                    end);
      match retry with
      | None => ret sub
      | Some sub' => save_loop fuel' bump sub'
      end
  end.

Definition save_with_retry (bump : submission -> submission)
    (sub : submission) : M t submission :=
  pending <~ world (fun i => List.length (conflicts i));
  save_loop (S pending) bump sub.

Definition use_token (submission_id : string) : M t bool :=
  sub <~ CouchObject.from_couch submission_id;
  (if evaluation_outcome sub is Some _ then
     emit_event (EvCall (scorer_add_token (couch_id sub)))
   else ret tt);;
  on_jd (JobDispatcher.queue_set_priority
           (JOB_TYPE_EVALUATION, Some sub) JOB_PRIORITY_MEDIUM);;
  ret true.

Definition add_job (submission_id : string) : M t bool :=
  emit_event (EvCall contest_refresh);;
  Utils_log "Queueing compilation for submission %s" SEVERITY_NORMAL;;
  sub <~ CouchObject.from_couch submission_id;
  on_jd (JobDispatcher.queue_push
           (JOB_TYPE_COMPILATION, Some sub) JOB_PRIORITY_HIGH None);;
  ret true.

Definition action_finished (j : job) : M t (option (Z * Z)) :=
  worker <~ on_jd (JobDispatcher.find_worker j);
  st <~ on_jd (JobDispatcher.on_workers
                 (getitem WorkerPool.start_time worker));
  t1 <~ time_time;
  (* [time.time() - start_time[worker]] *)
  (if st is Some _ then ret tt else raise TypeError);;
  on_jd (JobDispatcher.on_workers (getitem WorkerPool.address worker));;
  (if snd j is Some _ then ret tt else raise AttributeError);;
  Utils_log "Worker %d (%s:%d) finished to %s submission %s (took around %.2f seconds)"
            SEVERITY_NORMAL;;
  on_jd (JobDispatcher.release_worker worker).

Definition compilation_finished (success : bool) (submission_id : string)
    : M t bool :=
  sub <~ CouchObject.from_couch submission_id;
  sub <~ save_with_retry bump_compilation sub;
  action_finished (JOB_TYPE_COMPILATION, Some sub);;
  (if success && bool_decide (compilation_outcome sub = Some "ok") then
     Utils_log "Compilation succeeded for submission %s,  queueing evaluation"
               SEVERITY_NORMAL;;
     let priority :=
       if tokened sub then JOB_PRIORITY_MEDIUM else JOB_PRIORITY_LOW in
     on_jd (JobDispatcher.queue_push
              (JOB_TYPE_EVALUATION, Some sub) priority None)
   else if success && bool_decide (compilation_outcome sub = Some "fail") then
     Utils_log "Compilation finished for submission %s, but the submission was not accepted; I'm not queueing evaluation"
               SEVERITY_NORMAL
   else
     Utils_log "Compilation failed for submission %s" SEVERITY_NORMAL;;
     if MAX_COMPILATION_TENTATIVES <? compilation_tentatives sub then
       Utils_log "Maximum tentatives (%d) reached for the compilation of submission %s - I will not try again"
                 SEVERITY_IMPORTANT
     else
       on_jd (JobDispatcher.queue_push
                (JOB_TYPE_COMPILATION, Some sub) JOB_PRIORITY_HIGH None));;
  ret true.

Definition update_evaluation (submission_id : string) : M t unit :=
  sub <~ CouchObject.from_couch submission_id;
  emit_event (EvCall (scorer_add_submission (couch_id sub)));;
  emit_event (EvCall contest_update_ranking_view).

(** [self.action_finished(...)[0]] *)
Definition first_of (sd : option (Z * Z)) : M t Z :=
  match sd with
  | Some pt => ret (fst pt)
  | None => raise TypeError
  end.

Definition evaluation_finished (success : bool) (submission_id : string)
    : M t bool :=
  sub <~ CouchObject.from_couch submission_id;
  sub <~ save_with_retry bump_evaluation sub;
  sd <~ action_finished (JOB_TYPE_EVALUATION, Some sub);
  priority <~ first_of sd;
  (if success then
     Utils_log "Evaluation succeeded for submission %s" SEVERITY_NORMAL;;
     update_evaluation submission_id
   else
     Utils_log "Evaluation failed for submission %s" SEVERITY_NORMAL;;
     if MAX_EVALUATION_TENTATIVES <? evaluation_tentatives sub then
       Utils_log "Maximum tentatives (%d) reached for the evaluation of submission %s - I will not try again"
                 SEVERITY_IMPORTANT
     else
       on_jd (JobDispatcher.queue_push
                (JOB_TYPE_EVALUATION, Some sub) priority None));;
  ret true.

Definition self_destruct : M t bool :=
  on_jd (JobDispatcher.queue_push
           (JOB_TYPE_BOMB, None) JOB_PRIORITY_EXTRA_HIGH None);;
  ret true.

Definition enable_worker (n : Z) : M t unit :=
  on_jd (JobDispatcher.enable_worker n).

Definition add_worker (n : Z) (addr : string) (port : Z) : M t unit :=
  on_jd (JobDispatcher.add_worker n addr port).

Definition del_worker (n : Z) : M t unit :=
  on_jd (JobDispatcher.del_worker n).

End EvaluationServer.

(** ** Reading the result of a method call *)

Definition outcome {S A} (x : result A * S * io) : result A := fst (fst x).
Definition state_of {S A} (x : result A * S * io) : S := snd (fst x).
Definition world_of {S A} (x : result A * S * io) : io := snd x.

(** The outgoing RPCs among a list of events, oldest first. *)
Definition rpcs_of (evs : list event) : list (address_t * rpc_call) :=
  reverse (omap (fun e => match e with EvRpc a c => Some (a, c) | _ => None end)
                evs).

(** The messages logged among a list of events. *)
Definition logged (msg : string) (evs : list event) : bool :=
  existsb (fun e => match e with
                    | EvLog m _ => String.eqb m msg
                    | _ => false
                    end) evs.

(** ** Specification-side notions *)

(** W1: the availability semaphore counts the INACTIVE workers. *)
Definition is_inactive (w : WorkerPool.wstate) : bool :=
  WorkerPool.wstate_eqb w WorkerPool.WORKER_INACTIVE.

Definition inactive_count (ws : gmap Z WorkerPool.wstate) : nat :=
  size (filter (fun kv => is_inactive (snd kv) = true) ws).

Definition W1 (p : WorkerPool.t) : Prop :=
  WorkerPool.semaphore p = inactive_count (WorkerPool.workers p).

Definition b2n (b : bool) : nat := if b then 1%nat else 0%nat.

(** Whether worker [k] is registered and INACTIVE. *)
Definition inactive_at (ws : gmap Z WorkerPool.wstate) (k : Z) : bool :=
  match ws !! k with
  | Some w => is_inactive w
  | None => false
  end.

(** The number of BUSY workers, as the specification words
    [working_workers]. *)
Definition busy_count (p : WorkerPool.t) : nat :=
  size (filter (fun kv => WorkerPool.is_free (snd kv) = false)
               (WorkerPool.workers p)).

(** The calls of the pool that W1 speaks about. *)
Inductive pool_call : Type :=
| call_add_worker (n : Z) (host : string) (port : Z)
| call_del_worker (n : Z)
| call_enable_worker (n : Z)
| call_disable_worker (n : Z)
| call_acquire_worker (j : job) (blocking : bool) (sd : option (Z * Z))
| call_release_worker (n : Z).

Definition run_pool_call (c : pool_call) (p : WorkerPool.t) (i : io)
    : WorkerPool.t :=
  match c with
  | call_add_worker n h pt => state_of (WorkerPool.add_worker n h pt p i)
  | call_del_worker n => state_of (WorkerPool.del_worker n p i)
  | call_enable_worker n => state_of (WorkerPool.enable_worker n p i)
  | call_disable_worker n => state_of (WorkerPool.disable_worker n p i)
  | call_acquire_worker j b sd =>
      state_of (WorkerPool.acquire_worker j b sd p i)
  | call_release_worker n => state_of (WorkerPool.release_worker n p i)
  end.

(** The auxiliary operations of the dispatcher. *)
Inductive aux_call : Type :=
| aux_queue_push (j : job) (priority : Z) (timestamp : option Z)
| aux_queue_set_priority (j : job) (priority : Z)
| aux_release_worker (n : Z)
| aux_enable_worker (n : Z)
| aux_add_worker (n : Z) (host : string) (port : Z)
| aux_del_worker (n : Z).

Definition run_aux_call (c : aux_call) : M JobDispatcher.t unit :=
  match c with
  | aux_queue_push j p ts => JobDispatcher.queue_push j p ts
  | aux_queue_set_priority j p => JobDispatcher.queue_set_priority j p
  | aux_release_worker n => JobDispatcher.release_worker n;; ret tt
  | aux_enable_worker n => JobDispatcher.enable_worker n
  | aux_add_worker n h p => JobDispatcher.add_worker n h p
  | aux_del_worker n => JobDispatcher.del_worker n
  end.

Definition is_del_worker (c : aux_call) : bool :=
  match c with aux_del_worker _ => true | _ => false end.

(** ** Scenarios with literal inputs *)

Module Scenario.

Definition s1 : submission := mk_submission "s1" 10 0 0 None None false.

(** A submission whose compilation has been accepted. *)
Definition s2 : submission :=
  mk_submission "s2" 20 1 0 (Some "ok") None false.

Definition one_worker : configuration :=
  mk_configuration [("worker0", 9000)] 60.

Definition world0 : io :=
  mk_io 100 one_worker (fun _ _ => false) {["s1" := s1; "s2" := s2]} [] [].

(** A call seen from outside: the server and the world after it. *)
Definition after {A} (m : M EvaluationServer.t A)
    (x : EvaluationServer.t * io) : EvaluationServer.t * io :=
  let r := m (fst x) (snd x) in (state_of r, world_of r).

(** The server once [JobDispatcher.__init__] has registered the worker. *)
Definition start : EvaluationServer.t * io :=
  after (EvaluationServer.on_jd JobDispatcher.__init__)
        (EvaluationServer.mk JobDispatcher.fresh, world0).

(** One wake-up of the dispatcher thread. *)
Definition dispatch : M EvaluationServer.t (option unit) :=
  EvaluationServer.on_jd JobDispatcher.run_turn.

Definition the_queue (x : EvaluationServer.t * io) : list entry :=
  JobQueue.queue (JobDispatcher.queue (EvaluationServer.jd (fst x))).

(** [add_job("s1")], a compilation that fails, and so on: the state in which
    the worker is compiling "s1" for the third time. *)
Definition compiling_third_time : EvaluationServer.t * io :=
  after dispatch
    (after (EvaluationServer.compilation_finished false "s1")
       (after dispatch
          (after (EvaluationServer.compilation_finished false "s1")
             (after dispatch
                (after (EvaluationServer.add_job "s1") start))))).

(** The evaluation of "s2" has been queued and has failed twice: the worker
    is evaluating "s2" for the third time. *)
Definition evaluating_third_time : EvaluationServer.t * io :=
  after dispatch
    (after (EvaluationServer.evaluation_finished false "s2")
       (after dispatch
          (after (EvaluationServer.evaluation_finished false "s2")
             (after dispatch
                (after (EvaluationServer.on_jd
                          (JobDispatcher.queue_push
                             (JOB_TYPE_EVALUATION, Some s2)
                             JOB_PRIORITY_LOW None))
                       start))))).

(** A queue holding the evaluation of "s1" at priority LOW. *)
Definition queue_with_s1 : JobQueue.t :=
  JobQueue.mk [(JOB_PRIORITY_LOW, 10, (JOB_TYPE_EVALUATION, Some s1))] 1.

(** A pool with the single worker 0, in the given state. *)
Definition pool_of (w : WorkerPool.wstate) (permits : nat) : WorkerPool.t :=
  WorkerPool.mk {[0 := w]} permits {[0 := None]} {[0 := ("worker0", 9000)]}
    {[0 := 0]} {[0 := None]} {[0 := false]}.

(** Worker 0 compiling "s1" since tick 50, taken from the queue entry
    [(HIGH, 10, (COMPILE, s1))]. *)
Definition busy_pool : WorkerPool.t :=
  WorkerPool.mk {[0 := WorkerPool.BUSY (JOB_TYPE_COMPILATION, Some s1)]} 0
    {[0 := Some 50]} {[0 := ("worker0", 9000)]} {[0 := 0]}
    {[0 := Some (JOB_PRIORITY_HIGH, 10)]} {[0 := false]}.

Definition bomb_entry : entry :=
  (JOB_PRIORITY_EXTRA_HIGH, 90, (JOB_TYPE_BOMB, None)).

(** The dispatcher after the bomb has been primed, woken up again. *)
Definition primed (p : WorkerPool.t) : JobDispatcher.t :=
  JobDispatcher.mk (JobQueue.mk [bomb_entry] 1) p true true.

End Scenario.

Module ScenarioAux.

(** A dispatcher asleep ([touched] clear) whose only worker is disabled. *)
Definition asleep : JobDispatcher.t :=
  JobDispatcher.mk JobQueue.__init__
    (Scenario.pool_of WorkerPool.WORKER_DISABLED 0) false false.

End ScenarioAux.

(** Whether a worker in state [w] is BUSY on the job of the given kind for
    the submission with the given id. *)
Definition busy_on (k : job_type) (id : string) (w : WorkerPool.wstate)
    : bool :=
  match w with
  | WorkerPool.BUSY (k', Some s) =>
      job_type_eqb k' k && String.eqb (couch_id s) id
  | _ => false
  end.

(** No worker of the server is BUSY on that job. *)
Definition nobody_busy_on (k : job_type) (id : string)
    (es : EvaluationServer.t) : Prop :=
  map_Forall (fun (_ : Z) w => busy_on k id w = false)
    (WorkerPool.workers (JobDispatcher.workers (EvaluationServer.jd es))).

(** The version of the submission the handler ends up incrementing: the one
    of the last concurrent writer, if there was any. *)
Definition last_version (sub : submission) (i : io) : submission :=
  default sub (last (conflicts i)).

(** The increment of a counter leaves the id of the submission alone. *)
Definition keeps_id (bump : submission -> submission) : Prop :=
  forall s, couch_id (bump s) = couch_id s.

(** The RPC that [check_action] sends to the worker for a job of kind [k]
    on the submission [id] (none for a bomb, which is never dispatched). *)
Definition dispatch_rpc (k : job_type) (id : string) : rpc_call :=
  match k with
  | JOB_TYPE_EVALUATION => rpc_evaluate id
  | _ => rpc_compile id
  end.

(** The world once [process_queue] has looked at the head of the queue. *)
Definition after_top (i : io) : io :=
  emit (EvRelease QueueLock) (emit (EvAcquire QueueLock) i).

(** [i'] is [i] with more events: same clock, configuration, remote
    behaviour and store. *)
Definition only_events (i i' : io) : Prop :=
  now i' = now i /\ config i' = config i /\ rpc_raises i' = rpc_raises i
  /\ store i' = store i /\ conflicts i' = conflicts i
  /\ suffix (events i) (events i').

Module ScenarioCrash.

(** Two workers, the first of which cannot be contacted. *)
Definition two_workers : configuration :=
  mk_configuration [("worker0", 9000); ("worker1", 9001)] 60.

Definition world0 : io :=
  mk_io 100 two_workers (fun addr _ => String.eqb (fst addr) "worker0")
        {["s1" := Scenario.s1]} [] [].

(** Both workers registered, the compilation of "s1" queued. *)
Definition queued : EvaluationServer.t * io :=
  Scenario.after (EvaluationServer.add_job "s1")
    (Scenario.after (EvaluationServer.on_jd JobDispatcher.__init__)
       (EvaluationServer.mk JobDispatcher.fresh, world0)).

Definition dispatcher : JobDispatcher.t := EvaluationServer.jd (fst queued).




End ScenarioCrash.

(** ** Notions for the timeout supervisor *)

(** Worker [k] is registered and its lease has lasted longer than [limit]
    at tick [now]. *)
Definition expired (now limit : Z) (p : WorkerPool.t) (k : Z) : bool :=
  match WorkerPool.workers p !! k, WorkerPool.start_time p !! k with
  | Some _, Some (Some t0) => limit <? now - t0
  | _, _ => false
  end.

(** The queue entry of the job worker [k] holds: the priority and the
    timestamp of its side data, and its current job. *)
Definition lost_entry (p : WorkerPool.t) (k : Z) : option entry :=
  match WorkerPool.workers p !! k, WorkerPool.side_data p !! k with
  | Some (WorkerPool.BUSY j), Some (Some (priority, timestamp)) =>
      Some (priority, timestamp, j)
  | _, _ => None
  end.

(** The records of worker [k] are complete: it has a lease entry, and when a
    lease is running the worker is BUSY with side data and an address. *)
Definition lease_ok (p : WorkerPool.t) (k : Z) : bool :=
  match WorkerPool.start_time p !! k with
  | None => false
  | Some None => true
  | Some (Some _) =>
      match WorkerPool.workers p !! k, WorkerPool.side_data p !! k,
            WorkerPool.address p !! k with
      | Some (WorkerPool.BUSY _), Some (Some _), Some _ => true
      | _, _, _ => false
      end
  end.

Definition leases_recorded (p : WorkerPool.t) : Prop :=
  map_Forall (fun k (_ : WorkerPool.wstate) => lease_ok p k = true)
             (WorkerPool.workers p).

(** The pool once the lease of worker [k] has been revoked. *)
Definition revoke (p : WorkerPool.t) (k : Z) : WorkerPool.t :=
  WorkerPool.mk (<[k := WorkerPool.WORKER_DISABLED]> (WorkerPool.workers p))
    (WorkerPool.semaphore p)
    (<[k := None]> (WorkerPool.start_time p))
    (WorkerPool.address p) (WorkerPool.error_count p)
    (<[k := None]> (WorkerPool.side_data p))
    (<[k := false]> (WorkerPool.schedule_disabling p)).

(** The workers in the order in which [check_timeout] visits them. *)
Definition visited (p : WorkerPool.t) : list Z :=
  dict_keys (WorkerPool.workers p).

(** All the records of worker [k] are the same in both pools. *)
Definition same_worker (p p' : WorkerPool.t) (k : Z) : Prop :=
  WorkerPool.workers p' !! k = WorkerPool.workers p !! k
  /\ WorkerPool.start_time p' !! k = WorkerPool.start_time p !! k
  /\ WorkerPool.address p' !! k = WorkerPool.address p !! k
  /\ WorkerPool.error_count p' !! k = WorkerPool.error_count p !! k
  /\ WorkerPool.side_data p' !! k = WorkerPool.side_data p !! k
  /\ WorkerPool.schedule_disabling p' !! k
     = WorkerPool.schedule_disabling p !! k.

Definition shut_down_of (addr : address_t) : event :=
  EvRpc addr (rpc_shut_down "No response in %.2f seconds").

Module ScenarioTimeout.

(** Tick 200: worker 0 has been compiling "s1" since tick 50, the timeout
    is 60 ticks, and the worker no longer answers anything. *)
Definition late : io :=
  mk_io 200 Scenario.one_worker (fun _ _ => true)
        {["s1" := Scenario.s1]} [] [].

(** Worker 0 compiling "s1" since tick 50 and worker 1 evaluating "s2"
    since tick 60. *)
Definition two_busy : WorkerPool.t :=
  WorkerPool.mk
    {[0 := WorkerPool.BUSY (JOB_TYPE_COMPILATION, Some Scenario.s1);
      1 := WorkerPool.BUSY (JOB_TYPE_EVALUATION, Some Scenario.s2)]} 0
    {[0 := Some 50; 1 := Some 60]}
    {[0 := ("worker0", 9000); 1 := ("worker1", 9001)]} {[0 := 0; 1 := 0]}
    {[0 := Some (JOB_PRIORITY_HIGH, 10); 1 := Some (JOB_PRIORITY_LOW, 20)]}
    {[0 := false; 1 := false]}.

(** Tick 200 with two workers configured, neither of which answers. *)
Definition both_late : io :=
  mk_io 200 ScenarioCrash.two_workers (fun _ _ => true)
        {["s1" := Scenario.s1; "s2" := Scenario.s2]} [] [].

End ScenarioTimeout.

(** The computation never ends with the artefact [OutOfFuel]. *)
Definition never_out_of_fuel {S A} (m : M S A) : Prop :=
  forall s i, outcome (m s i) <> Raise OutOfFuel.


(** The records of worker [k] are those of a worker at rest or on a lease:
    [lease_ok], an address, an error count, and no disabling pending. *)
Definition worker_ok (p : WorkerPool.t) (k : Z) : bool :=
  lease_ok p k
  && match WorkerPool.schedule_disabling p !! k with
     | Some false => true
     | _ => false
     end
  && match WorkerPool.address p !! k, WorkerPool.error_count p !! k with
     | Some _, Some _ => true
     | _, _ => false
     end.

Definition pool_ok (p : WorkerPool.t) : Prop :=
  map_Forall (fun k (_ : WorkerPool.wstate) => worker_ok p k = true)
             (WorkerPool.workers p).

(** The head of the queue is a bomb that no job of priority HIGH or lower
    can overtake. *)
Definition blocked_head (q : list entry) : Prop :=
  exists priority timestamp sub,
    q !! 0%nat = Some (priority, timestamp, (JOB_TYPE_BOMB, sub))
    /\ priority <= 0.

(** ** Notions for the order of the queue *)

(** A list laid out as a binary heap under [le]: no element is below its
    parent, the parent of position [i] being position [(i - 1) / 2]. *)
Definition heap_ordered {A} (le : A -> A -> Prop) (l : list A) : Prop :=
  forall i x y,
    (0 < i)%nat -> l !! i = Some x -> l !! ((i - 1) / 2)%nat = Some y ->
    le y x.

(** What holds while [_siftdown] carries [newitem] up from a leaf: the
    hole is at [pos]; away from the hole the list is heap ordered; the
    children of the hole are above [newitem] and above the parent of the
    hole. *)
Definition sift_down_inv {A} (le : A -> A -> Prop) (newitem : A)
    (heap : list A) (pos : nat) : Prop :=
  (pos < length heap)%nat
  /\ (forall i x y,
        (0 < i)%nat -> i <> pos ->
        heap !! i = Some x -> heap !! ((i - 1) / 2)%nat = Some y -> le y x)
  /\ (forall c x,
        (0 < c)%nat -> ((c - 1) / 2)%nat = pos -> heap !! c = Some x ->
        le newitem x)
  /\ (forall c x y,
        (0 < c)%nat -> ((c - 1) / 2)%nat = pos -> (0 < pos)%nat ->
        heap !! c = Some x -> heap !! ((pos - 1) / 2)%nat = Some y ->
        le y x).

(** What holds while [_siftup] walks the hole down from the root: every
    element whose parent is not the hole is above its parent, and the
    children of the hole are above the parent of the hole. *)
Definition sift_up_inv {A} (le : A -> A -> Prop) (heap : list A)
    (pos : nat) : Prop :=
  (pos < length heap)%nat
  /\ (forall i x y,
        (0 < i)%nat -> ((i - 1) / 2)%nat <> pos ->
        heap !! i = Some x -> heap !! ((i - 1) / 2)%nat = Some y -> le y x)
  /\ (forall c x y,
        (0 < c)%nat -> ((c - 1) / 2)%nat = pos -> (0 < pos)%nat ->
        heap !! c = Some x -> heap !! ((pos - 1) / 2)%nat = Some y ->
        le y x).

(** The order in which the queue serves its entries: by priority, then by
    timestamp. *)
Definition key_le (a b : entry) : Prop :=
  fst (fst a) < fst (fst b)
  \/ (fst (fst a) = fst (fst b) /\ snd (fst a) <= snd (fst b)).

(** Q2: the semaphore of the queue counts its entries. *)
Definition Q2 (q : JobQueue.t) : Prop :=
  JobQueue.semaphore q = length (JobQueue.queue q).

(** The timestamp [push] files a job under: the one given, else the one of
    the job's submission, else the current time. *)
Definition pushed_timestamp (j : job) (ts : option Z) (i : io) : Z :=
  match ts with
  | Some ts => ts
  | None =>
      match snd j with
      | Some s => timestamp s
      | None => now i
      end
  end.

(** The calls of the queue. *)
Inductive queue_call : Type :=
| call_push (j : job) (priority : Z) (timestamp : option Z)
| call_top
| call_pop
| call_search (j : job)
| call_set_priority (j : job) (priority : Z)
| call_length
| call_empty.

(** The outcome of a call, its value forgotten, and the queue after it. *)
Definition run_queue_call (c : queue_call) (q : JobQueue.t) (i : io)
    : result unit * JobQueue.t :=
  let forget {A} (r : result A * JobQueue.t * io) : result unit * JobQueue.t :=
    (match outcome r with Ok _ => Ok tt | Raise e => Raise e end, state_of r) in
  match c with
  | call_push j p ts => forget (JobQueue.push j p ts q i)
  | call_top => forget (JobQueue.top q i)
  | call_pop => forget (JobQueue.pop q i)
  | call_search j => forget (JobQueue.search j q i)
  | call_set_priority j p => forget (JobQueue.set_priority j p q i)
  | call_length => forget (JobQueue.length q i)
  | call_empty => forget (JobQueue.empty q i)
  end.

(** The heap order as a check on a concrete queue. *)
Definition key_leb (a b : entry) : bool :=
  (fst (fst a) <? fst (fst b))
  || ((fst (fst a) =? fst (fst b)) && (snd (fst a) <=? snd (fst b))).

Definition is_heap (l : list entry) : bool :=
  forallb (fun i => match l !! i, l !! ((i - 1) / 2)%nat with
                    | Some x, Some y => key_leb y x
                    | _, _ => true
                    end)
          (seq 1 (length l - 1)).

Module ScenarioQueue.

Definition compile1 : job := (JOB_TYPE_COMPILATION, Some Scenario.s1).
Definition evaluate2 : job := (JOB_TYPE_EVALUATION, Some Scenario.s2).

(** Three jobs waiting, the most urgent one first. *)
Definition three : JobQueue.t :=
  JobQueue.mk [(JOB_PRIORITY_HIGH, 10, compile1);
               (JOB_PRIORITY_MEDIUM, 20, evaluate2);
               (JOB_PRIORITY_HIGH, 30, evaluate2)] 3.

End ScenarioQueue.

(** How a call of the pool ends, its value forgotten. *)
Definition pool_call_outcome (c : pool_call) (p : WorkerPool.t) (i : io)
    : result unit :=
  let forget {A} (r : result A) : result unit :=
    match r with Ok _ => Ok tt | Raise e => Raise e end in
  match c with
  | call_add_worker n h pt => forget (outcome (WorkerPool.add_worker n h pt p i))
  | call_del_worker n => forget (outcome (WorkerPool.del_worker n p i))
  | call_enable_worker n => forget (outcome (WorkerPool.enable_worker n p i))
  | call_disable_worker n => forget (outcome (WorkerPool.disable_worker n p i))
  | call_acquire_worker j b sd =>
      forget (outcome (WorkerPool.acquire_worker j b sd p i))
  | call_release_worker n => forget (outcome (WorkerPool.release_worker n p i))
  end.

(** Worker [n] has no record in the pool. *)
Definition unknown_worker (p : WorkerPool.t) (n : Z) : Prop :=
  WorkerPool.workers p !! n = None
  /\ WorkerPool.start_time p !! n = None
  /\ WorkerPool.address p !! n = None
  /\ WorkerPool.error_count p !! n = None
  /\ WorkerPool.side_data p !! n = None
  /\ WorkerPool.schedule_disabling p !! n = None.

(** An entry the dispatcher can hand to a worker: a compilation or an
    evaluation of a submission. *)
Definition dispatchable (e : entry) : bool :=
  negb (job_type_eqb (fst (snd e)) JOB_TYPE_BOMB)
  && match snd (snd e) with Some _ => true | None => false end.

(** Some worker of the pool is BUSY with the job of the entry and carries
    its priority and timestamp as side data. *)
Definition holds_entry (p : WorkerPool.t) (e : entry) : Prop :=
  exists w,
    WorkerPool.workers p !! w = Some (WorkerPool.BUSY (snd e))
    /\ WorkerPool.side_data p !! w = Some (Some (fst e)).

(** Every worker answers the requests of the dispatcher. *)
Definition workers_answer (i : io) : Prop :=
  forall addr c, rpc_raises i addr c = false.

(** The dispatcher in order: the queue is a heap counted by its semaphore,
    the records of the pool are complete and its semaphore counts the
    INACTIVE workers. *)
Definition dispatcher_ok (d : JobDispatcher.t) : Prop :=
  Q2 (JobDispatcher.queue d)
  /\ heap_ordered key_le (JobQueue.queue (JobDispatcher.queue d))
  /\ pool_ok (JobDispatcher.workers d)
  /\ W1 (JobDispatcher.workers d).

(** The request for the job of the entry has gone out to some worker. *)
Definition request_sent (i : io) (e : entry) : Prop :=
  match snd (snd e) with
  | Some sub =>
      exists addr,
        EvRpc addr (dispatch_rpc (fst (snd e)) (couch_id sub)) ∈ events i
  | None => False
  end.

Module ScenarioDispatch.

(** Two INACTIVE workers. *)
Definition two_free : WorkerPool.t :=
  run_pool_call (call_add_worker 1 "worker1" 9001)
    (Scenario.pool_of WorkerPool.WORKER_INACTIVE 1) Scenario.world0.

(** Two jobs queued for them. *)
Definition two_jobs : JobDispatcher.t :=
  JobDispatcher.mk
    (JobQueue.mk [(JOB_PRIORITY_HIGH, 10, ScenarioQueue.compile1);
                  (JOB_PRIORITY_MEDIUM, 20, ScenarioQueue.evaluate2)] 2)
    two_free false true.

End ScenarioDispatch.

Module ScenarioRequeue.

(** The dispatcher whose only worker has been compiling "s1" since tick
    50, with nothing queued. *)
Definition waiting : JobDispatcher.t :=
  JobDispatcher.mk JobQueue.__init__ Scenario.busy_pool false false.

End ScenarioRequeue.

(** Worker [w] is the one worker BUSY on the job of kind [k] for the
    submission [id]: its lease is running, it carries the side data [sd],
    has an address and no disabling pending. *)
Definition on_lease (p : WorkerPool.t) (w : Z) (k : job_type) (id : string)
    (sd : Z * Z) : Prop :=
  (exists x, WorkerPool.workers p !! w = Some x /\ busy_on k id x = true)
  /\ (forall w' x, WorkerPool.workers p !! w' = Some x ->
                   busy_on k id x = true -> w' = w)
  /\ (exists t0, WorkerPool.start_time p !! w = Some (Some t0))
  /\ is_Some (WorkerPool.address p !! w)
  /\ WorkerPool.side_data p !! w = Some (Some sd)
  /\ WorkerPool.schedule_disabling p !! w = Some false.

(** The pool once worker [w] has been released. *)
Definition released (p : WorkerPool.t) (w : Z) : WorkerPool.t :=
  WorkerPool.mk (<[w := WorkerPool.WORKER_INACTIVE]> (WorkerPool.workers p))
    (S (WorkerPool.semaphore p))
    (<[w := None]> (WorkerPool.start_time p))
    (WorkerPool.address p) (WorkerPool.error_count p)
    (<[w := None]> (WorkerPool.side_data p))
    (WorkerPool.schedule_disabling p).

(** What is queued once the compilation of [sub] has ended, [sub] being
    the submission with its counter already incremented. *)
Definition after_compilation (success : bool) (sub : submission)
    : list entry :=
  if success && bool_decide (compilation_outcome sub = Some "ok") then
    [(if tokened sub then JOB_PRIORITY_MEDIUM else JOB_PRIORITY_LOW,
      timestamp sub, (JOB_TYPE_EVALUATION, Some sub))]
  else if success && bool_decide (compilation_outcome sub = Some "fail") then
    []
  else if compilation_tentatives sub <=? MAX_COMPILATION_TENTATIVES then
    [(JOB_PRIORITY_HIGH, timestamp sub, (JOB_TYPE_COMPILATION, Some sub))]
  else [].

(** What is queued once the evaluation of [sub] has ended, the job having
    been taken from the queue at [priority]. *)
Definition after_evaluation (success : bool) (priority : Z)
    (sub : submission) : list entry :=
  if success then []
  else if evaluation_tentatives sub <=? MAX_EVALUATION_TENTATIVES then
    [(priority, timestamp sub, (JOB_TYPE_EVALUATION, Some sub))]
  else [].

Module ScenarioFinish.

(** The server whose only worker has been evaluating "s2" since tick 50,
    the job taken from the queue at priority LOW. *)
Definition evaluating : EvaluationServer.t :=
  EvaluationServer.mk
    (JobDispatcher.mk JobQueue.__init__
       (WorkerPool.mk {[0 := WorkerPool.BUSY ScenarioQueue.evaluate2]} 0
          {[0 := Some 50]} {[0 := ("worker0", 9000)]} {[0 := 0]}
          {[0 := Some (JOB_PRIORITY_LOW, 20)]} {[0 := false]})
       false false).

End ScenarioFinish.

(** * The dump updater to version 23

    A shallow embedding of [cmscontrib/updaters/update_23.py].  A dump is a
    dictionary from keys to objects; the keys that start with an underscore
    carry metadata of the dump, every other key names an object, itself a
    dictionary with a ["_class"] entry.  The objects of a dump are distinct
    dictionaries (the dump is read from a file), so the assignment to a
    field of one object changes no other. *)

Module Updater.

(** The values found in a dump; floating-point numbers are left out, no
    object of a dump that [run] looks at is one. *)
#[warnings="-register-all"] Inductive value : Type :=
| VNone
| VBool (b : bool)
| VInt (n : Z)
| VStr (s : string)
| VList (l : list value)
| VDict (d : gmap string value).

Record t : Type := mk { objs : gmap string value }.

(** [v == 22] *)
Definition is_22 (v : value) : bool :=
  match v with
  | VInt n => n =? 22
  | _ => false
  end.

(** [assert data["_version"] == 22; self.objs = data] *)
Definition __init__ (data : gmap string value) : result t :=
  match data !! "_version" with
  | None => Raise KeyError
  | Some v => if is_22 v then Ok (mk data) else Raise AssertionError
  end.

(** [v[key]] with a string for key: only a dictionary can be asked. *)
Definition getitem (v : value) (key : string) : result value :=
  match v with
  | VDict d =>
      match d !! key with
      | Some x => Ok x
      | None => Raise KeyError
      end
  | _ => Raise TypeError
  end.

(** [c == "Participation"] *)
Definition is_participation (c : value) : bool :=
  match c with
  | VStr s => String.eqb s "Participation"
  | _ => false
  end.

(** [v["unrestricted"] = False], [v] being a dictionary. *)
Definition set_unrestricted (v : value) : value :=
  match v with
  | VDict d => VDict (<["unrestricted" := VBool false]> d)
  | _ => v
  end.

(** The loop [for k, v in iteritems(self.objs)], with the dump as it is
    so far: an object already visited stays changed when a later one makes
    the loop raise. *)
Fixpoint run_loop (items : list (string * value))
    (objs : gmap string value) : result unit * gmap string value :=
  match items with
  | [] => (Ok tt, objs)
  | (k, v) :: rest =>
      if String.prefix "_" k then run_loop rest objs
      else
        match getitem v "_class" with
        | Raise e => (Raise e, objs)
        | Ok c =>
            if is_participation c then
              run_loop rest (<[k := set_unrestricted v]> objs)
            else run_loop rest objs
        end
  end.

(** [run] returns [self.objs], the very dictionary it has updated in
    place. *)
Definition run (u : t) : result (gmap string value) * t :=
  match run_loop (map_to_list (objs u)) (objs u) with
  | (Ok _, objs') => (Ok objs', mk objs')
  | (Raise e, objs') => (Raise e, mk objs')
  end.

End Updater.

(** What the update makes of the object under key [k]. *)
Definition updated (k : string) (v : Updater.value) : Updater.value :=
  if String.prefix "_" k then v
  else
    match Updater.getitem v "_class" with
    | Ok c => if Updater.is_participation c then Updater.set_unrestricted v
              else v
    | Raise _ => v
    end.

(** The entry is one [run] can handle: metadata, or an object with a
    class. *)
Definition well_formed (k : string) (v : Updater.value) : bool :=
  String.prefix "_" k
  || match Updater.getitem v "_class" with Ok _ => true | Raise _ => false end.

Module ScenarioDump.

Definition participation : Updater.value :=
  Updater.VDict {["_class" := Updater.VStr "Participation";
                  "hidden" := Updater.VBool false]}.

Definition user : Updater.value :=
  Updater.VDict {["_class" := Updater.VStr "User";
                  "username" := Updater.VStr "u1"]}.

Definition dump : gmap string Updater.value :=
  {["_version" := Updater.VInt 22; "0" := user; "1" := participation]}.

End ScenarioDump.

(** * The status report of the workers

    [WorkerPool.represent_job] and [get_workers_status], with the methods
    of the dispatcher and of the server that hand the report on.  The keys
    [str(n)] of the report are rendered as the numbers [n] themselves. *)

Module WorkerStatus.

(** What [represent_job] returns: a string, or the pair of the kind of the
    job and the id of its submission. *)
Inductive job_repr : Type :=
| ReprStr (s : string)
| ReprPair (k : job_type) (id : string).

Record status : Type := mk_status {
  st_job : job_repr;
  st_address : address_t;
  st_start_time : option Z;
  st_error_count : Z;
  st_side_data : option (Z * Z)
}.

(** [if job == None: return 'None'
     if isinstance(job, str): return job
     else: return (job[0], job[1].couch_id)] *)
Definition represent_job (w : WorkerPool.wstate)
    : M WorkerPool.t job_repr :=
  match w with
  | WorkerPool.WORKER_INACTIVE => ret (ReprStr "None")
  | WorkerPool.WORKER_DISABLED => ret (ReprStr "disabled")
  | WorkerPool.BUSY (k, Some s) => ret (ReprPair k (couch_id s))
  | WorkerPool.BUSY (_, None) => raise AttributeError
  end.

(** The entry of worker [n]: the fields are read in the order of the
    dictionary display. *)
Definition status_of (n : Z) : M WorkerPool.t status :=
  w <~ getitem WorkerPool.workers n;
  j <~ represent_job w;
  a <~ getitem WorkerPool.address n;
  s <~ getitem WorkerPool.start_time n;
  e <~ getitem WorkerPool.error_count n;
  sd <~ getitem WorkerPool.side_data n;
  ret (mk_status j a s e sd).

(** [dict([(str(n), {...}) for n in self.workers.keys()])] *)
Definition get_workers_status : M WorkerPool.t (gmap Z status) :=
  ks <~ gets (fun p => dict_keys (WorkerPool.workers p));
  l <~ for_each ks []
         (fun acc n => x <~ status_of n; ret (acc ++ [(n, x)])%list);
  ret (list_to_map l).

(** [JobDispatcher.get_workers_status] *)
Definition dispatcher_get_workers_status
    : M JobDispatcher.t (gmap Z status) :=
  with_lock DispatcherLock (JobDispatcher.on_workers get_workers_status).

(** [EvaluationServer.get_workers_status] *)
Definition server_get_workers_status
    : M EvaluationServer.t (gmap Z status) :=
  EvaluationServer.on_jd dispatcher_get_workers_status.

End WorkerStatus.

(** The report on worker [n], when all its records are there. *)
Definition status_at (p : WorkerPool.t) (n : Z)
    : option WorkerStatus.status :=
  w ← WorkerPool.workers p !! n;
  j ← match w with
      | WorkerPool.WORKER_INACTIVE => Some (WorkerStatus.ReprStr "None")
      | WorkerPool.WORKER_DISABLED => Some (WorkerStatus.ReprStr "disabled")
      | WorkerPool.BUSY (k, Some s) =>
          Some (WorkerStatus.ReprPair k (couch_id s))
      | WorkerPool.BUSY (_, None) => None
      end;
  a ← WorkerPool.address p !! n;
  s ← WorkerPool.start_time p !! n;
  e ← WorkerPool.error_count p !! n;
  sd ← WorkerPool.side_data p !! n;
  Some (WorkerStatus.mk_status j a s e sd).

(** ** Facts about the monad *)

Ltac unfold_monad :=
  unfold Utils_log, time_time, py_assert in *;
  unfold bind, try_except, zoom, with_lock, gets, modify, world, emit_event,
    getitem, rpc, ret, raise in *.

Ltac unfold_views := unfold outcome, state_of, world_of in *; simpl in *.

(** ** Walking a dictionary *)

Lemma dict_items_perm {V} (d : gmap Z V) : dict_items d ≡ₚ map_to_list d.
Proof. apply merge_sort_Permutation. Qed.

Lemma elem_of_dict_items {V} (d : gmap Z V) k v :
  (k, v) ∈ dict_items d <-> d !! k = Some v.
Proof. rewrite dict_items_perm. apply elem_of_map_to_list. Qed.

Lemma NoDup_fst_dict_items {V} (d : gmap Z V) : NoDup (fst <$> dict_items d).
Proof. rewrite dict_items_perm. apply NoDup_fst_map_to_list. Qed.

Lemma NoDup_dict_keys {V} (d : gmap Z V) : NoDup (dict_keys d).
Proof. apply NoDup_fst_dict_items. Qed.

Lemma elem_of_dict_keys {V} (d : gmap Z V) k :
  k ∈ dict_keys d <-> is_Some (d !! k).
Proof.
  unfold dict_keys. rewrite list_elem_of_fmap. split.
  - intros ([k' v] & -> & Hin). apply elem_of_dict_items in Hin. eauto.
  - intros [v Hv]. exists (k, v). split; [reflexivity|].
    apply elem_of_dict_items. exact Hv.
Qed.

(** The keys are walked in ascending order. *)
Lemma dict_keys_sorted {V} (d : gmap Z V) :
  StronglySorted Z.le (dict_keys d).
Proof.
  unfold dict_keys, dict_items.
  assert (Hs : StronglySorted key_order (merge_sort key_order (map_to_list d))).
  { assert (Htrans : Transitive (@key_order V))
      by (intros a b c; unfold key_order; lia).
    assert (Htotal : Total (@key_order V))
      by (intros a b; unfold key_order; lia).
    apply (StronglySorted_merge_sort key_order). }
  induction Hs as [|a l Hs IH Hall]; simpl; constructor.
  - exact IH.
  - rewrite Forall_fmap. eapply Forall_impl; [exact Hall|].
    intros b Hb. exact Hb.
Qed.

(** ** JobQueue *)

(** The loop of [search] never finds anything: on the first element the
    subscript [self.queue[i]] is evaluated with a tuple for [i]. *)
Lemma search_loop_nonempty e items j q i :
  JobQueue.search_loop (e :: items) j q i = (Raise TypeError, q, i).
Proof. reflexivity. Qed.

Lemma search_raises j q i :
  JobQueue.search j q i =
    (Raise (match JobQueue.queue q with [] => LookupError | _ => TypeError end),
     q, emit (EvRelease QueueLock) (emit (EvAcquire QueueLock) i)).
Proof.
  unfold JobQueue.search. unfold_monad.
  destruct (JobQueue.queue q) as [|e items]; reflexivity.
Qed.

Lemma set_priority_raises j priority q i :
  JobQueue.set_priority j priority q i =
    (Raise (match JobQueue.queue q with [] => LookupError | _ => TypeError end),
     q,
     emit (EvRelease QueueLock)
       (emit (EvRelease QueueLock)
          (emit (EvAcquire QueueLock) (emit (EvAcquire QueueLock) i)))).
Proof.
  unfold JobQueue.set_priority, with_lock, bind.
  rewrite search_raises. reflexivity.
Qed.

Lemma queue_set_priority_raises j priority d i :
  exists e i',
    JobDispatcher.queue_set_priority j priority d i = (Raise e, d, i')
    /\ e = match JobQueue.queue (JobDispatcher.queue d) with
           | [] => LookupError
           | _ => TypeError
           end.
Proof.
  unfold JobDispatcher.queue_set_priority, JobDispatcher.on_queue,
    with_lock, bind, zoom.
  rewrite set_priority_raises. destruct d. simpl. eauto.
Qed.

(** C2 (the code departs from the claim): on the queue that holds the
    evaluation of "s1" at priority LOW, [set_priority] of that very job to
    MEDIUM raises [TypeError] instead of updating the entry: the queue is
    left as it was and [top()] still shows priority LOW. *)
Theorem C2_set_priority_raises_and_changes_nothing :
  let call := JobQueue.set_priority (JOB_TYPE_EVALUATION, Some Scenario.s1)
                JOB_PRIORITY_MEDIUM Scenario.queue_with_s1 Scenario.world0 in
  outcome call = Raise TypeError
  /\ state_of call = Scenario.queue_with_s1
  /\ outcome (JobQueue.top (state_of call) (world_of call))
     = Ok (JOB_PRIORITY_LOW, 10, (JOB_TYPE_EVALUATION, Some Scenario.s1)).
Proof.
  cbv zeta. rewrite set_priority_raises. repeat split.
Qed.

(** [use_token] never returns: the priority change it attempts always
    raises, and nothing catches the exception. *)
Lemma use_token_never_returns id s i :
  forall b, outcome (EvaluationServer.use_token id s i) <> Ok b.
Proof.
  intros b. unfold EvaluationServer.use_token, CouchObject.from_couch.
  unfold bind at 1. destruct (store i !! id) as [sub|]; [|discriminate].
  unfold bind at 1.
  destruct ((if evaluation_outcome sub is Some _
             then emit_event (EvCall (scorer_add_token (couch_id sub)))
             else ret tt) s i) as [[[[]|e] s'] i'] eqn:E1; [|discriminate].
  unfold bind at 1, EvaluationServer.on_jd, zoom.
  destruct (queue_set_priority_raises (JOB_TYPE_EVALUATION, Some sub)
              JOB_PRIORITY_MEDIUM (EvaluationServer.jd s') i')
    as (e & i'' & -> & _).
  discriminate.
Qed.

(** C3 (the code departs from the claim): with "s1" in the store and its
    evaluation not in the queue, [use_token("s1")] does not return true: the
    [LookupError] of the priority change leaves the handler and reaches the
    RPC caller. *)
Theorem C3_use_token_lets_the_error_through :
  outcome (EvaluationServer.use_token "s1" (fst Scenario.start)
             (snd Scenario.start))
  = Raise LookupError.
Proof. vm_compute. reflexivity. Qed.

(** [working_workers] raises on every pool: it iterates over the method
    object [self.workers.values]. *)
Lemma working_workers_raises p i :
  outcome (WorkerPool.working_workers p i) = Raise TypeError
  /\ state_of (WorkerPool.working_workers p i) = p.
Proof. split; reflexivity. Qed.

(** C8 (the code departs from the claim): on the pool whose only worker is
    busy, the number of BUSY workers is 1, yet [working_workers()] raises
    [TypeError]; so it does on the empty pool, where the count is 0. *)
Theorem C8_working_workers_raises :
  busy_count Scenario.busy_pool = 1%nat
  /\ outcome (WorkerPool.working_workers Scenario.busy_pool Scenario.world0)
     = Raise TypeError
  /\ busy_count WorkerPool.__init__ = 0%nat
  /\ outcome (WorkerPool.working_workers WorkerPool.__init__ Scenario.world0)
     = Raise TypeError.
Proof. repeat split. Qed.

(** Once the bomb is primed, a wake-up of the dispatcher never reaches the
    explosion nor the queue: the test of [run] raises. *)
Lemma run_turn_primed d i :
  JobDispatcher.bomb_primed d = true ->
  JobDispatcher.touched d = true ->
  outcome (JobDispatcher.run_turn d i) = Raise TypeError.
Proof.
  intros Hp Ht. unfold JobDispatcher.run_turn, JobDispatcher.touched_wait,
    JobDispatcher.touched_clear.
  unfold_monad. rewrite Ht. simpl. rewrite Hp. reflexivity.
Qed.

(** C4 (the code departs from the claim): with the bomb primed and worker 0
    still busy, the next wake-up ends the loop of [run] with a [TypeError]
    although a worker is working; with the bomb primed and no worker
    working, the loop ends with the same [TypeError] instead of returning. *)
Theorem C4_primed_bomb_ends_run_by_TypeError :
  busy_count Scenario.busy_pool = 1%nat
  /\ outcome (JobDispatcher.run_turn (Scenario.primed Scenario.busy_pool)
                Scenario.world0) = Raise TypeError
  /\ busy_count (Scenario.pool_of WorkerPool.WORKER_INACTIVE 1) = 0%nat
  /\ outcome (JobDispatcher.run_turn
                (Scenario.primed (Scenario.pool_of WorkerPool.WORKER_INACTIVE 1))
                Scenario.world0) = Raise TypeError.
Proof. repeat split. Qed.

(** C1 (the code departs from the claim): one worker, "s1" with no
    tentative so far.  The third [compilation_finished(false, "s1")] returns
    true, logs no maximum-tentatives message and queues the compilation
    again, and the dispatcher sends a fourth [compile("s1")].  Likewise the
    third [evaluation_finished(false, "s2")] queues a fourth evaluation. *)
Theorem C1_third_failure_is_retried :
  let third := Scenario.after
                 (EvaluationServer.compilation_finished false "s1")
                 Scenario.compiling_third_time in
  let third_ev := Scenario.after
                    (EvaluationServer.evaluation_finished false "s2")
                    Scenario.evaluating_third_time in
  outcome (EvaluationServer.compilation_finished false "s1"
             (fst Scenario.compiling_third_time)
             (snd Scenario.compiling_third_time)) = Ok true
  /\ compilation_tentatives <$> store (snd third) !! "s1" = Some 3
  /\ logged "Maximum tentatives (%d) reached for the compilation of submission %s - I will not try again"
            (events (snd third)) = false
  /\ (fun e => (fst (fst e), fst (snd e))) <$> Scenario.the_queue third
     = [(JOB_PRIORITY_HIGH, JOB_TYPE_COMPILATION)]
  /\ rpcs_of (events (snd (Scenario.after Scenario.dispatch third)))
     = replicate 4 (("worker0", 9000), rpc_compile "s1")
  /\ evaluation_tentatives <$> store (snd third_ev) !! "s2" = Some 3
  /\ rpcs_of (events (snd (Scenario.after Scenario.dispatch third_ev)))
     = replicate 4 (("worker0", 9000), rpc_evaluate "s2").
Proof. vm_compute. repeat split. Qed.

(** ** The auxiliary operations of the dispatcher *)

(** Case analysis on the innermost [match] of the hypotheses, until none is
    left. *)
Ltac split_matches :=
  repeat match goal with
         | H : context [match ?x with _ => _ end] |- _ =>
             lazymatch x with
             | context [match _ with _ => _ end] => fail
             | _ => destruct x eqn:?; simpl in *; try discriminate
             end
         | H : (_, _) = (_, _) |- _ => inversion H; clear H; simplify_eq
         end.

Ltac solve_suffix :=
  simpl; repeat first [ reflexivity | apply suffix_cons_r ].

(** C9, counterexample: deleting the disabled worker 0 of a sleeping
    dispatcher succeeds and leaves [touched] clear, so not every auxiliary
    operation leaves the latch set on success. *)
Lemma C9_del_worker_does_not_wake :
  ~ (forall c d i d' i',
       run_aux_call c d i = (Ok tt, d', i') ->
       JobDispatcher.touched d' = true).
Proof.
  intros H.
  specialize (H (aux_del_worker 0) ScenarioAux.asleep Scenario.world0
                (state_of (run_aux_call (aux_del_worker 0) ScenarioAux.asleep
                             Scenario.world0))
                (world_of (run_aux_call (aux_del_worker 0) ScenarioAux.asleep
                             Scenario.world0))).
  vm_compute in H. specialize (H eq_refl). discriminate H.
Qed.

(** C9, amended: every auxiliary operation first acquires the dispatcher
    lock, whether it then succeeds or raises: the acquisition is the first
    thing the call adds to the trace.  On success [queue_push],
    [queue_set_priority], [release_worker], [enable_worker] and
    [add_worker] leave [touched] set, whereas [del_worker] leaves [touched]
    as it found it.  [queue_set_priority] itself never succeeds, and leaves
    [touched] as it found it. *)
Theorem C9_auxiliary_operations c d i :
  let call := run_aux_call c d i in
  suffix (EvAcquire DispatcherLock :: events i) (events (world_of call))
  /\ (outcome call = Ok tt ->
      JobDispatcher.touched (state_of call)
      = if is_del_worker c then JobDispatcher.touched d else true)
  /\ (forall j priority,
        c = aux_queue_set_priority j priority ->
        outcome call <> Ok tt
        /\ JobDispatcher.touched (state_of call) = JobDispatcher.touched d).
Proof.
  cbv zeta.
  destruct (run_aux_call c d i) as [[r d'] i'] eqn:H.
  unfold outcome, state_of, world_of. cbn [fst snd].
  destruct c; simpl in H.
  - unfold JobDispatcher.queue_push, JobDispatcher.on_queue, JobQueue.push,
      JobQueue.semaphore_release, JobQueue.job_timestamp,
      JobDispatcher.touched_set in H.
    unfold_monad. split_matches;
      (split; [solve_suffix|]); (split; [|discriminate]);
      intros; first [reflexivity | discriminate].
  - unfold JobDispatcher.queue_set_priority, JobDispatcher.on_queue,
      with_lock, bind, zoom in H.
    rewrite set_priority_raises in H. inversion H; subst. clear H.
    split; [solve_suffix|]. split; [discriminate|].
    intros _ _ _. split; [discriminate|destruct d; reflexivity].
  - unfold JobDispatcher.release_worker, JobDispatcher.on_workers,
      WorkerPool.release_worker, WorkerPool.semaphore_release,
      JobDispatcher.touched_set in H.
    unfold_monad. split_matches;
      (split; [solve_suffix|]); (split; [|discriminate]);
      intros; first [reflexivity | discriminate].
  - unfold JobDispatcher.enable_worker, JobDispatcher.on_workers,
      WorkerPool.enable_worker, WorkerPool.semaphore_release,
      JobDispatcher.touched_set in H.
    unfold_monad. split_matches;
      (split; [solve_suffix|]); (split; [|discriminate]);
      intros; first [reflexivity | discriminate].
  - unfold JobDispatcher.add_worker, JobDispatcher.on_workers,
      WorkerPool.add_worker, WorkerPool.semaphore_release,
      JobDispatcher.touched_set in H.
    unfold_monad. split_matches;
      (split; [solve_suffix|]); (split; [|discriminate]);
      intros; first [reflexivity | discriminate].
  - unfold JobDispatcher.del_worker, JobDispatcher.on_workers,
      WorkerPool.del_worker in H.
    unfold_monad. split_matches;
      (split; [solve_suffix|]); (split; [|discriminate]);
      intros; first [reflexivity | discriminate].
Qed.

Lemma C9_auxiliary_operations_witness :
  suffix (EvAcquire DispatcherLock :: events Scenario.world0)
    (events (world_of (run_aux_call (aux_enable_worker 0) ScenarioAux.asleep
                         Scenario.world0)))
  /\ JobDispatcher.touched
       (state_of (run_aux_call (aux_enable_worker 0) ScenarioAux.asleep
                    Scenario.world0)) = true.
Proof.
  destruct (C9_auxiliary_operations (aux_enable_worker 0) ScenarioAux.asleep
              Scenario.world0) as (H1 & H2 & _).
  split; [exact H1|]. apply H2. vm_compute. reflexivity.
Defined.

(** ** WorkerPool: counting the inactive workers *)

Lemma inactive_filter_lookup (ws : gmap Z WorkerPool.wstate) k :
  is_Some (filter (fun kv => is_inactive (snd kv) = true) ws !! k)
  <-> inactive_at ws k = true.
Proof.
  unfold inactive_at, is_Some. setoid_rewrite map_lookup_filter_Some. simpl.
  destruct (ws !! k) as [w|]; split.
  - intros (x & Hx & Hi). congruence.
  - intros Hi. eauto.
  - intros (x & Hx & _). discriminate.
  - discriminate.
Qed.

Lemma inactive_count_insert (ws : gmap Z WorkerPool.wstate) k v :
  (inactive_count (<[k := v]> ws) + b2n (inactive_at ws k)
   = inactive_count ws + b2n (is_inactive v))%nat.
Proof.
  unfold inactive_count. rewrite map_filter_insert. simpl.
  pose proof (inactive_filter_lookup ws k) as Hk.
  destruct (inactive_at ws k) eqn:Hat; simpl.
  - assert (Hs : is_Some (filter (fun kv => is_inactive (snd kv) = true) ws !! k))
      by (apply Hk; reflexivity).
    pose proof (map_size_ne_0_lookup_2 _ _ Hs) as Hpos.
    case_decide as Hv.
    + rewrite Hv. simpl. rewrite map_size_insert_Some by exact Hs. reflexivity.
    + rewrite map_filter_delete, map_size_delete_Some by exact Hs.
      destruct (is_inactive v); [congruence|]. simpl. lia.
  - assert (Hn : filter (fun kv => is_inactive (snd kv) = true) ws !! k = None).
    { apply eq_None_not_Some. intros Hs. apply Hk in Hs. discriminate. }
    case_decide as Hv.
    + rewrite Hv. simpl. rewrite map_size_insert_None by exact Hn. lia.
    + rewrite map_filter_delete, map_size_delete_None by exact Hn.
      destruct (is_inactive v); [congruence|]. simpl. lia.
Qed.

Lemma inactive_count_delete (ws : gmap Z WorkerPool.wstate) k :
  (inactive_count (delete k ws) + b2n (inactive_at ws k)
   = inactive_count ws)%nat.
Proof.
  unfold inactive_count. rewrite map_filter_delete.
  pose proof (inactive_filter_lookup ws k) as Hk.
  destruct (inactive_at ws k) eqn:Hat; simpl.
  - assert (Hs : is_Some (filter (fun kv => is_inactive (snd kv) = true) ws !! k))
      by (apply Hk; reflexivity).
    pose proof (map_size_ne_0_lookup_2 _ _ Hs) as Hpos.
    rewrite map_size_delete_Some by exact Hs. lia.
  - rewrite map_size_delete_None; [lia|].
    apply eq_None_not_Some. intros Hs. apply Hk in Hs. discriminate.
Qed.

Lemma inactive_count_none (ws : gmap Z WorkerPool.wstate) :
  (forall k w, ws !! k = Some w -> is_inactive w = false) ->
  inactive_count ws = 0%nat.
Proof.
  intros H. unfold inactive_count. apply map_size_empty_iff.
  apply map_empty_filter. intros k w Hk. simpl. rewrite (H k w Hk).
  discriminate.
Qed.

(** What the search of [find_worker] returns is a worker in the state
    looked for; it finds one whenever there is one. *)
Lemma find_in_pool_sound (ws : gmap Z WorkerPool.wstate) v k w :
  List.find (fun kv => WorkerPool.wstate_eqb (snd kv) v) (dict_items ws)
  = Some (k, w) ->
  ws !! k = Some w /\ WorkerPool.wstate_eqb w v = true.
Proof.
  intros H. apply find_some in H as [Hin Hv]. split; [|exact Hv].
  apply elem_of_dict_items, list_elem_of_In. exact Hin.
Qed.

Lemma find_in_pool_none (ws : gmap Z WorkerPool.wstate) v :
  List.find (fun kv => WorkerPool.wstate_eqb (snd kv) v) (dict_items ws)
  = None ->
  forall k w, ws !! k = Some w -> WorkerPool.wstate_eqb w v = false.
Proof.
  intros H k w Hk.
  apply (find_none _ _ H (k, w)).
  apply list_elem_of_In, elem_of_dict_items. exact Hk.
Qed.

Lemma find_inactive_none (ws : gmap Z WorkerPool.wstate) :
  List.find (fun kv => WorkerPool.wstate_eqb (snd kv) WorkerPool.WORKER_INACTIVE)
            (dict_items ws) = None ->
  inactive_count ws = 0%nat.
Proof.
  intros H. apply inactive_count_none. intros k w Hk.
  exact (find_in_pool_none ws _ H k w Hk).
Qed.

Lemma inactive_at_lookup (ws : gmap Z WorkerPool.wstate) k w :
  ws !! k = Some w -> inactive_at ws k = is_inactive w.
Proof. unfold inactive_at. intros ->. reflexivity. Qed.

Lemma inactive_at_missing (ws : gmap Z WorkerPool.wstate) k :
  ws !! k = None -> inactive_at ws k = false.
Proof. unfold inactive_at. intros ->. reflexivity. Qed.

(** ** WorkerPool: the semaphore counts the inactive workers *)

Ltac start_call H :=
  match goal with
  | |- context [state_of ?c] =>
      let r := fresh "r" in let p' := fresh "p'" in let i' := fresh "i'" in
      destruct c as [[r p'] i'] eqn:H
  end.

Ltac count_facts :=
  repeat match goal with
         | |- context [inactive_count (<[?k := ?v]> ?ws)] =>
             lazymatch goal with
             | _ : (inactive_count (<[k := v]> ws) + _ = _)%nat |- _ => fail
             | _ => pose proof (inactive_count_insert ws k v)
             end
         | |- context [inactive_count (delete ?k ?ws)] =>
             lazymatch goal with
             | _ : (inactive_count (delete k ws) + _ = _)%nat |- _ => fail
             | _ => pose proof (inactive_count_delete ws k)
             end
         end.

Ltac case_wstate :=
  repeat match goal with
         | w : WorkerPool.wstate |- _ =>
             destruct w; simpl in *; try discriminate
         end.

Lemma W1_add_worker n h pt p i :
  W1 p -> W1 (state_of (WorkerPool.add_worker n h pt p i)).
Proof.
  intros HW. start_call H.
  unfold WorkerPool.add_worker, WorkerPool.semaphore_release in H.
  unfold_monad. split_matches; unfold_views; unfold W1 in *; simpl;
    [assumption|].
  count_facts.
  rewrite inactive_at_missing in * by (by apply not_elem_of_dom).
  simpl in *. lia.
Qed.

Lemma W1_del_worker n p i :
  W1 p -> W1 (state_of (WorkerPool.del_worker n p i)).
Proof.
  intros HW. start_call H.
  unfold WorkerPool.del_worker in H.
  unfold_monad. split_matches; unfold_views; unfold W1 in *; simpl;
    try assumption.
  all: count_facts.
  all: erewrite inactive_at_lookup in * by eassumption.
  all: case_wstate; simpl in *; lia.
Qed.

Lemma W1_enable_worker n p i :
  W1 p -> W1 (state_of (WorkerPool.enable_worker n p i)).
Proof.
  intros HW. start_call H.
  unfold WorkerPool.enable_worker, WorkerPool.semaphore_release in H.
  unfold_monad. split_matches; unfold_views; unfold W1 in *; simpl;
    try assumption.
  all: count_facts.
  all: erewrite inactive_at_lookup in * by eassumption.
  all: case_wstate; simpl in *; lia.
Qed.

Lemma W1_release_worker n p i :
  W1 p -> W1 (state_of (WorkerPool.release_worker n p i)).
Proof.
  intros HW. start_call H.
  unfold WorkerPool.release_worker, WorkerPool.semaphore_release in H.
  unfold_monad. split_matches; unfold_views; unfold W1 in *; simpl;
    try assumption.
  all: count_facts.
  all: erewrite inactive_at_lookup in * by eassumption.
  all: case_wstate; simpl in *; lia.
Qed.

Lemma W1_disable_worker n p i :
  W1 p -> n ∈ dom (WorkerPool.workers p) ->
  W1 (state_of (WorkerPool.disable_worker n p i)).
Proof.
  intros HW Hn. start_call H. apply elem_of_dom in Hn as [w0 Hw0].
  unfold WorkerPool.disable_worker, WorkerPool.semaphore_release,
    WorkerPool.semaphore_acquire in H.
  unfold_monad. split_matches; unfold_views; unfold W1 in *; simpl in *;
    try assumption; try congruence.
  all: count_facts.
  all: erewrite inactive_at_lookup in * by eassumption.
  all: case_wstate; simpl in *; lia.
Qed.

Lemma W1_acquire_worker j b sd p i :
  W1 p -> W1 (state_of (WorkerPool.acquire_worker j b sd p i)).
Proof.
  intros HW. start_call H.
  unfold WorkerPool.acquire_worker, WorkerPool.find_worker,
    WorkerPool.semaphore_acquire in H.
  unfold_monad. split_matches; unfold_views; unfold W1 in *; simpl in *;
    try assumption.
  - apply find_in_pool_sound in Heqo as [Hz Hw].
    count_facts. erewrite inactive_at_lookup in * by eassumption.
    case_wstate; simpl in *; lia.
  - apply find_inactive_none in Heqo. lia.
Qed.

(** W1 holds of the empty pool and is kept by every call of the pool, be it
    successful or not, as long as [disable_worker] is given a registered
    worker. *)
Lemma W1_init : W1 WorkerPool.__init__.
Proof. reflexivity. Qed.

Lemma W1_preserved c p i :
  W1 p ->
  (forall n, c = call_disable_worker n -> n ∈ dom (WorkerPool.workers p)) ->
  W1 (run_pool_call c p i).
Proof.
  intros HW Hd. destruct c; simpl.
  - by apply W1_add_worker.
  - by apply W1_del_worker.
  - by apply W1_enable_worker.
  - apply W1_disable_worker; [done|]. by apply Hd.
  - by apply W1_acquire_worker.
  - by apply W1_release_worker.
Qed.

(** C7 (the code departs from the claim): in the pool whose worker 0 is
    INACTIVE and whose semaphore is 1, W1 holds; [disable_worker(5)] takes
    the permit and then fails on the unknown worker with [KeyError] without
    giving the permit back: afterwards the semaphore is 0 while worker 0 is
    still INACTIVE, and W1 is lost. *)
Theorem C7_disable_unknown_worker_breaks_W1 :
  let p := Scenario.pool_of WorkerPool.WORKER_INACTIVE 1 in
  let call := WorkerPool.disable_worker 5 p Scenario.world0 in
  W1 p
  /\ outcome call = Raise KeyError
  /\ WorkerPool.semaphore (state_of call) = 0%nat
  /\ inactive_count (WorkerPool.workers (state_of call)) = 1%nat
  /\ ~ W1 (run_pool_call (call_disable_worker 5) p Scenario.world0).
Proof.
  cbv zeta. repeat split. unfold W1. vm_compute. discriminate.
Qed.

(** ** EvaluationServer: the handlers of finished jobs *)

Lemma bind_ok {S A B} (m : M S A) (k : A -> M S B) s i a s' i' :
  m s i = (Ok a, s', i') -> bind m k s i = k a s' i'.
Proof. unfold bind. intros ->. reflexivity. Qed.

Lemma bind_raise {S A B} (m : M S A) (k : A -> M S B) s i e s' i' :
  m s i = (Raise e, s', i') -> bind m k s i = (Raise e, s', i').
Proof. unfold bind. intros ->. reflexivity. Qed.

Lemma find_all_false {A} (f : A -> bool) (l : list A) :
  (forall x, In x l -> f x = false) -> List.find f l = None.
Proof.
  induction l as [|a l IH]; intros H; simpl; [reflexivity|].
  rewrite (H a) by (left; reflexivity).
  apply IH. intros x Hx. apply H. right. exact Hx.
Qed.

Lemma wstate_eqb_busy_on w k sub :
  WorkerPool.wstate_eqb w (WorkerPool.BUSY (k, Some sub))
  = busy_on k (couch_id sub) w.
Proof.
  destruct w as [| |[k' [s|]]]; simpl; unfold job_eqb; simpl;
    try reflexivity.
  destruct (job_type_eqb k' k); reflexivity.
Qed.

(** With nobody busy on the job, the lookup of its worker fails and leaves
    the server as it was. *)
Lemma find_worker_nobody k sub es i :
  nobody_busy_on k (couch_id sub) es ->
  EvaluationServer.on_jd (JobDispatcher.find_worker (k, Some sub)) es i
  = (Raise LookupError, es,
     emit (EvRelease DispatcherLock)
       (emit (EvRelease PoolLock)
          (emit (EvAcquire PoolLock) (emit (EvAcquire DispatcherLock) i)))).
Proof.
  intros Hn. unfold EvaluationServer.on_jd, JobDispatcher.find_worker,
    JobDispatcher.on_workers, WorkerPool.find_worker.
  unfold_monad. rewrite find_all_false.
  - destruct es as [[q p b t]]. reflexivity.
  - intros [n w] Hin. simpl. rewrite wstate_eqb_busy_on.
    apply (Hn n w). apply elem_of_dict_items, list_elem_of_In. exact Hin.
Qed.

(** The save-and-retry loop returns: it ends with the incremented last
    version in memory and in the store, all pending conflicts consumed. *)
Lemma save_loop_returns bump :
  keeps_id bump ->
  forall cs fuel sub (es : EvaluationServer.t) i,
    conflicts i = cs ->
    (length cs < fuel)%nat ->
    Forall (fun c => couch_id c = couch_id sub) cs ->
    EvaluationServer.save_loop fuel bump sub es i
    = (Ok (bump (last_version sub i)), es,
       set_conflicts []
         (set_store <[couch_id sub := bump (last_version sub i)]> i)).
Proof.
  intros Hid cs. induction cs as [|c cs IH]; intros fuel sub es i Hcs Hf Hall.
  - destruct fuel as [|fuel]; [simpl in Hf; lia|]. simpl.
    unfold CouchObject.to_couch, last_version. unfold_monad.
    rewrite Hcs. simpl. rewrite Hid. destruct i; simpl in *. subst.
    reflexivity.
  - destruct fuel as [|fuel]; [simpl in Hf; lia|]. simpl.
    unfold CouchObject.to_couch, CouchObject.refresh, CouchObject.from_couch.
    unfold_monad. rewrite Hcs. simpl. rewrite Hid, lookup_insert_eq.
    apply Forall_cons in Hall as [Hc Hall].
    rewrite IH.
    + unfold last_version. simpl. rewrite Hcs, Hc.
      replace (default c (last cs)) with (default sub (last (c :: cs))).
      * unfold set_conflicts, set_store. simpl. rewrite insert_insert_eq.
        reflexivity.
      * rewrite last_cons. destruct (last cs); reflexivity.
    + reflexivity.
    + simpl in Hf. lia.
    + rewrite Hc. exact Hall.
Qed.

Lemma save_with_retry_returns bump sub (es : EvaluationServer.t) i :
  keeps_id bump ->
  Forall (fun c => couch_id c = couch_id sub) (conflicts i) ->
  EvaluationServer.save_with_retry bump sub es i
  = (Ok (bump (last_version sub i)), es,
     set_conflicts []
       (set_store <[couch_id sub := bump (last_version sub i)]> i)).
Proof.
  intros Hid Hall. unfold EvaluationServer.save_with_retry. unfold_monad.
  apply (save_loop_returns bump Hid (conflicts i)); [reflexivity|lia|exact Hall].
Qed.

Lemma last_version_id sub i :
  Forall (fun c => couch_id c = couch_id sub) (conflicts i) ->
  couch_id (last_version sub i) = couch_id sub.
Proof.
  intros Hall. unfold last_version.
  destruct (last (conflicts i)) as [c|] eqn:E; simpl; [|reflexivity].
  apply last_Some_elem_of in E.
  rewrite Forall_forall in Hall. exact (Hall c E).
Qed.

(** C10: when [compilation_finished] is called while no worker is busy on
    the compilation of that submission, the call raises [LookupError] to
    its caller and leaves the server untouched, yet the store already holds
    the submission with [compilation_tentatives] incremented; and the same
    for [evaluation_finished] and [evaluation_tentatives]. *)
Theorem C10_counter_persisted_before_lookup_fails success id sub es i :
  store i !! id = Some sub ->
  couch_id sub = id ->
  Forall (fun c => couch_id c = id) (conflicts i) ->
  (nobody_busy_on JOB_TYPE_COMPILATION id es ->
   let call := EvaluationServer.compilation_finished success id es i in
   outcome call = Raise LookupError
   /\ state_of call = es
   /\ store (world_of call) !! id
      = Some (EvaluationServer.bump_compilation (last_version sub i))
   /\ compilation_tentatives
        (EvaluationServer.bump_compilation (last_version sub i))
      = compilation_tentatives (last_version sub i) + 1)
  /\ (nobody_busy_on JOB_TYPE_EVALUATION id es ->
      let call := EvaluationServer.evaluation_finished success id es i in
      outcome call = Raise LookupError
      /\ state_of call = es
      /\ store (world_of call) !! id
         = Some (EvaluationServer.bump_evaluation (last_version sub i))
      /\ evaluation_tentatives
           (EvaluationServer.bump_evaluation (last_version sub i))
         = evaluation_tentatives (last_version sub i) + 1).
Proof.
  intros Hs Hid Hall. subst id.
  split; intros Hn; cbv zeta.
  - unfold EvaluationServer.compilation_finished.
    erewrite bind_ok
      by (unfold CouchObject.from_couch; rewrite Hs; reflexivity).
    erewrite bind_ok
      by (apply save_with_retry_returns; [intros s; reflexivity|exact Hall]).
    erewrite bind_raise.
    2:{ unfold EvaluationServer.action_finished.
        apply bind_raise. apply find_worker_nobody. simpl.
        rewrite last_version_id by exact Hall. exact Hn. }
    unfold_views. rewrite lookup_insert_eq. repeat split.
  - unfold EvaluationServer.evaluation_finished.
    erewrite bind_ok
      by (unfold CouchObject.from_couch; rewrite Hs; reflexivity).
    erewrite bind_ok
      by (apply save_with_retry_returns; [intros s; reflexivity|exact Hall]).
    erewrite bind_raise.
    2:{ unfold EvaluationServer.action_finished.
        apply bind_raise.
        apply find_worker_nobody. simpl.
        rewrite last_version_id by exact Hall. exact Hn. }
    unfold_views. rewrite lookup_insert_eq. repeat split.
Qed.

Lemma C10_counter_persisted_witness :
  outcome (EvaluationServer.compilation_finished false "s1"
             (fst Scenario.start) (snd Scenario.start)) = Raise LookupError
  /\ compilation_tentatives
       <$> store (world_of (EvaluationServer.compilation_finished false "s1"
                              (fst Scenario.start) (snd Scenario.start)))
           !! "s1" = Some 1
  /\ outcome (EvaluationServer.evaluation_finished false "s1"
                (fst Scenario.start) (snd Scenario.start)) = Raise LookupError
  /\ evaluation_tentatives
       <$> store (world_of (EvaluationServer.evaluation_finished false "s1"
                              (fst Scenario.start) (snd Scenario.start)))
           !! "s1" = Some 1.
Proof.
  destruct (C10_counter_persisted_before_lookup_fails false "s1" Scenario.s1
              (fst Scenario.start) (snd Scenario.start))
    as [Hc He].
  - vm_compute. reflexivity.
  - reflexivity.
  - vm_compute. constructor.
  - destruct Hc as (H1 & _ & H3 & _).
    { unfold nobody_busy_on. apply (bool_decide_unpack _). vm_compute. exact I. }
    destruct He as (H4 & _ & H6 & _).
    { unfold nobody_busy_on. apply (bool_decide_unpack _). vm_compute. exact I. }
    rewrite H3, H6. repeat split; assumption.
Defined.

(** ** WorkerPool: what the calls do to a worker *)

Lemma only_events_refl i : only_events i i.
Proof. unfold only_events. repeat (split; [reflexivity|]). reflexivity. Qed.

Lemma only_events_emit e i i' : only_events i i' -> only_events i (emit e i').
Proof.
  intros (H1 & H2 & H3 & H4 & H5 & H6).
  unfold only_events. simpl. repeat (split; [assumption|]).
  by apply suffix_cons_r.
Qed.

Lemma only_events_trans i1 i2 i3 :
  only_events i1 i2 -> only_events i2 i3 -> only_events i1 i3.
Proof.
  intros (H1 & H2 & H3 & H4 & H5 & H6) (G1 & G2 & G3 & G4 & G5 & G6).
  unfold only_events. repeat (split; [congruence|]). by etrans.
Qed.

Ltac solve_only_events :=
  repeat first [ apply only_events_refl | apply only_events_emit ].

(** A successful non-blocking acquisition: the worker found was INACTIVE,
    it is now BUSY on the job, leased from the current tick and carries the
    side data; one permit is gone. *)
Lemma acquire_worker_some j b sd p i w p1 i1 :
  WorkerPool.acquire_worker j b sd p i = (Ok (Some w), p1, i1) ->
  exists m w0,
    WorkerPool.semaphore p = S m
    /\ List.find (fun kv => WorkerPool.wstate_eqb (snd kv)
                              WorkerPool.WORKER_INACTIVE)
                 (dict_items (WorkerPool.workers p)) = Some (w, w0)
    /\ p1 = WorkerPool.mk (<[w := WorkerPool.BUSY j]> (WorkerPool.workers p)) m
              (<[w := Some (now i)]> (WorkerPool.start_time p))
              (WorkerPool.address p) (WorkerPool.error_count p)
              (<[w := sd]> (WorkerPool.side_data p))
              (WorkerPool.schedule_disabling p)
    /\ only_events i i1.
Proof.
  intros H.
  unfold WorkerPool.acquire_worker, WorkerPool.find_worker,
    WorkerPool.semaphore_acquire in H.
  unfold_monad. split_matches.
  eexists _, _. repeat (split; [reflexivity|]). solve_only_events.
Qed.

Lemma acquire_worker_found j b sd p i m w w0 :
  WorkerPool.semaphore p = S m ->
  List.find (fun kv => WorkerPool.wstate_eqb (snd kv)
                            WorkerPool.WORKER_INACTIVE)
            (dict_items (WorkerPool.workers p)) = Some (w, w0) ->
  WorkerPool.acquire_worker j b sd p i
  = (Ok (Some w),
     WorkerPool.mk (<[w := WorkerPool.BUSY j]> (WorkerPool.workers p)) m
       (<[w := Some (now i)]> (WorkerPool.start_time p))
       (WorkerPool.address p) (WorkerPool.error_count p)
       (<[w := sd]> (WorkerPool.side_data p))
       (WorkerPool.schedule_disabling p),
     emit (EvRelease PoolLock)
       (emit (EvLog "Worker %d acquired" SEVERITY_DEBUG)
          (emit (EvRelease PoolLock)
             (emit (EvAcquire PoolLock) (emit (EvAcquire PoolLock) i))))).
Proof.
  intros Hs Hf.
  unfold WorkerPool.acquire_worker, WorkerPool.find_worker,
    WorkerPool.semaphore_acquire.
  unfold_monad. rewrite Hs. simpl. rewrite Hf. reflexivity.
Qed.

(** Releasing a busy worker that is not scheduled for disabling: it goes
    back to INACTIVE and the permit is returned. *)
Lemma release_worker_busy w p i j sd :
  WorkerPool.workers p !! w = Some (WorkerPool.BUSY j) ->
  WorkerPool.side_data p !! w = Some sd ->
  WorkerPool.schedule_disabling p !! w = Some false ->
  WorkerPool.release_worker w p i
  = (Ok sd,
     WorkerPool.mk (<[w := WorkerPool.WORKER_INACTIVE]> (WorkerPool.workers p))
       (S (WorkerPool.semaphore p))
       (<[w := None]> (WorkerPool.start_time p))
       (WorkerPool.address p) (WorkerPool.error_count p)
       (<[w := None]> (WorkerPool.side_data p))
       (WorkerPool.schedule_disabling p),
     emit (EvRelease PoolLock)
       (emit (EvLog "Worker %d released" SEVERITY_DEBUG)
          (emit (EvAcquire PoolLock) i))).
Proof.
  intros Hw Hsd Hd. unfold WorkerPool.release_worker,
    WorkerPool.semaphore_release.
  unfold_monad. rewrite Hw. simpl. rewrite Hsd. simpl. rewrite Hd.
  reflexivity.
Qed.

(** Releasing a busy worker that is scheduled for disabling: it becomes
    DISABLED and no permit is returned. *)
Lemma release_worker_scheduled w p i j sd :
  WorkerPool.workers p !! w = Some (WorkerPool.BUSY j) ->
  WorkerPool.side_data p !! w = Some sd ->
  WorkerPool.schedule_disabling p !! w = Some true ->
  WorkerPool.release_worker w p i
  = (Ok sd,
     WorkerPool.mk (<[w := WorkerPool.WORKER_DISABLED]> (WorkerPool.workers p))
       (WorkerPool.semaphore p)
       (<[w := None]> (WorkerPool.start_time p))
       (WorkerPool.address p) (WorkerPool.error_count p)
       (<[w := None]> (WorkerPool.side_data p))
       (<[w := false]> (WorkerPool.schedule_disabling p)),
     emit (EvRelease PoolLock)
       (emit (EvLog "Worker %d released and disabled" SEVERITY_DEBUG)
          (emit (EvAcquire PoolLock) i))).
Proof.
  intros Hw Hsd Hd. unfold WorkerPool.release_worker.
  unfold_monad. rewrite Hw. simpl. rewrite Hsd. simpl. rewrite Hd.
  reflexivity.
Qed.

(** Disabling an INACTIVE worker when a permit is available. *)
Lemma disable_worker_inactive n p i m :
  WorkerPool.semaphore p = S m ->
  WorkerPool.workers p !! n = Some WorkerPool.WORKER_INACTIVE ->
  WorkerPool.disable_worker n p i
  = (Ok tt,
     WorkerPool.mk (<[n := WorkerPool.WORKER_DISABLED]> (WorkerPool.workers p))
       m (WorkerPool.start_time p) (WorkerPool.address p)
       (WorkerPool.error_count p) (WorkerPool.side_data p)
       (WorkerPool.schedule_disabling p),
     emit (EvLog "Worker %d disabled" SEVERITY_DEBUG)
       (emit (EvRelease PoolLock) (emit (EvAcquire PoolLock) i))).
Proof.
  intros Hs Hw. unfold WorkerPool.disable_worker,
    WorkerPool.semaphore_acquire.
  unfold_monad. rewrite Hs. simpl. rewrite Hw. reflexivity.
Qed.


(** ** JobDispatcher: a dispatch whose RPC fails *)

Lemma zoom_eq {S T A} (get : T -> S) (set : S -> T -> T) (m : M S A)
    t i r s' i' :
  m (get t) i = (r, s', i') -> zoom get set m t i = (r, set s' t, i').
Proof. unfold zoom. intros ->. reflexivity. Qed.



Lemma top_head q i e :
  JobQueue.queue q !! 0%nat = Some e ->
  JobQueue.top q i = (Ok e, q, after_top i).
Proof.
  intros H. unfold JobQueue.top. unfold_monad.
  destruct (JobQueue.queue q) as [|e0 rest] eqn:E; [discriminate|].
  simpl in *. inversion H; subst.
  destruct (decide (0 < S (length rest))%nat); [reflexivity|lia].
Qed.

Lemma set_queue_same d :
  JobDispatcher.set_queue (JobDispatcher.queue d) d = d.
Proof. destruct d. reflexivity. Qed.

(** ** WorkerPool: the timeout check *)

(** Whether or not the remote end answers, the shutdown request leaves the
    pool alone and raises nothing. *)
Lemma shut_down_swallowed addr (p : WorkerPool.t) i :
  try_except (rpc addr (rpc_shut_down "No response in %.2f seconds"))
             (fun _ => ret tt) p i
  = (Ok tt, p, emit (shut_down_of addr) i).
Proof.
  unfold try_except, rpc, ret.
  destruct (rpc_raises i addr _); reflexivity.
Qed.

(** One turn of the loop of [check_timeout]. *)
Lemma check_timeout_body_spec now lost k p i :
  lease_ok p k = true ->
  is_Some (WorkerPool.workers p !! k) ->
  if expired now (worker_timeout (config i)) p k then
    exists e addr i',
      lost_entry p k = Some e
      /\ WorkerPool.address p !! k = Some addr
      /\ WorkerPool.check_timeout_body now lost k p i
         = (Ok (lost ++ [e])%list, revoke p k, emit (shut_down_of addr) i')
      /\ only_events i i'
  else
    WorkerPool.check_timeout_body now lost k p i = (Ok lost, p, i).
Proof.
  intros Hok [w Hw]. unfold lease_ok, expired, lost_entry in *.
  rewrite Hw in *.
  destruct (WorkerPool.start_time p !! k) as [[t0|]|] eqn:Hst;
    [| |discriminate].
  2:{ unfold WorkerPool.check_timeout_body.
      erewrite bind_ok by (unfold getitem; rewrite Hst; reflexivity).
      reflexivity. }
  destruct w as [| |j]; try discriminate.
  destruct (WorkerPool.side_data p !! k) as [[[priority timestamp]|]|] eqn:Hsd;
    try discriminate.
  destruct (WorkerPool.address p !! k) as [addr|] eqn:Ha; try discriminate.
  destruct (worker_timeout (config i) <? now - t0) eqn:Hlt.
  2:{ unfold WorkerPool.check_timeout_body.
      erewrite bind_ok by (unfold getitem; rewrite Hst; reflexivity).
      cbv beta iota zeta.
      erewrite bind_ok by reflexivity.
      rewrite Hlt. reflexivity. }
  exists (priority, timestamp, j), addr.
  eexists. split; [reflexivity|]. split; [reflexivity|].
  unfold WorkerPool.check_timeout_body.
  erewrite bind_ok by (unfold getitem; rewrite Hst; reflexivity).
  cbv beta iota zeta.
  erewrite bind_ok by reflexivity.
  rewrite Hlt.
  erewrite bind_ok by (unfold getitem; rewrite Ha; reflexivity).
  erewrite bind_ok by reflexivity.
  erewrite bind_ok by (unfold getitem; rewrite Hw; reflexivity).
  erewrite bind_ok by reflexivity.
  erewrite bind_ok by (unfold getitem; rewrite Hsd; reflexivity).
  erewrite bind_ok by reflexivity.
  cbv beta iota.
  erewrite bind_ok by reflexivity.
  erewrite bind_ok.
  2:{ eapply (release_worker_scheduled k _ _ j (Some (priority, timestamp)));
      simpl.
      - exact Hw.
      - exact Hsd.
      - apply lookup_insert_eq. }
  erewrite bind_ok by apply shut_down_swallowed.
  unfold ret, revoke. simpl. rewrite insert_insert_eq.
  split; [reflexivity|]. solve_only_events.
Qed.

(** Revoking the lease of [k] leaves every other worker alone. *)
Lemma revoke_other p k k' : k' <> k -> same_worker p (revoke p k) k'.
Proof.
  intros Hne. unfold same_worker, revoke. simpl.
  rewrite !lookup_insert_ne by congruence. repeat split.
Qed.

Lemma same_worker_expired now limit p p' k :
  same_worker p p' k -> expired now limit p' k = expired now limit p k.
Proof.
  intros (H1 & H2 & _). unfold expired. rewrite H1, H2. reflexivity.
Qed.

Lemma same_worker_lost_entry p p' k :
  same_worker p p' k -> lost_entry p' k = lost_entry p k.
Proof.
  intros (H1 & _ & _ & _ & H5 & _). unfold lost_entry. rewrite H1, H5.
  reflexivity.
Qed.

Lemma same_worker_lease_ok p p' k :
  same_worker p p' k -> lease_ok p' k = lease_ok p k.
Proof.
  intros (H1 & H2 & H3 & _ & H5 & _). unfold lease_ok.
  rewrite H1, H2, H3, H5. reflexivity.
Qed.

Lemma omap_ext_in {A B} (f g : A -> option B) (l : list A) :
  (forall x, In x l -> f x = g x) -> omap f l = omap g l.
Proof.
  induction l as [|a l IH]; intros H; [reflexivity|]. csimpl.
  rewrite (H a) by (left; reflexivity).
  rewrite IH by (intros x Hx; apply H; right; exact Hx). reflexivity.
Qed.

(** The loop of [check_timeout] over the workers [ws]: it returns, having
    revoked exactly the expired leases among them, collected their entries
    in the order of the visit and sent a shutdown request to each. *)
Lemma check_timeout_loop now ws :
  NoDup ws ->
  forall p lost i,
    (forall k, In k ws ->
               lease_ok p k = true /\ is_Some (WorkerPool.workers p !! k)) ->
    let victims := List.filter (expired now (worker_timeout (config i)) p) ws in
    exists i' new,
      for_each ws lost (WorkerPool.check_timeout_body now) p i
      = (Ok (lost ++ omap (lost_entry p) victims)%list,
         foldl revoke p victims, i')
      /\ only_events i i'
      /\ events i' = (new ++ events i)%list
      /\ forall k addr,
           In k victims -> WorkerPool.address p !! k = Some addr ->
           shut_down_of addr ∈ new.
Proof.
  induction 1 as [|k ws Hk Hnd IH]; intros p lost i Hall; cbv zeta.
  - exists i, []. simpl. rewrite app_nil_r.
    split; [reflexivity|]. split; [apply only_events_refl|].
    split; [reflexivity|]. intros k addr [].
  - destruct (Hall k (or_introl eq_refl)) as [Hok Hsome].
    pose proof (check_timeout_body_spec now lost k p i Hok Hsome) as Hbody.
    assert (Hrest : forall k', In k' ws -> k' <> k).
    { intros k' Hin ->. apply Hk. apply list_elem_of_In. exact Hin. }
    simpl List.filter.
    destruct (expired now (worker_timeout (config i)) p k) eqn:He.
    + destruct Hbody as (e & addr & i1 & Hentry & Haddr & Hrun & Hev).
      destruct (IH (revoke p k) (lost ++ [e])%list (emit (shut_down_of addr) i1))
        as (i' & new & Hloop & Hev' & Hnew & Hsent).
      { intros k' Hin. destruct (Hall k' (or_intror Hin)) as [Hok' Hs'].
        pose proof (revoke_other p k k' (Hrest k' Hin)) as Hsame.
        rewrite (same_worker_lease_ok _ _ _ Hsame).
        destruct Hsame as (-> & _). split; assumption. }
      cbv zeta in Hloop, Hsent.
      assert (Hcfg : config (emit (shut_down_of addr) i1) = config i).
      { destruct Hev as (_ & Hc & _). exact Hc. }
      rewrite Hcfg in Hloop, Hsent.
      assert (Hfilter :
        List.filter (expired now (worker_timeout (config i)) (revoke p k)) ws
        = List.filter (expired now (worker_timeout (config i)) p) ws).
      { apply filter_ext_in. intros k' Hin.
        apply same_worker_expired, revoke_other, Hrest, Hin. }
      rewrite Hfilter in Hloop, Hsent.
      destruct Hev as (E1 & E2 & E3 & E4 & E5 & [new1 E6]).
      exists i', (new ++ shut_down_of addr :: new1)%list.
      split.
      { simpl for_each. erewrite bind_ok by exact Hrun.
        rewrite Hloop. simpl. rewrite Hentry. simpl.
        rewrite <- app_assoc. simpl.
        rewrite (omap_ext_in (lost_entry (revoke p k)) (lost_entry p)).
        - reflexivity.
        - intros k' Hin. apply filter_In in Hin as [Hin _].
          apply same_worker_lost_entry, revoke_other, Hrest, Hin. }
      split.
      { eapply only_events_trans; [|exact Hev'].
        apply only_events_emit. unfold only_events.
        repeat (split; [assumption|]). exists new1. exact E6. }
      split.
      { rewrite Hnew. simpl. rewrite E6. rewrite <- app_assoc. reflexivity. }
      intros k' addr' [<-|Hin] Ha.
      * rewrite Haddr in Ha. inversion Ha; subst.
        apply elem_of_app. right. left.
      * apply elem_of_app. left. apply (Hsent k' addr' Hin).
        simpl. exact Ha.
    + destruct (IH p lost i) as (i' & new & Hloop & Hev' & Hnew & Hsent).
      { intros k' Hin. apply Hall. right. exact Hin. }
      exists i', new. split.
      { simpl for_each. erewrite bind_ok by exact Hbody. exact Hloop. }
      split; [exact Hev'|]. split; [exact Hnew|]. exact Hsent.
Qed.

Lemma revoke_all_semaphore vs : forall p,
  WorkerPool.semaphore (foldl revoke p vs) = WorkerPool.semaphore p.
Proof.
  induction vs as [|v vs IH]; intros p; simpl; [reflexivity|].
  rewrite IH. reflexivity.
Qed.

Lemma same_worker_trans p1 p2 p3 k :
  same_worker p1 p2 k -> same_worker p2 p3 k -> same_worker p1 p3 k.
Proof.
  intros (A1 & A2 & A3 & A4 & A5 & A6) (B1 & B2 & B3 & B4 & B5 & B6).
  unfold same_worker. repeat split; congruence.
Qed.

Lemma same_worker_refl p k : same_worker p p k.
Proof. unfold same_worker. repeat split. Qed.

Lemma revoke_all_other vs k : forall p,
  ~ In k vs -> same_worker p (foldl revoke p vs) k.
Proof.
  induction vs as [|v vs IH]; intros p Hk; simpl.
  - apply same_worker_refl.
  - eapply same_worker_trans.
    + apply (revoke_other p v k). intros ->. apply Hk. left. reflexivity.
    + apply IH. intros Hin. apply Hk. right. exact Hin.
Qed.

Lemma revoke_all_victim vs k : forall p,
  In k vs ->
  let p' := foldl revoke p vs in
  WorkerPool.workers p' !! k = Some WorkerPool.WORKER_DISABLED
  /\ WorkerPool.start_time p' !! k = Some None
  /\ WorkerPool.side_data p' !! k = Some None
  /\ WorkerPool.schedule_disabling p' !! k = Some false.
Proof.
  induction vs as [|v vs IH]; intros p Hk; [destruct Hk|]. simpl.
  destruct (in_dec Z.eq_dec k vs) as [Hin|Hout].
  - apply IH. exact Hin.
  - destruct Hk as [->|Hin]; [|contradiction].
    destruct (revoke_all_other vs k (revoke p k) Hout)
      as (-> & -> & _ & _ & -> & ->).
    unfold revoke. simpl. rewrite !lookup_insert_eq. repeat split.
Qed.

Lemma visited_iff p k :
  In k (visited p) <-> is_Some (WorkerPool.workers p !! k).
Proof.
  unfold visited. rewrite <- list_elem_of_In. apply elem_of_dict_keys.
Qed.

Lemma expired_visited now limit p k :
  expired now limit p k = true -> In k (visited p).
Proof.
  intros H. apply visited_iff. unfold expired in H.
  destruct (WorkerPool.workers p !! k); [eauto|discriminate].
Qed.

(** What [check_timeout] amounts to: the leases of the expired workers
    are revoked in the order of the visit, their entries are returned, and
    a shutdown request is sent to each of them. *)
Lemma check_timeout_result p i :
  leases_recorded p ->
  let late := expired (now i) (worker_timeout (config i)) p in
  exists i' new,
    WorkerPool.check_timeout p i
    = (Ok (omap (lost_entry p) (List.filter late (visited p))),
       foldl revoke p (List.filter late (visited p)), i')
    /\ events i' = (new ++ events i)%list
    /\ forall k addr,
         In k (List.filter late (visited p)) ->
         WorkerPool.address p !! k = Some addr ->
         shut_down_of addr ∈ new.
Proof.
  intros Hrec. cbv zeta.
  destruct (check_timeout_loop (now i) (visited p)
              (NoDup_fst_dict_items _) p [] (emit (EvAcquire PoolLock) i))
    as (i' & new & Hloop & Hev & Hnew & Hsent).
  { intros k Hin. apply visited_iff in Hin as [w Hw].
    split; [exact (Hrec k w Hw)|eauto]. }
  cbv zeta in Hloop, Hsent. simpl in Hloop, Hsent, Hnew.
  exists (emit (EvRelease PoolLock) i'),
    (EvRelease PoolLock :: new ++ [EvAcquire PoolLock])%list.
  split.
  { unfold WorkerPool.check_timeout, with_lock.
    erewrite bind_ok by reflexivity.
    erewrite bind_ok by reflexivity.
    simpl now. fold (visited p). rewrite Hloop. reflexivity. }
  split.
  { simpl. rewrite Hnew. rewrite <- app_assoc. reflexivity. }
  intros k addr Hin Ha. right. apply elem_of_app. left.
  apply (Hsent k addr Hin Ha).
Qed.

(** C5: on a pool whose leases are recorded completely, [check_timeout]
    returns the entries of the expired workers and of them only: the
    returned list is, up to the order in which the dictionary is walked, the
    list of the entries of the workers whose lease has lasted longer than
    [worker_timeout].  For every such worker, the entry returned is made of
    the priority and timestamp of the worker's side data and of its job; the
    worker ends DISABLED with its lease and side data cleared and no
    disabling pending; a shutdown request was sent to its address, whatever
    became of it.  The semaphore keeps its value and every other worker
    keeps all its records. *)
Theorem C5_check_timeout_revokes_expired_leases p i :
  leases_recorded p ->
  let call := WorkerPool.check_timeout p i in
  let p' := state_of call in
  let late := expired (now i) (worker_timeout (config i)) p in
  exists lost,
    outcome call = Ok lost
    /\ lost ≡ₚ omap (lost_entry p) (List.filter late (visited p))
    /\ WorkerPool.semaphore p' = WorkerPool.semaphore p
    /\ (forall k, late k = true ->
          exists j priority timestamp addr new,
            WorkerPool.workers p !! k = Some (WorkerPool.BUSY j)
            /\ WorkerPool.side_data p !! k = Some (Some (priority, timestamp))
            /\ WorkerPool.address p !! k = Some addr
            /\ In (priority, timestamp, j) lost
            /\ WorkerPool.workers p' !! k = Some WorkerPool.WORKER_DISABLED
            /\ WorkerPool.start_time p' !! k = Some None
            /\ WorkerPool.side_data p' !! k = Some None
            /\ WorkerPool.schedule_disabling p' !! k = Some false
            /\ events (world_of call) = (new ++ events i)%list
            /\ shut_down_of addr ∈ new)
    /\ (forall e, In e lost ->
          exists k, late k = true /\ lost_entry p k = Some e)
    /\ (forall k, late k = false -> same_worker p p' k).
Proof.
  intros Hrec. cbv zeta.
  destruct (check_timeout_result p i Hrec) as (i' & new & Hcall & Hnew & Hsent).
  rewrite Hcall. unfold_views.
  exists (omap (lost_entry p)
            (List.filter (expired (now i) (worker_timeout (config i)) p)
               (visited p))).
  split; [reflexivity|]. split; [reflexivity|].
  split; [apply revoke_all_semaphore|]. split; [|split].
  - intros k Hlate.
    assert (Hin : In k (List.filter
                          (expired (now i) (worker_timeout (config i)) p)
                          (visited p))).
    { apply filter_In. split; [|exact Hlate].
      eapply expired_visited, Hlate. }
    pose proof Hlate as Hfacts. unfold expired in Hfacts.
    destruct (WorkerPool.workers p !! k) as [w|] eqn:Hw; [|discriminate].
    pose proof (Hrec k w Hw) as Hok. simpl in Hok. unfold lease_ok in Hok.
    rewrite Hw in Hok.
    destruct (WorkerPool.start_time p !! k) as [[t0|]|]; try discriminate.
    destruct w as [| |j]; try discriminate.
    destruct (WorkerPool.side_data p !! k) as [[[priority timestamp]|]|] eqn:Hsd;
      try discriminate.
    destruct (WorkerPool.address p !! k) as [addr|] eqn:Ha; try discriminate.
    destruct (revoke_all_victim _ k p Hin) as (R1 & R2 & R3 & R4).
    exists j, priority, timestamp, addr, new.
    repeat (split; [first [reflexivity | assumption]|]).
    split.
    { apply list_elem_of_In, list_elem_of_omap. exists k.
      split; [apply list_elem_of_In; exact Hin|].
      unfold lost_entry. rewrite Hw, Hsd. reflexivity. }
    repeat (split; [assumption|]).
    apply (Hsent k addr Hin Ha).
  - intros e He. apply list_elem_of_In, list_elem_of_omap in He.
    destruct He as (k & Hk & Hentry). exists k.
    apply list_elem_of_In, filter_In in Hk as [_ Hk]. split; assumption.
  - intros k Hlate. apply revoke_all_other. intros Hin.
    apply filter_In in Hin as [_ Hin]. congruence.
Qed.

Lemma C5_check_timeout_witness :
  outcome (WorkerPool.check_timeout ScenarioTimeout.two_busy
             ScenarioTimeout.both_late)
  = Ok [(JOB_PRIORITY_HIGH, 10, (JOB_TYPE_COMPILATION, Some Scenario.s1));
        (JOB_PRIORITY_LOW, 20, (JOB_TYPE_EVALUATION, Some Scenario.s2))]
  /\ WorkerPool.workers
       (state_of (WorkerPool.check_timeout ScenarioTimeout.two_busy
                    ScenarioTimeout.both_late)) !! 0
     = Some WorkerPool.WORKER_DISABLED
  /\ WorkerPool.workers
       (state_of (WorkerPool.check_timeout ScenarioTimeout.two_busy
                    ScenarioTimeout.both_late)) !! 1
     = Some WorkerPool.WORKER_DISABLED
  /\ WorkerPool.semaphore
       (state_of (WorkerPool.check_timeout ScenarioTimeout.two_busy
                    ScenarioTimeout.both_late)) = 0%nat.
Proof.
  destruct (C5_check_timeout_revokes_expired_leases ScenarioTimeout.two_busy
              ScenarioTimeout.both_late)
    as (lost & H1 & _ & H2 & H3 & _).
  - unfold leases_recorded. apply (bool_decide_unpack _). vm_compute. exact I.
  - destruct (H3 0) as (j & pr & ts & addr & new & _ & _ & _ & _ & H5 & _).
    + vm_compute. reflexivity.
    + destruct (H3 1) as (j' & pr' & ts' & addr' & new' & _ & _ & _ & _ & H6 & _).
      * vm_compute. reflexivity.
      * split; [vm_compute; reflexivity|].
        split; [exact H5|]. split; [exact H6|]. rewrite H2. reflexivity.
Defined.

(** ** The loops of the model never run out of fuel *)

Lemma bind_inv {S A B} (m : M S A) (k : A -> M S B) s i r s' i' :
  bind m k s i = (Ok r, s', i') ->
  exists a s1 i1, m s i = (Ok a, s1, i1) /\ k a s1 i1 = (Ok r, s', i').
Proof.
  unfold bind. destruct (m s i) as [[[a|e] s1] i1]; intros H.
  - eauto.
  - discriminate.
Qed.

Lemma on_workers_inv {A} (m : M WorkerPool.t A) d i r d' i' :
  JobDispatcher.on_workers m d i = (r, d', i') ->
  m (JobDispatcher.workers d) i = (r, JobDispatcher.workers d', i')
  /\ JobDispatcher.queue d' = JobDispatcher.queue d
  /\ JobDispatcher.bomb_primed d' = JobDispatcher.bomb_primed d.
Proof.
  unfold JobDispatcher.on_workers, zoom.
  destruct (m (JobDispatcher.workers d) i) as [[r0 p'] i0].
  intros H. inversion H; subst. simpl. repeat split.
Qed.

Lemma on_queue_inv {A} (m : M JobQueue.t A) d i r d' i' :
  JobDispatcher.on_queue m d i = (r, d', i') ->
  m (JobDispatcher.queue d) i = (r, JobDispatcher.queue d', i')
  /\ JobDispatcher.workers d' = JobDispatcher.workers d
  /\ JobDispatcher.bomb_primed d' = JobDispatcher.bomb_primed d.
Proof.
  unfold JobDispatcher.on_queue, zoom.
  destruct (m (JobDispatcher.queue d) i) as [[r0 q'] i0].
  intros H. inversion H; subst. simpl. repeat split.
Qed.

Lemma getitem_inv {S V} (f : S -> gmap Z V) k s i r s' i' :
  getitem f k s i = (r, s', i') -> s' = s /\ i' = i.
Proof.
  unfold getitem. destruct (f s !! k); intros H; inversion H; auto.
Qed.

(** A release returns at most one permit. *)
Lemma release_worker_semaphore w p i :
  (WorkerPool.semaphore (state_of (WorkerPool.release_worker w p i))
   <= S (WorkerPool.semaphore p))%nat.
Proof.
  start_call H.
  unfold WorkerPool.release_worker, WorkerPool.semaphore_release in H.
  unfold_monad. split_matches; unfold_views; simpl; lia.
Qed.

(** A successful [disable_worker] has taken one permit. *)
Lemma disable_worker_semaphore n p i p' i' :
  WorkerPool.disable_worker n p i = (Ok tt, p', i') ->
  S (WorkerPool.semaphore p') = WorkerPool.semaphore p.
Proof.
  intros H.
  unfold WorkerPool.disable_worker, WorkerPool.semaphore_acquire,
    WorkerPool.semaphore_release in H.
  unfold_monad. split_matches; simpl; congruence.
Qed.

(** The handler of a failed dispatch RPC does not give a permit back. *)
Lemma failed_dispatch_handler worker d i r d' i' :
  (Utils_log "Couldn't contact worker %d (%s:%d), disabling it and requeuing submission %s"
             SEVERITY_IMPORTANT;;
   n <~ JobDispatcher.on_workers (getitem WorkerPool.error_count worker);
   JobDispatcher.on_workers
     (modify (WorkerPool.set_error_count <[worker := n + 1]>));;
   JobDispatcher.on_workers (WorkerPool.release_worker worker);;
   JobDispatcher.on_workers (WorkerPool.disable_worker worker);;
   ret JobDispatcher.ACTION_REQUEUE) d i = (Ok r, d', i') ->
  (WorkerPool.semaphore (JobDispatcher.workers d')
   <= WorkerPool.semaphore (JobDispatcher.workers d))%nat.
Proof.
  intros H.
  apply bind_inv in H as ([] & d0 & i0 & H0 & H). inversion H0; subst.
  apply bind_inv in H as (n & d1 & i1 & H1 & H).
  apply on_workers_inv in H1 as (H1 & _). apply getitem_inv in H1 as [E1 _].
  apply bind_inv in H as ([] & d2 & i2 & H2 & H).
  apply on_workers_inv in H2 as (H2 & _). inversion H2 as [[E2 E2']].
  apply bind_inv in H as (sd & d3 & i3 & H3 & H).
  apply on_workers_inv in H3 as (H3 & _).
  pose proof (release_worker_semaphore worker (JobDispatcher.workers d2) i2)
    as Hrel.
  rewrite H3 in Hrel. unfold_views.
  apply bind_inv in H as ([] & d4 & i4 & H4 & H).
  apply on_workers_inv in H4 as (H4 & _).
  apply disable_worker_semaphore in H4.
  inversion H; subst.
  rewrite <- E2 in Hrel. simpl in Hrel. rewrite E1 in Hrel. lia.
Qed.

(** A dispatch that lets the loop of [process_queue] go on has used up one
    permit of the pool for good. *)
Lemma check_action_takes_permit priority timestamp j d i r d' i' :
  JobDispatcher.check_action priority timestamp j d i = (Ok r, d', i') ->
  r <> JobDispatcher.ACTION_FAIL ->
  (S (WorkerPool.semaphore (JobDispatcher.workers d'))
   <= WorkerPool.semaphore (JobDispatcher.workers d))%nat.
Proof.
  intros H Hr. unfold JobDispatcher.check_action in H. cbv zeta in H.
  destruct (job_type_eqb (fst j) JOB_TYPE_BOMB).
  { apply bind_inv in H as (primed & d1 & i1 & _ & H).
    apply bind_inv in H as (? & d2 & i2 & _ & H).
    inversion H; subst. congruence. }
  apply bind_inv in H as (worker & d1 & i1 & Hacq & H).
  apply on_workers_inv in Hacq as (Hacq & _).
  destruct worker as [w|]; [|inversion H; subst; congruence].
  apply acquire_worker_some in Hacq as (m & w0 & Hs & _ & Hp1 & _).
  assert (Hd1 : WorkerPool.semaphore (JobDispatcher.workers d1) = m)
    by (rewrite Hp1; reflexivity).
  clear Hp1.
  apply bind_inv in H as (st & d2 & i2 & H2 & H).
  apply on_workers_inv in H2 as (H2 & _). apply getitem_inv in H2 as [E2 _].
  apply bind_inv in H as (qt & d3 & i3 & H3 & H).
  assert (d3 = d2) as ->.
  { unfold JobDispatcher.minus_timestamp in H3.
    destruct st; inversion H3; reflexivity. }
  apply bind_inv in H as (addr & d4 & i4 & H4 & H).
  apply on_workers_inv in H4 as (H4 & _). apply getitem_inv in H4 as [E4 _].
  apply bind_inv in H as (id & d5 & i5 & H5 & H).
  assert (d5 = d4) as ->.
  { unfold JobDispatcher.get_couch_id in H5.
    destruct (snd j); inversion H5; reflexivity. }
  apply bind_inv in H as ([] & d6 & i6 & H6 & H). inversion H6; subst d6.
  apply bind_inv in H as (len & d7 & i7 & H7 & H).
  apply on_queue_inv in H7 as (_ & E7 & _).
  apply bind_inv in H as ([] & d8 & i8 & H8 & H). inversion H8; subst d8.
  assert (Hd7 : WorkerPool.semaphore (JobDispatcher.workers d7) = m)
    by congruence.
  unfold try_except in H.
  match type of H with
  | match ?body d7 ?i0 with _ => _ end = _ =>
      destruct (body d7 i0) as [[[a|e] d9] i9] eqn:Ebody
  end.
  - inversion H; subst.
    apply bind_inv in Ebody as ([] & d10 & i10 & E10 & Eret).
    assert (d10 = d7) as ->.
    { unfold rpc, ret in E10.
      repeat match type of E10 with
             | context [if ?c then _ else _] => destruct c
             end; inversion E10; reflexivity. }
    inversion Eret; subst. lia.
  - assert (d9 = d7) as ->.
    { unfold bind, rpc, ret in Ebody.
      repeat match type of Ebody with
             | context [if ?c then _ else _] => destruct c
             end; inversion Ebody; reflexivity. }
    apply failed_dispatch_handler in H. lia.
Qed.

(** *** No method of the pool or of the queue raises [OutOfFuel] *)

Lemma nf_ret {S A} (a : A) : never_out_of_fuel (ret a : M S A).
Proof. intros s i. discriminate. Qed.

Lemma nf_raise {S A} e : e <> OutOfFuel -> never_out_of_fuel (raise e : M S A).
Proof. intros He s i H. inversion H. congruence. Qed.

Lemma nf_bind {S A B} (m : M S A) (k : A -> M S B) :
  never_out_of_fuel m -> (forall a, never_out_of_fuel (k a)) ->
  never_out_of_fuel (bind m k).
Proof.
  intros Hm Hk s i. unfold bind. specialize (Hm s i).
  destruct (m s i) as [[[a|e] s'] i']; [apply Hk|].
  unfold outcome in *. simpl in *. congruence.
Qed.

Lemma nf_try_except {S A} (m : M S A) (h : exn -> M S A) :
  never_out_of_fuel m ->
  (forall e, e <> OutOfFuel -> never_out_of_fuel (h e)) ->
  never_out_of_fuel (try_except m h).
Proof.
  intros Hm Hh s i. unfold try_except. specialize (Hm s i).
  destruct (m s i) as [[[a|e] s'] i']; [discriminate|].
  apply Hh. unfold outcome in Hm. simpl in Hm. congruence.
Qed.

Lemma nf_zoom {S T A} (get : T -> S) (set : S -> T -> T) (m : M S A) :
  never_out_of_fuel m -> never_out_of_fuel (zoom get set m).
Proof.
  intros Hm t i. unfold zoom. specialize (Hm (get t) i).
  destruct (m (get t) i) as [[r s'] i']. exact Hm.
Qed.

Lemma nf_with_lock {S A} l (m : M S A) :
  never_out_of_fuel m -> never_out_of_fuel (with_lock l m).
Proof.
  intros Hm s i. unfold with_lock. specialize (Hm s (emit (EvAcquire l) i)).
  destruct (m s _) as [[r s'] i']. exact Hm.
Qed.

Lemma nf_gets {S A} (f : S -> A) : never_out_of_fuel (gets f).
Proof. intros s i. discriminate. Qed.

Lemma nf_modify {S} (f : S -> S) : never_out_of_fuel (modify f).
Proof. intros s i. discriminate. Qed.

Lemma nf_world {S A} (f : io -> A) : never_out_of_fuel (world f : M S A).
Proof. intros s i. discriminate. Qed.

Lemma nf_log {S} msg sev : never_out_of_fuel (Utils_log msg sev : M S unit).
Proof. intros s i. discriminate. Qed.

Lemma nf_emit_event {S} e : never_out_of_fuel (emit_event e : M S unit).
Proof. intros s i. discriminate. Qed.

Lemma nf_getitem {S V} (f : S -> gmap Z V) k : never_out_of_fuel (getitem f k).
Proof. intros s i. unfold getitem. destruct (f s !! k); discriminate. Qed.

Lemma nf_rpc {S} addr c : never_out_of_fuel (rpc addr c : M S unit).
Proof. intros s i. unfold rpc. destruct (rpc_raises i addr c); discriminate. Qed.

Ltac nf_step :=
  match goal with
  | H : OutOfFuel <> OutOfFuel |- _ => exfalso; apply H; reflexivity
  | |- never_out_of_fuel (bind _ _) => apply nf_bind; [|intros]
  | |- never_out_of_fuel (ret _) => apply nf_ret
  | |- never_out_of_fuel (raise _) => apply nf_raise; discriminate
  | |- never_out_of_fuel (with_lock _ _) => apply nf_with_lock
  | |- never_out_of_fuel (zoom _ _ _) => apply nf_zoom
  | |- never_out_of_fuel (try_except _ _) => apply nf_try_except; [|intros]
  | |- never_out_of_fuel (gets _) => apply nf_gets
  | |- never_out_of_fuel (modify _) => apply nf_modify
  | |- never_out_of_fuel (world _) => apply nf_world
  | |- never_out_of_fuel time_time => apply nf_world
  | |- never_out_of_fuel (Utils_log _ _) => apply nf_log
  | |- never_out_of_fuel (emit_event _) => apply nf_emit_event
  | |- never_out_of_fuel (getitem _ _) => apply nf_getitem
  | |- never_out_of_fuel (rpc _ _) => apply nf_rpc
  | |- never_out_of_fuel (py_assert ?c) => unfold py_assert
  | |- never_out_of_fuel (match ?x with _ => _ end) => destruct x
  end.

Ltac nf := repeat nf_step.

Lemma nf_acquire_worker j b sd :
  never_out_of_fuel (WorkerPool.acquire_worker j b sd).
Proof.
  unfold WorkerPool.acquire_worker, WorkerPool.semaphore_acquire,
    WorkerPool.find_worker. nf.
Qed.

Lemma nf_release_worker w : never_out_of_fuel (WorkerPool.release_worker w).
Proof.
  unfold WorkerPool.release_worker, WorkerPool.semaphore_release. nf.
Qed.

Lemma nf_disable_worker w : never_out_of_fuel (WorkerPool.disable_worker w).
Proof.
  unfold WorkerPool.disable_worker, WorkerPool.semaphore_acquire,
    WorkerPool.semaphore_release. nf.
Qed.

Lemma nf_check_action priority timestamp j :
  never_out_of_fuel (JobDispatcher.check_action priority timestamp j).
Proof.
  unfold JobDispatcher.check_action, JobDispatcher.on_workers,
    JobDispatcher.on_queue, JobDispatcher.touched_set,
    JobDispatcher.minus_timestamp, JobDispatcher.get_couch_id,
    JobQueue.length.
  cbv zeta. nf; first [ apply nf_acquire_worker | apply nf_release_worker
                      | apply nf_disable_worker ].
Qed.

Lemma nf_pop : never_out_of_fuel JobQueue.pop.
Proof. unfold JobQueue.pop, JobQueue.semaphore_acquire. nf. Qed.

(** Looking at the head of the queue changes nothing and raises nothing:
    an empty queue is reported as [None]. *)
Lemma look_at_top d i :
  exists o i',
    try_except (e <~ JobDispatcher.on_queue JobQueue.top; ret (Some e))
      (fun e => match e with
                | LookupError => ret None
                | _ => raise e
                end) d i
    = (Ok o, d, i').
Proof.
  unfold try_except, JobDispatcher.on_queue, JobQueue.top.
  unfold_monad. destruct d as [[q s] p b t]. simpl.
  destruct q as [|e q]; simpl.
  - destruct (decide (0 < 0)%nat); [lia|]. simpl. eauto.
  - destruct (decide (0 < S (length q))%nat); [|lia]. simpl. eauto.
Qed.

(** The loop of [process_queue] ends before its fuel does, whatever the
    state it starts from. *)
Lemma process_queue_loop_fuel fuel : forall d i,
  (WorkerPool.semaphore (JobDispatcher.workers d) < fuel)%nat ->
  outcome (JobDispatcher.process_queue_loop fuel d i) <> Raise OutOfFuel.
Proof.
  induction fuel as [|fuel IH]; intros d i Hf; [lia|].
  cbn [JobDispatcher.process_queue_loop].
  destruct (look_at_top d i) as (o & i0 & Etop).
  erewrite bind_ok by exact Etop.
  destruct o as [[[priority timestamp] j]|]; [|discriminate].
  destruct (JobDispatcher.check_action priority timestamp j d i0)
    as [[[res|e] d1] i1] eqn:Eact.
  2:{ erewrite bind_raise by exact Eact. unfold outcome. simpl.
      pose proof (nf_check_action priority timestamp j d i0) as Hnf.
      rewrite Eact in Hnf. intros He. apply Hnf.
      inversion He; subst. reflexivity. }
  erewrite bind_ok by exact Eact.
  pose proof (check_action_takes_permit _ _ _ _ _ _ _ _ Eact) as Hpermit.
  destruct res.
  - destruct (JobDispatcher.on_queue JobQueue.pop d1 i1)
      as [[[e1|e1] d2] i2] eqn:Epop.
    + erewrite bind_ok by exact Epop. apply IH.
      apply on_queue_inv in Epop as (_ & -> & _).
      assert (JobDispatcher.ACTION_OK <> JobDispatcher.ACTION_FAIL)
        by discriminate.
      specialize (Hpermit ltac:(assumption)). lia.
    + erewrite bind_raise by exact Epop. unfold outcome. simpl.
      apply on_queue_inv in Epop as (Epop & _).
      pose proof (nf_pop (JobDispatcher.queue d1) i1) as Hnf.
      rewrite Epop in Hnf. intros He. apply Hnf.
      inversion He; subst. reflexivity.
  - discriminate.
  - apply IH.
    assert (JobDispatcher.ACTION_REQUEUE <> JobDispatcher.ACTION_FAIL)
      by discriminate.
    specialize (Hpermit ltac:(assumption)). lia.
Qed.

(** [process_queue] gives its loop enough fuel: it never ends with
    [OutOfFuel]. *)
Theorem process_queue_fuel_enough :
  never_out_of_fuel JobDispatcher.process_queue.
Proof.
  intros d i. unfold JobDispatcher.process_queue, with_lock.
  erewrite bind_ok by reflexivity.
  pose proof (process_queue_loop_fuel
                (S (WorkerPool.semaphore (JobDispatcher.workers d))) d
                (emit (EvAcquire DispatcherLock) i)) as H.
  destruct (JobDispatcher.process_queue_loop _ d _) as [[r d'] i'].
  apply H. lia.
Qed.

Lemma save_loop_fuel bump fuel : forall sub (es : EvaluationServer.t) i,
  (length (conflicts i) < fuel)%nat ->
  outcome (EvaluationServer.save_loop fuel bump sub es i) <> Raise OutOfFuel.
Proof.
  induction fuel as [|fuel IH]; intros sub es i Hf; [lia|].
  cbn [EvaluationServer.save_loop]. cbv zeta.
  unfold bind at 1, try_except, CouchObject.to_couch, CouchObject.refresh,
    CouchObject.from_couch.
  unfold bind at 1, ret.
  destruct (conflicts i) as [|c cs] eqn:Ec; [discriminate|].
  unfold bind at 1. simpl.
  destruct (_ !! couch_id (bump sub)) as [sub'|]; [|discriminate].
  apply IH. simpl in *. lia.
Qed.

(** The save-and-retry loop is given enough fuel as well. *)
Theorem save_with_retry_fuel_enough bump sub :
  never_out_of_fuel (EvaluationServer.save_with_retry bump sub).
Proof.
  intros es i. unfold EvaluationServer.save_with_retry.
  erewrite bind_ok by reflexivity.
  apply save_loop_fuel. lia.
Qed.

(** ** WorkerPool: the records stay complete *)

Ltac case_key k n :=
  destruct (decide (k = n)) as [->|?];
  [ rewrite ?lookup_insert_eq, ?lookup_delete_eq in *
  | rewrite ?lookup_insert_ne, ?lookup_delete_ne in * by congruence ].

Ltac crush_matches :=
  repeat match goal with
         | H : context [match ?x with _ => _ end] |- _ =>
             destruct x eqn:?; simpl in H; try discriminate H
         | |- context [match ?x with _ => _ end] =>
             destruct x eqn:?; simpl; try discriminate
         end;
  try reflexivity; try congruence;
  try (simplify_eq; simpl in *; solve [discriminate | congruence]).

(** After a call on worker [n]: the records of [n] are settled with what
    was known of [n] before, those of the others are as they were. *)
Ltac settle_worker Hok n :=
  let k := fresh "k" in
  let w' := fresh "w'" in
  let Hk := fresh "Hk" in
  intros k w' Hk; simpl in Hk;
  first [ exact (Hok k w' Hk) | idtac ];
  unfold worker_ok, lease_ok; simpl;
  case_key k n;
  [ try discriminate Hk;
    repeat match goal with
           | Hn : WorkerPool.workers _ !! n = Some ?w |- _ =>
               let Hn' := fresh "Hn'" in
               pose proof (Hok n w Hn) as Hn'; simpl in Hn';
               unfold worker_ok, lease_ok in Hn'; revert Hn
           end;
    intros; crush_matches
  | exact (Hok k w' Hk) ].

Lemma pool_ok_init : pool_ok WorkerPool.__init__.
Proof. intros k w Hk. simpl in Hk. rewrite lookup_empty in Hk. discriminate. Qed.

Lemma pool_ok_acquire_worker j b priority timestamp p i :
  pool_ok p ->
  pool_ok (state_of (WorkerPool.acquire_worker j b
                       (Some (priority, timestamp)) p i)).
Proof.
  intros Hok. start_call H.
  unfold WorkerPool.acquire_worker, WorkerPool.find_worker,
    WorkerPool.semaphore_acquire in H.
  unfold_monad. split_matches; unfold_views; try assumption.
  apply find_in_pool_sound in Heqo as [Hz Hw].
  settle_worker Hok z.
Qed.

Lemma pool_ok_release_worker n p i :
  pool_ok p -> pool_ok (state_of (WorkerPool.release_worker n p i)).
Proof.
  intros Hok. start_call H.
  unfold WorkerPool.release_worker, WorkerPool.semaphore_release in H.
  unfold_monad. split_matches; unfold_views; try assumption.
  all: settle_worker Hok n.
Qed.

Lemma pool_ok_disable_worker n p i :
  pool_ok p -> pool_ok (state_of (WorkerPool.disable_worker n p i)).
Proof.
  intros Hok. start_call H.
  unfold WorkerPool.disable_worker, WorkerPool.semaphore_release,
    WorkerPool.semaphore_acquire in H.
  unfold_monad. split_matches; unfold_views; try assumption.
  all: settle_worker Hok n.
Qed.

Lemma pool_ok_enable_worker n p i :
  pool_ok p -> pool_ok (state_of (WorkerPool.enable_worker n p i)).
Proof.
  intros Hok. start_call H.
  unfold WorkerPool.enable_worker, WorkerPool.semaphore_release in H.
  unfold_monad. split_matches; unfold_views; try assumption.
  all: settle_worker Hok n.
Qed.

Lemma pool_ok_add_worker n h pt p i :
  pool_ok p -> pool_ok (state_of (WorkerPool.add_worker n h pt p i)).
Proof.
  intros Hok. start_call H.
  unfold WorkerPool.add_worker, WorkerPool.semaphore_release in H.
  unfold_monad. split_matches; unfold_views; try assumption.
  all: settle_worker Hok n.
Qed.

Lemma pool_ok_del_worker n p i :
  pool_ok p -> pool_ok (state_of (WorkerPool.del_worker n p i)).
Proof.
  intros Hok. start_call H.
  unfold WorkerPool.del_worker in H.
  unfold_monad. split_matches; unfold_views; try assumption.
  all: settle_worker Hok n.
Qed.

Lemma pool_ok_revoke p k :
  pool_ok p -> is_Some (WorkerPool.workers p !! k) -> pool_ok (revoke p k).
Proof.
  intros Hok [w Hw]. unfold revoke. settle_worker Hok k.
Qed.

Lemma pool_ok_revoke_all vs : forall p,
  pool_ok p ->
  (forall k, In k vs -> is_Some (WorkerPool.workers p !! k)) ->
  pool_ok (foldl revoke p vs).
Proof.
  induction vs as [|v vs IH]; intros p Hok Hin; simpl; [exact Hok|].
  apply IH.
  - apply pool_ok_revoke; [exact Hok|]. apply Hin. left. reflexivity.
  - intros k Hk. unfold revoke. simpl.
    destruct (decide (k = v)) as [->|Hne].
    + rewrite lookup_insert_eq. eauto.
    + rewrite lookup_insert_ne by congruence. apply Hin. right. exact Hk.
Qed.

(** A pool with complete records has its leases recorded, and the worker
    it hands out has an address, an error count and no disabling pending:
    the assumptions made on the pool by C5 and C6 hold of every pool that
    the calls of the module build. *)
Lemma pool_ok_leases p : pool_ok p -> leases_recorded p.
Proof.
  intros Hok k w Hk. specialize (Hok k w Hk). simpl in *.
  unfold worker_ok in Hok.
  destruct (lease_ok p k); [reflexivity|discriminate].
Qed.

Lemma pool_ok_acquired j b sd p i w :
  pool_ok p ->
  outcome (WorkerPool.acquire_worker j b sd p i) = Ok (Some w) ->
  exists addr n,
    WorkerPool.address p !! w = Some addr
    /\ WorkerPool.error_count p !! w = Some n
    /\ WorkerPool.schedule_disabling p !! w = Some false.
Proof.
  intros Hok H.
  destruct (WorkerPool.acquire_worker j b sd p i) as [[r p1] i1] eqn:E.
  unfold outcome in H. simpl in H. subst r.
  apply acquire_worker_some in E as (m & w0 & _ & Hf & _).
  apply find_in_pool_sound in Hf as [Hw _].
  specialize (Hok w w0 Hw). simpl in Hok. unfold worker_ok in Hok.
  destruct (WorkerPool.schedule_disabling p !! w) as [[|]|];
    try (rewrite andb_false_r in Hok; discriminate).
  destruct (WorkerPool.address p !! w) as [addr|];
    [|rewrite andb_false_r in Hok; discriminate].
  destruct (WorkerPool.error_count p !! w) as [n|];
    [|rewrite andb_false_r in Hok; discriminate].
  eauto.
Qed.

Lemma pool_ok_check_timeout p i :
  pool_ok p -> pool_ok (state_of (WorkerPool.check_timeout p i)).
Proof.
  intros Hok.
  destruct (check_timeout_result p i (pool_ok_leases p Hok))
    as (i' & new & -> & _). unfold_views.
  apply pool_ok_revoke_all; [exact Hok|].
  intros k Hin. apply filter_In in Hin as [Hin _].
  apply visited_iff. exact Hin.
Qed.

(** ** The bomb at the head of the queue *)

Section heap_root.
Context {A : Type} (lt : A -> A -> bool).

Lemma siftdown_loop_length fuel : forall (heap : list A) newitem pos,
  length (fst (heapq.siftdown_loop lt fuel heap newitem 0 pos)) = length heap.
Proof.
  induction fuel as [|fuel IH]; intros heap newitem pos;
    cbn [heapq.siftdown_loop]; [reflexivity|].
  destruct (decide (0 < pos)%nat); [|reflexivity].
  destruct (heap !! ((pos - 1) / 2)%nat) as [parent|]; [|reflexivity].
  destruct (lt newitem parent); [|reflexivity].
  rewrite IH. apply length_insert.
Qed.

(** The loop of [_siftdown] never writes at the root, and ends at the root
    only if the new item is smaller than the root. *)
Lemma siftdown_loop_root fuel : forall (heap : list A) newitem pos h' p,
  heapq.siftdown_loop lt fuel heap newitem 0 pos = (h', p) ->
  h' !! 0%nat = heap !! 0%nat
  /\ (p = 0%nat ->
      pos = 0%nat
      \/ exists r, heap !! 0%nat = Some r /\ lt newitem r = true).
Proof.
  induction fuel as [|fuel IH]; intros heap newitem pos h' p H;
    cbn [heapq.siftdown_loop] in H.
  { inversion H; subst. split; [reflexivity|]. intros ->. left. reflexivity. }
  destruct (decide (0 < pos)%nat) as [Hpos|Hpos].
  2:{ inversion H; subst. split; [reflexivity|]. intros ->. left.
      reflexivity. }
  destruct (heap !! ((pos - 1) / 2)%nat) as [parent|] eqn:Hpar.
  2:{ inversion H; subst. split; [reflexivity|]. intros ->. lia. }
  destruct (lt newitem parent) eqn:Hlt.
  2:{ inversion H; subst. split; [reflexivity|]. intros ->. lia. }
  apply IH in H as [Hroot Hend].
  rewrite list_lookup_insert_ne in Hroot by lia.
  split; [exact Hroot|]. intros Hp. right.
  destruct (Hend Hp) as [Hz|(r & Hr & Hltr)].
  - rewrite Hz in Hpar. eauto.
  - rewrite list_lookup_insert_ne in Hr by lia. eauto.
Qed.

(** After [heappush] the root is the old root, unless the item pushed is
    smaller than it. *)
Lemma heappush_root (heap : list A) x r :
  heap !! 0%nat = Some r ->
  heapq.heappush lt heap x !! 0%nat = Some r
  \/ (heapq.heappush lt heap x !! 0%nat = Some x /\ lt x r = true).
Proof.
  intros Hr. unfold heapq.heappush, heapq._siftdown.
  assert (Hlen : (0 < length heap)%nat).
  { apply lookup_lt_Some in Hr. exact Hr. }
  replace ((heap ++ [x])%list !! length heap) with (Some x)
    by (symmetry; apply list_lookup_middle; reflexivity).
  destruct (heapq.siftdown_loop lt (length heap) (heap ++ [x])%list x 0
              (length heap)) as [h' p] eqn:E.
  pose proof (siftdown_loop_length (length heap) (heap ++ [x])%list x
                (length heap)) as Hl.
  rewrite E in Hl. simpl in Hl. rewrite length_app in Hl. simpl in Hl.
  apply siftdown_loop_root in E as [Hroot Hend].
  rewrite lookup_app_l in Hroot by exact Hlen.
  destruct (decide (p = 0%nat)) as [->|Hp].
  - right. split; [apply list_lookup_insert_eq; lia|].
    destruct (Hend eq_refl) as [Hz|(r0 & Hr0 & Hlt)]; [lia|].
    rewrite lookup_app_l in Hr0 by exact Hlen. congruence.
  - left. rewrite list_lookup_insert_ne by congruence. congruence.
Qed.
End heap_root.

(** A job of priority HIGH or lower is not smaller than a bomb of priority
    EXTRA_HIGH. *)
Lemma entry_ltb_bomb priority timestamp j p0 t0 s0 :
  p0 <= 0 -> 1 <= priority ->
  entry_ltb (priority, timestamp, j) (p0, t0, (JOB_TYPE_BOMB, s0)) = false.
Proof.
  intros H0 H1. unfold entry_ltb.
  destruct (priority <? p0) eqn:E1; [apply Z.ltb_lt in E1; lia|].
  destruct (priority =? p0) eqn:E2; [apply Z.eqb_eq in E2; lia|].
  reflexivity.
Qed.

Lemma entry_ltb_priority a b :
  entry_ltb a b = true -> fst (fst a) <= fst (fst b).
Proof.
  destruct a as [[pa ta] ja], b as [[pb tb] jb]. simpl.
  destruct (pa <? pb) eqn:E1; [apply Z.ltb_lt in E1; lia|].
  destruct (pa =? pb) eqn:E2; [apply Z.eqb_eq in E2; lia|discriminate].
Qed.

(** Pushing a job other than a bomb at priority HIGH or lower, or pushing
    another bomb, leaves a bomb at the head of the queue. *)
Lemma heappush_blocked q priority timestamp j :
  blocked_head q ->
  fst j = JOB_TYPE_BOMB \/ 1 <= priority ->
  blocked_head (heapq.heappush entry_ltb q (priority, timestamp, j)).
Proof.
  intros (p0 & t0 & s0 & Hhead & Hp0) Hj.
  destruct (heappush_root entry_ltb q (priority, timestamp, j) _ Hhead)
    as [Hsame|[Hnew Hlt]].
  - exists p0, t0, s0. split; assumption.
  - destruct Hj as [Hb|Hp].
    + destruct j as [k s]. simpl in Hb. subst k.
      exists priority, timestamp, s. split; [exact Hnew|].
      apply entry_ltb_priority in Hlt. simpl in Hlt. lia.
    + rewrite entry_ltb_bomb in Hlt by assumption. discriminate.
Qed.

Lemma queue_push_blocked j priority timestamp d i :
  blocked_head (JobQueue.queue (JobDispatcher.queue d)) ->
  fst j = JOB_TYPE_BOMB \/ 1 <= priority ->
  blocked_head
    (JobQueue.queue
       (JobDispatcher.queue
          (state_of (JobDispatcher.queue_push j priority timestamp d i)))).
Proof.
  intros Hb Hj.
  unfold JobDispatcher.queue_push, JobDispatcher.on_queue, JobQueue.push,
    JobQueue.job_timestamp, JobQueue.semaphore_release,
    JobDispatcher.touched_set.
  unfold_monad. destruct timestamp as [ts|]; simpl.
  - apply heappush_blocked; assumption.
  - destruct (snd j); simpl; apply heappush_blocked; assumption.
Qed.

(** With a bomb at the head of the queue, [process_queue] primes the bomb
    and returns without having touched the pool or the queue: no worker is
    acquired. *)
Lemma process_queue_blocked d i :
  blocked_head (JobQueue.queue (JobDispatcher.queue d)) ->
  let r := JobDispatcher.process_queue d i in
  outcome r = Ok tt
  /\ JobDispatcher.workers (state_of r) = JobDispatcher.workers d
  /\ JobDispatcher.queue (state_of r) = JobDispatcher.queue d
  /\ JobDispatcher.bomb_primed (state_of r) = true.
Proof.
  intros (p0 & t0 & s0 & Hhead & _). cbv zeta.
  unfold JobDispatcher.process_queue, with_lock.
  erewrite bind_ok by reflexivity.
  cbn [JobDispatcher.process_queue_loop].
  unfold try_except, JobDispatcher.on_queue.
  erewrite bind_ok
    by (erewrite bind_ok by (apply zoom_eq; apply top_head; exact Hhead);
        reflexivity).
  rewrite set_queue_same.
  unfold JobDispatcher.check_action, JobDispatcher.touched_set.
  cbv zeta. cbn [fst snd job_type_eqb].
  unfold_monad. destruct d as [q p b t]. simpl.
  destruct b; simpl; repeat split.
Qed.

(** ** The end-to-end scenarios of the specification *)

(** Worker crash: two workers, the compilation of "s1" queued, the worker
    tried first cannot be contacted.  One pass of [process_queue] asks that
    worker, counts the error and disables it, then sends the same job to
    the other worker, which becomes BUSY; the queue is empty afterwards. *)
Example worker_crash_scenario :
  let r := JobDispatcher.process_queue ScenarioCrash.dispatcher
             (snd ScenarioCrash.queued) in
  let pool := JobDispatcher.workers (state_of r) in
  outcome r = Ok tt
  /\ rpcs_of (events (world_of r))
     = [(("worker0", 9000), rpc_compile "s1");
        (("worker1", 9001), rpc_compile "s1")]
  /\ WorkerPool.workers pool !! 0 = Some WorkerPool.WORKER_DISABLED
  /\ WorkerPool.error_count pool !! 0 = Some 1
  /\ WorkerPool.workers pool !! 1
     = Some (WorkerPool.BUSY (JOB_TYPE_COMPILATION, Some Scenario.s1))
  /\ WorkerPool.side_data pool !! 1 = Some (Some (JOB_PRIORITY_HIGH, 10))
  /\ JobQueue.queue (JobDispatcher.queue (state_of r)) = [].
Proof. vm_compute. repeat split. Qed.

(** Lease timeout: the supervisor finds worker 0 silent for longer than the
    timeout, disables it, asks it to shut down and queues "s1" again with
    the priority and timestamp it had; the dispatcher is woken up. *)
Example lease_timeout_scenario :
  let d := JobDispatcher.mk JobQueue.__init__ Scenario.busy_pool false false in
  let r := JobDispatcher.check_timeout d ScenarioTimeout.late in
  outcome r = Ok tt
  /\ JobQueue.queue (JobDispatcher.queue (state_of r))
     = [(JOB_PRIORITY_HIGH, 10, (JOB_TYPE_COMPILATION, Some Scenario.s1))]
  /\ WorkerPool.workers (JobDispatcher.workers (state_of r)) !! 0
     = Some WorkerPool.WORKER_DISABLED
  /\ rpcs_of (events (world_of r))
     = [(("worker0", 9000), rpc_shut_down "No response in %.2f seconds")]
  /\ JobDispatcher.touched (state_of r) = true.
Proof. vm_compute. repeat split. Qed.

(** Happy path: one worker, [add_job("s2")] for a submission whose
    compilation is accepted, then the two completions: one [compile], one
    [evaluate] at priority LOW, and the scorer is told last. *)
Example happy_path_scenario :
  let x1 := Scenario.after Scenario.dispatch
              (Scenario.after (EvaluationServer.add_job "s2") Scenario.start) in
  let x2 := Scenario.after
              (EvaluationServer.compilation_finished true "s2") x1 in
  let x3 := Scenario.after Scenario.dispatch x2 in
  let x4 := Scenario.after
              (EvaluationServer.evaluation_finished true "s2") x3 in
  (fun e : entry => fst (fst e)) <$> Scenario.the_queue x2
  = [JOB_PRIORITY_LOW]
  /\ rpcs_of (events (snd x4))
     = [(("worker0", 9000), rpc_compile "s2");
        (("worker0", 9000), rpc_evaluate "s2")]
  /\ take 2 (events (snd x4))
     = [EvCall contest_update_ranking_view;
        EvCall (scorer_add_submission "s2")].
Proof. vm_compute. repeat split. Qed.

(** ** heapq: the heap order *)

Ltac parent_facts i :=
  pose proof (Nat.div_mod_eq (i - 1) 2);
  pose proof (Nat.mod_upper_bound (i - 1) 2 ltac:(lia)).

Lemma list_lookup_insert_case {A} (l : list A) i j x :
  (i < length l)%nat ->
  <[i := x]> l !! j = if decide (j = i) then Some x else l !! j.
Proof.
  intros Hi. destruct (decide (j = i)) as [->|Hne].
  - apply list_lookup_insert_eq. exact Hi.
  - apply list_lookup_insert_ne. congruence.
Qed.

(** Taking an element out of a list and putting another one in its place. *)
Lemma insert_take_out {A} (l : list A) : forall j b x,
  l !! j = Some b -> b :: <[j := x]> l ≡ₚ x :: l.
Proof.
  induction l as [|y l IH]; intros j b x Hj; [discriminate|].
  destruct j as [|j]; simpl in *.
  - inversion Hj; subst. apply perm_swap.
  - rewrite (perm_swap y b). rewrite (IH j b x Hj). apply perm_swap.
Qed.

(** Exchanging two elements of a list permutes it. *)
Lemma insert_swap_perm {A} (l : list A) : forall i j a b,
  l !! i = Some a -> l !! j = Some b ->
  <[i := b]> (<[j := a]> l) ≡ₚ l.
Proof.
  induction l as [|y l IH]; intros i j a b Hi Hj; [discriminate|].
  destruct i as [|i], j as [|j]; simpl in *.
  - inversion Hi; inversion Hj; subst. reflexivity.
  - inversion Hi; subst. apply insert_take_out. exact Hj.
  - inversion Hj; subst. apply insert_take_out. exact Hi.
  - f_equiv. apply IH; assumption.
Qed.

Section heap_order.
Context {A : Type} (lt : A -> A -> bool) (le : A -> A -> Prop).
Hypothesis le_refl : forall a, le a a.
Hypothesis le_trans : forall a b c, le a b -> le b c -> le a c.
Hypothesis lt_le : forall a b, lt a b = true -> le a b.
Hypothesis nlt_le : forall a b, lt a b = false -> le b a.

Lemma siftdown_loop_spec newitem fuel : forall heap pos,
  (pos <= fuel)%nat ->
  sift_down_inv le newitem heap pos ->
  exists h' p,
    heapq.siftdown_loop lt fuel heap newitem 0 pos = (h', p)
    /\ sift_down_inv le newitem h' p
    /\ (p = 0%nat
        \/ exists y, h' !! ((p - 1) / 2)%nat = Some y /\ lt newitem y = false)
    /\ <[p := newitem]> h' ≡ₚ <[pos := newitem]> heap.
Proof.
  induction fuel as [|fuel IH]; intros heap pos Hfuel Hinv;
    cbn [heapq.siftdown_loop].
  { exists heap, pos. split; [reflexivity|]. split; [exact Hinv|].
    split; [left; lia|reflexivity]. }
  destruct (decide (0 < pos)%nat) as [Hpos|Hpos].
  2:{ exists heap, pos. split; [reflexivity|]. split; [exact Hinv|].
      split; [left; lia|reflexivity]. }
  destruct Hinv as (Hlen & I1 & I2 & I3).
  parent_facts pos.
  destruct (lookup_lt_is_Some_2 heap ((pos - 1) / 2)%nat ltac:(lia))
    as [parent Hpar].
  rewrite Hpar.
  destruct (lt newitem parent) eqn:Hlt.
  2:{ exists heap, pos. split; [reflexivity|].
      split; [repeat split; assumption|]. split; [|reflexivity].
      right. eauto. }
  destruct (IH (<[pos := parent]> heap) ((pos - 1) / 2)%nat) as
    (h' & p & Hrun & Hinv' & Hexit & Hperm).
  { lia. }
  { split; [rewrite length_insert; lia|]. split; [|split].
    - intros i x y Hi Hne Hx Hy.
      destruct (decide (i = pos)) as [->|Hip].
      + rewrite list_lookup_insert_eq in Hx by lia.
        rewrite list_lookup_insert_ne in Hy by lia.
        rewrite Hpar in Hy. inversion Hx; inversion Hy; subst.
        apply le_refl.
      + rewrite list_lookup_insert_ne in Hx by lia.
        destruct (decide (((i - 1) / 2)%nat = pos)) as [Hpi|Hpi].
        * rewrite Hpi, list_lookup_insert_eq in Hy by lia.
          inversion Hy; subst y.
          exact (I3 i x parent Hi Hpi Hpos Hx Hpar).
        * rewrite list_lookup_insert_ne in Hy by lia.
          exact (I1 i x y Hi Hip Hx Hy).
    - intros c x Hc Hpc Hx.
      destruct (decide (c = pos)) as [->|Hcp].
      + rewrite list_lookup_insert_eq in Hx by lia.
        inversion Hx; subst x. apply lt_le. exact Hlt.
      + rewrite list_lookup_insert_ne in Hx by lia.
        apply (le_trans _ parent); [apply lt_le; exact Hlt|].
        apply (I1 c x parent Hc Hcp Hx). rewrite Hpc. exact Hpar.
    - intros c x y Hc Hpc Hpp Hx Hy.
      parent_facts ((pos - 1) / 2)%nat.
      rewrite list_lookup_insert_ne in Hy by lia.
      assert (Hyp : le y parent).
      { apply (I1 ((pos - 1) / 2)%nat parent y); [lia|lia|exact Hpar|exact Hy]. }
      destruct (decide (c = pos)) as [->|Hcp].
      + rewrite list_lookup_insert_eq in Hx by lia.
        inversion Hx; subst x. exact Hyp.
      + rewrite list_lookup_insert_ne in Hx by lia.
        apply (le_trans _ parent); [exact Hyp|].
        apply (I1 c x parent Hc Hcp Hx). rewrite Hpc. exact Hpar. }
  exists h', p. split; [exact Hrun|]. split; [exact Hinv'|].
  split; [exact Hexit|].
  rewrite Hperm.
  rewrite <- (list_insert_insert_eq heap pos parent newitem).
  apply insert_swap_perm.
  - rewrite list_lookup_insert_ne by lia. exact Hpar.
  - apply list_lookup_insert_eq. exact Hlen.
Qed.

(** [_siftdown] from a leaf, on a list heap ordered away from that leaf,
    gives a heap with the same elements. *)
Lemma siftdown_spec heap pos newitem :
  heap !! pos = Some newitem ->
  sift_down_inv le newitem heap pos ->
  heap_ordered le (heapq._siftdown lt heap 0 pos)
  /\ heapq._siftdown lt heap 0 pos ≡ₚ heap.
Proof.
  intros Hnew Hinv. unfold heapq._siftdown. rewrite Hnew.
  destruct (siftdown_loop_spec newitem pos heap pos (le_n _) Hinv)
    as (h' & p & -> & (Hlen & I1 & I2 & I3) & Hexit & Hperm).
  split.
  - intros i x y Hi Hx Hy.
    destruct (decide (i = p)) as [->|Hip].
    + rewrite list_lookup_insert_eq in Hx by lia. inversion Hx; subst x.
      parent_facts p. rewrite list_lookup_insert_ne in Hy by lia.
      destruct Hexit as [Hz|(y0 & Hy0 & Hnlt)]; [lia|].
      rewrite Hy0 in Hy. inversion Hy; subst. apply nlt_le. exact Hnlt.
    + rewrite list_lookup_insert_ne in Hx by lia.
      destruct (decide (((i - 1) / 2)%nat = p)) as [Hpi|Hpi].
      * rewrite Hpi, list_lookup_insert_eq in Hy by lia.
        inversion Hy; subst y. exact (I2 i x Hi Hpi Hx).
      * rewrite list_lookup_insert_ne in Hy by lia.
        exact (I1 i x y Hi Hip Hx Hy).
  - rewrite Hperm. rewrite list_insert_id by exact Hnew. reflexivity.
Qed.

(** [heappush] keeps the heap order and adds the item, nothing else. *)
Lemma heappush_spec heap x :
  heap_ordered le heap ->
  heap_ordered le (heapq.heappush lt heap x)
  /\ heapq.heappush lt heap x ≡ₚ x :: heap.
Proof.
  intros Hheap. unfold heapq.heappush.
  destruct (siftdown_spec (heap ++ [x])%list (length heap) x) as [Ho Hp].
  - apply list_lookup_middle. reflexivity.
  - split; [rewrite length_app; simpl; lia|]. split; [|split].
    + intros i a b Hi Hne Ha Hb.
      assert (Hlt : (i < length heap)%nat).
      { apply lookup_lt_Some in Ha. rewrite length_app in Ha. simpl in Ha.
        lia. }
      parent_facts i.
      rewrite lookup_app_l in Ha, Hb by lia.
      exact (Hheap i a b Hi Ha Hb).
    + intros c a Hc Hpc Ha. apply lookup_lt_Some in Ha.
      rewrite length_app in Ha. simpl in Ha. parent_facts c. lia.
    + intros c a b Hc Hpc _ Ha _. apply lookup_lt_Some in Ha.
      rewrite length_app in Ha. simpl in Ha. parent_facts c. lia.
  - split; [exact Ho|]. rewrite Hp.
    symmetry. apply Permutation_cons_append.
Qed.

Lemma siftup_loop_spec fuel : forall heap pos,
  (length heap <= fuel + pos)%nat ->
  sift_up_inv le heap pos ->
  exists h' p,
    heapq.siftup_loop lt fuel heap (length heap) pos = (h', p)
    /\ sift_up_inv le h' p
    /\ (length h' <= 2 * p + 1)%nat
    /\ forall newitem, <[p := newitem]> h' ≡ₚ <[pos := newitem]> heap.
Proof.
  induction fuel as [|fuel IH]; intros heap pos Hfuel Hinv;
    cbn [heapq.siftup_loop].
  { destruct Hinv as (Hlen & _). lia. }
  cbv zeta.
  destruct (decide (2 * pos + 1 < length heap)%nat) as [Hchild|Hleaf].
  2:{ exists heap, pos. split; [reflexivity|]. split; [exact Hinv|].
      split; [lia|reflexivity]. }
  destruct Hinv as (Hlen & K1 & K2).
  destruct (lookup_lt_is_Some_2 heap (2 * pos + 1)%nat Hchild) as [c Hc].
  (* the child that moves up, and what is known of the other one *)
  assert (Hsel : exists ch C,
    match heap !! (2 * pos + 1)%nat, heap !! (2 * pos + 1 + 1)%nat with
    | Some c, Some r => if negb (lt c r) then (2 * pos + 1 + 1)%nat
                        else (2 * pos + 1)%nat
    | _, _ => (2 * pos + 1)%nat
    end = ch
    /\ heap !! ch = Some C
    /\ (ch = 2 * pos + 1 \/ ch = 2 * pos + 2)%nat
    /\ forall s x, (s = 2 * pos + 1 \/ s = 2 * pos + 2)%nat ->
                   heap !! s = Some x -> le C x).
  { rewrite Hc.
    destruct (heap !! (2 * pos + 1 + 1)%nat) as [r|] eqn:Hr.
    - destruct (lt c r) eqn:Hlt; cbn [negb].
      + exists (2 * pos + 1)%nat, c. repeat split; [exact Hc|lia|].
        intros s x [->| ->] Hx.
        * rewrite Hc in Hx. inversion Hx; subst. apply le_refl.
        * replace (2 * pos + 2)%nat with (2 * pos + 1 + 1)%nat in Hx by lia.
          rewrite Hr in Hx. inversion Hx; subst. apply lt_le. exact Hlt.
      + exists (2 * pos + 1 + 1)%nat, r. repeat split; [exact Hr|lia|].
        intros s x [->| ->] Hx.
        * rewrite Hc in Hx. inversion Hx; subst. apply nlt_le. exact Hlt.
        * replace (2 * pos + 2)%nat with (2 * pos + 1 + 1)%nat in Hx by lia.
          rewrite Hr in Hx. inversion Hx; subst. apply le_refl.
    - exists (2 * pos + 1)%nat, c. repeat split; [exact Hc|lia|].
      intros s x [->| ->] Hx.
      + rewrite Hc in Hx. inversion Hx; subst. apply le_refl.
      + replace (2 * pos + 2)%nat with (2 * pos + 1 + 1)%nat in Hx by lia.
        congruence. }
  destruct Hsel as (ch & C & -> & HC & Hch & Hother).
  rewrite HC.
  assert (Hchlt : (ch < length heap)%nat) by (apply lookup_lt_Some in HC; exact HC).
  assert (Hpch : ((ch - 1) / 2)%nat = pos) by (parent_facts ch; lia).
  destruct (IH (<[pos := C]> heap) ch) as (h' & p & Hrun & Hinv' & Hleaf & Hperm).
  { rewrite length_insert. lia. }
  { split; [rewrite length_insert; exact Hchlt|]. split.
    - intros i x y Hi Hne Hx Hy.
      destruct (decide (i = pos)) as [->|Hip].
      + rewrite list_lookup_insert_eq in Hx by lia. inversion Hx; subst x.
        parent_facts pos.
        rewrite list_lookup_insert_ne in Hy by lia.
        exact (K2 ch C y ltac:(lia) Hpch Hi HC Hy).
      + rewrite list_lookup_insert_ne in Hx by lia.
        destruct (decide (((i - 1) / 2)%nat = pos)) as [Hpi|Hpi].
        * rewrite Hpi, list_lookup_insert_eq in Hy by lia.
          inversion Hy; subst y. apply (Hother i x); [|exact Hx].
          parent_facts i. lia.
        * rewrite list_lookup_insert_ne in Hy by lia.
          exact (K1 i x y Hi Hpi Hx Hy).
    - intros s x y Hs Hps _ Hx Hy.
      rewrite Hpch, list_lookup_insert_eq in Hy by lia.
      inversion Hy; subst y.
      assert (s <> pos) by (parent_facts s; lia).
      rewrite list_lookup_insert_ne in Hx by lia.
      apply (K1 s x C Hs); [lia|exact Hx|]. rewrite Hps. exact HC. }
  rewrite length_insert in Hrun.
  exists h', p. split; [exact Hrun|]. split; [exact Hinv'|].
  split; [exact Hleaf|].
  intros newitem. rewrite Hperm.
  rewrite <- (list_insert_insert_eq heap pos C newitem).
  apply insert_swap_perm.
  - rewrite list_lookup_insert_ne by lia. exact HC.
  - apply list_lookup_insert_eq. exact Hlen.
Qed.

(** [_siftup] from the root, on a list heap ordered below the root, gives
    a heap with the same elements. *)
Lemma siftup_spec heap newitem :
  heap !! 0%nat = Some newitem ->
  sift_up_inv le heap 0 ->
  heap_ordered le (heapq._siftup lt heap 0)
  /\ heapq._siftup lt heap 0 ≡ₚ heap.
Proof.
  intros Hnew Hinv. unfold heapq._siftup. rewrite Hnew. cbv zeta.
  destruct (siftup_loop_spec (length heap) heap 0 ltac:(lia) Hinv)
    as (h' & p & -> & (Hlen & K1 & K2) & Hleaf & Hperm).
  destruct (siftdown_spec (<[p := newitem]> h') p newitem) as [Ho Hp].
  - apply list_lookup_insert_eq. exact Hlen.
  - split; [rewrite length_insert; exact Hlen|]. split; [|split].
    + intros i x y Hi Hne Hx Hy.
      assert (Hilt : (i < length h')%nat).
      { apply lookup_lt_Some in Hx. rewrite length_insert in Hx. exact Hx. }
      assert (Hpi : ((i - 1) / 2)%nat <> p) by (parent_facts i; lia).
      rewrite list_lookup_insert_ne in Hx, Hy by lia.
      exact (K1 i x y Hi Hpi Hx Hy).
    + intros c x Hc Hpc Hx. apply lookup_lt_Some in Hx.
      rewrite length_insert in Hx. parent_facts c. lia.
    + intros c x y Hc Hpc _ Hx _. apply lookup_lt_Some in Hx.
      rewrite length_insert in Hx. parent_facts c. lia.
  - split; [exact Ho|]. rewrite Hp, Hperm.
    rewrite list_insert_id by exact Hnew. reflexivity.
Qed.

(** [heappop] of a heap returns its root and leaves a heap holding the
    other elements; of the empty list it returns nothing. *)
Lemma heappop_spec heap :
  heap_ordered le heap ->
  heap <> [] ->
  exists r rest,
    heapq.heappop lt heap = Some (r, rest)
    /\ heap !! 0%nat = Some r
    /\ heap_ordered le rest
    /\ heap ≡ₚ r :: rest.
Proof.
  intros Hheap Hne. unfold heapq.heappop.
  destruct (last heap) as [lastelt|] eqn:Hlast.
  2:{ apply last_None in Hlast. contradiction. }
  apply last_Some in Hlast as [front ->]. cbv zeta.
  rewrite length_app. simpl.
  replace (length front + 1 - 1)%nat with (length front) by lia.
  rewrite take_app_length.
  destruct front as [|r t].
  - exists lastelt, []. split; [reflexivity|]. split; [reflexivity|].
    split; [|reflexivity]. intros i x y _ Hx. destruct i; discriminate.
  - destruct (siftup_spec (<[0%nat := lastelt]> (r :: t)) lastelt)
      as [Ho Hp].
    + reflexivity.
    + split; [simpl; lia|]. split.
      * intros i x y Hi Hpi Hx Hy.
        destruct i as [|i]; [lia|].
        destruct (((S i - 1) / 2)%nat) as [|pi] eqn:Epi; [lia|].
        simpl in Hx, Hy.
        apply (Hheap (S i) x y); [lia| |].
        -- simpl. apply lookup_app_l_Some. exact Hx.
        -- rewrite Epi. simpl. apply lookup_app_l_Some. exact Hy.
      * intros c x y _ _ Hpos. lia.
    + exists r, (heapq._siftup lt (<[0%nat := lastelt]> (r :: t)) 0).
      split; [reflexivity|]. split; [reflexivity|]. split; [exact Ho|].
      rewrite Hp. simpl.
      rewrite (Permutation_cons_append t lastelt). reflexivity.
Qed.

Lemma heappop_nil : heapq.heappop lt [] = None.
Proof. reflexivity. Qed.

(** The root of a heap is below every element. *)
Lemma heap_root_min heap r :
  heap_ordered le heap ->
  heap !! 0%nat = Some r ->
  forall i x, heap !! i = Some x -> le r x.
Proof.
  intros Hheap Hr i. induction i as [i IH] using lt_wf_ind. intros x Hx.
  destruct (decide (i = 0)%nat) as [->|Hi].
  - rewrite Hr in Hx. inversion Hx; subst. apply le_refl.
  - parent_facts i.
    assert (Hp : (((i - 1) / 2) < length heap)%nat).
    { apply lookup_lt_Some in Hx. lia. }
    destruct (lookup_lt_is_Some_2 heap _ Hp) as [y Hy].
    apply (le_trans _ y).
    + apply (IH ((i - 1) / 2)%nat); [lia|exact Hy].
    + apply (Hheap i x y); [lia|exact Hx|exact Hy].
Qed.
End heap_order.

(** ** JobQueue: order and size *)

Lemma key_le_refl a : key_le a a.
Proof. unfold key_le. lia. Qed.

Lemma key_le_trans a b c : key_le a b -> key_le b c -> key_le a c.
Proof. unfold key_le. lia. Qed.

Lemma entry_ltb_key_le a b : entry_ltb a b = true -> key_le a b.
Proof.
  destruct a as [[pa ta] ja], b as [[pb tb] jb]. unfold key_le. simpl.
  destruct (pa <? pb) eqn:E1; [apply Z.ltb_lt in E1; lia|].
  destruct (pa =? pb) eqn:E2; [apply Z.eqb_eq in E2|discriminate].
  destruct (ta <? tb) eqn:E3; [apply Z.ltb_lt in E3; lia|].
  destruct (ta =? tb) eqn:E4; [apply Z.eqb_eq in E4; lia|discriminate].
Qed.

Lemma entry_nltb_key_le a b : entry_ltb a b = false -> key_le b a.
Proof.
  destruct a as [[pa ta] ja], b as [[pb tb] jb]. unfold key_le. simpl.
  destruct (pa <? pb) eqn:E1; [discriminate|]. apply Z.ltb_ge in E1.
  destruct (pa =? pb) eqn:E2; [apply Z.eqb_eq in E2|apply Z.eqb_neq in E2; lia].
  destruct (ta <? tb) eqn:E3; [discriminate|]. apply Z.ltb_ge in E3. lia.
Qed.

Lemma queue_heappush q e :
  heap_ordered key_le q ->
  heap_ordered key_le (heapq.heappush entry_ltb q e)
  /\ heapq.heappush entry_ltb q e ≡ₚ e :: q.
Proof.
  apply (heappush_spec entry_ltb key_le key_le_refl key_le_trans
           entry_ltb_key_le entry_nltb_key_le).
Qed.

Lemma queue_heappop q :
  heap_ordered key_le q -> q <> [] ->
  exists r rest,
    heapq.heappop entry_ltb q = Some (r, rest)
    /\ q !! 0%nat = Some r
    /\ heap_ordered key_le rest
    /\ q ≡ₚ r :: rest.
Proof.
  apply (heappop_spec entry_ltb key_le key_le_refl key_le_trans
           entry_ltb_key_le entry_nltb_key_le).
Qed.

Lemma queue_root_min q r :
  heap_ordered key_le q -> q !! 0%nat = Some r ->
  forall x, x ∈ q -> key_le r x.
Proof.
  intros Hq Hr x Hx. apply list_elem_of_lookup in Hx as [i Hi].
  exact (heap_root_min key_le key_le_refl key_le_trans q r Hq Hr i x Hi).
Qed.

(** Sizes, whatever the order of the list. *)
Lemma siftup_loop_length {A} (lt : A -> A -> bool) fuel :
  forall (heap : list A) endpos pos,
  length (fst (heapq.siftup_loop lt fuel heap endpos pos)) = length heap.
Proof.
  induction fuel as [|fuel IH]; intros heap endpos pos;
    cbn [heapq.siftup_loop]; [reflexivity|]. cbv zeta.
  destruct (decide (2 * pos + 1 < endpos)%nat); [|reflexivity].
  match goal with |- context [heap !! ?c] =>
    destruct (heap !! c) as [x|]; [|reflexivity] end.
  rewrite IH. apply length_insert.
Qed.

Lemma siftdown_length {A} (lt : A -> A -> bool) (heap : list A) pos :
  length (heapq._siftdown lt heap 0 pos) = length heap.
Proof.
  unfold heapq._siftdown. destruct (heap !! pos) as [x|]; [|reflexivity].
  pose proof (siftdown_loop_length lt pos heap x pos) as H.
  destruct (heapq.siftdown_loop lt pos heap x 0 pos) as [h p].
  rewrite length_insert. exact H.
Qed.

Lemma siftup_length {A} (lt : A -> A -> bool) (heap : list A) :
  length (heapq._siftup lt heap 0) = length heap.
Proof.
  unfold heapq._siftup. destruct (heap !! 0%nat) as [x|]; [|reflexivity].
  cbv zeta.
  pose proof (siftup_loop_length lt (length heap) heap (length heap) 0) as H.
  destruct (heapq.siftup_loop lt (length heap) heap (length heap) 0) as [h p].
  rewrite siftdown_length, length_insert. exact H.
Qed.

Lemma heappush_length {A} (lt : A -> A -> bool) (heap : list A) x :
  length (heapq.heappush lt heap x) = S (length heap).
Proof.
  unfold heapq.heappush. rewrite siftdown_length, length_app. simpl. lia.
Qed.

Lemma heappop_length {A} (lt : A -> A -> bool) (heap : list A) :
  match heapq.heappop lt heap with
  | Some (_, rest) => length heap = S (length rest)
  | None => heap = []
  end.
Proof.
  unfold heapq.heappop. destruct (last heap) as [lastelt|] eqn:Hlast.
  2:{ apply last_None in Hlast. exact Hlast. }
  apply last_Some in Hlast as [front ->]. cbv zeta.
  rewrite length_app. simpl.
  replace (length front + 1 - 1)%nat with (length front) by lia.
  rewrite take_app_length.
  destruct front as [|r t]; [reflexivity|].
  rewrite siftup_length, length_insert. simpl. lia.
Qed.

(** What [push], [pop] and [top] compute. *)
Lemma push_run j priority ts q i :
  outcome (JobQueue.push j priority ts q i) = Ok tt
  /\ state_of (JobQueue.push j priority ts q i)
     = JobQueue.mk
         (heapq.heappush entry_ltb (JobQueue.queue q)
            (priority, pushed_timestamp j ts i, j))
         (S (JobQueue.semaphore q)).
Proof.
  unfold JobQueue.push, JobQueue.semaphore_release, JobQueue.job_timestamp,
    pushed_timestamp.
  destruct ts as [t|]; [|destruct (snd j) as [s|]];
    unfold_monad; unfold_views; split; reflexivity.
Qed.

Lemma pop_run q i n e rest :
  JobQueue.semaphore q = S n ->
  heapq.heappop entry_ltb (JobQueue.queue q) = Some (e, rest) ->
  outcome (JobQueue.pop q i) = Ok e
  /\ state_of (JobQueue.pop q i) = JobQueue.mk rest n.
Proof.
  intros Hsem Hpop. unfold JobQueue.pop, JobQueue.semaphore_acquire.
  unfold_monad. rewrite Hsem. cbn. rewrite Hpop.
  unfold_views. split; reflexivity.
Qed.

Lemma pop_blocks q i :
  JobQueue.semaphore q = 0%nat ->
  outcome (JobQueue.pop q i) = Raise WouldBlock
  /\ state_of (JobQueue.pop q i) = q.
Proof.
  intros Hsem. unfold JobQueue.pop, JobQueue.semaphore_acquire.
  unfold_monad. rewrite Hsem. unfold_views. split; reflexivity.
Qed.

Lemma top_run q i :
  outcome (JobQueue.top q i)
  = match JobQueue.queue q !! 0%nat with
    | Some e => Ok e
    | None => Raise LookupError
    end
  /\ state_of (JobQueue.top q i) = q.
Proof.
  unfold JobQueue.top. unfold_monad.
  destruct (JobQueue.queue q) as [|e l]; unfold_views; split; reflexivity.
Qed.

Lemma key_leb_sound a b : key_leb a b = true -> key_le a b.
Proof.
  unfold key_leb, key_le. intros H.
  apply orb_true_iff in H as [H|H].
  - left. apply Z.ltb_lt. exact H.
  - apply andb_true_iff in H as [H1 H2]. right.
    split; [apply Z.eqb_eq; exact H1|apply Z.leb_le; exact H2].
Qed.

Lemma is_heap_sound l : is_heap l = true -> heap_ordered key_le l.
Proof.
  unfold is_heap. intros H i x y Hi Hx Hy.
  rewrite forallb_forall in H.
  specialize (H i). rewrite Hx, Hy in H.
  apply key_leb_sound, H. apply in_seq.
  apply lookup_lt_Some in Hx. lia.
Qed.

(** X1: [JobQueue.push] always returns; on a heap-ordered queue it adds
    exactly one entry -- the job under the given priority and under the
    timestamp given, else that of its submission, else the current time --
    keeps every other entry, keeps the heap order and releases one permit
    of the semaphore. *)
Theorem push_adds_exactly_the_entry j priority ts q i :
  heap_ordered key_le (JobQueue.queue q) ->
  let r := JobQueue.push j priority ts q i in
  outcome r = Ok tt
  /\ JobQueue.queue (state_of r)
     ≡ₚ (priority, pushed_timestamp j ts i, j) :: JobQueue.queue q
  /\ heap_ordered key_le (JobQueue.queue (state_of r))
  /\ JobQueue.semaphore (state_of r) = S (JobQueue.semaphore q).
Proof.
  intros Hq r. subst r.
  destruct (push_run j priority ts q i) as [Ho Hs].
  destruct (queue_heappush (JobQueue.queue q)
              (priority, pushed_timestamp j ts i, j) Hq) as [Hord Hperm].
  rewrite Hs. simpl. repeat split; assumption.
Qed.

Lemma push_adds_exactly_the_entry_witness :
  let r := JobQueue.push ScenarioQueue.compile1 JOB_PRIORITY_HIGH None
             ScenarioQueue.three Scenario.world0 in
  outcome r = Ok tt
  /\ JobQueue.queue (state_of r)
     ≡ₚ (JOB_PRIORITY_HIGH, 10, ScenarioQueue.compile1)
        :: JobQueue.queue ScenarioQueue.three
  /\ heap_ordered key_le (JobQueue.queue (state_of r))
  /\ JobQueue.semaphore (state_of r) = 4%nat.
Proof.
  apply (push_adds_exactly_the_entry ScenarioQueue.compile1 JOB_PRIORITY_HIGH
           None ScenarioQueue.three Scenario.world0).
  apply is_heap_sound. reflexivity.
Defined.

(** The head of the queue is what [pop] returns. *)
Lemma pop_returns_first q i :
  Q2 q ->
  heap_ordered key_le (JobQueue.queue q) ->
  JobQueue.queue q <> [] ->
  exists e,
    outcome (JobQueue.pop q i) = Ok e
    /\ JobQueue.queue q !! 0%nat = Some e
    /\ (forall x, x ∈ JobQueue.queue q -> key_le e x)
    /\ JobQueue.queue q ≡ₚ e :: JobQueue.queue (state_of (JobQueue.pop q i))
    /\ heap_ordered key_le (JobQueue.queue (state_of (JobQueue.pop q i)))
    /\ Q2 (state_of (JobQueue.pop q i)).
Proof.
  intros Hq2 Hord Hne.
  destruct (queue_heappop _ Hord Hne) as (e & rest & Hpop & Hhead & Hrest & Hperm).
  assert (Hlen : length (JobQueue.queue q) = S (length rest)).
  { rewrite Hperm. reflexivity. }
  destruct (pop_run q i (length rest) e rest) as [Ho Hs].
  { rewrite <- Hlen. exact Hq2. }
  { exact Hpop. }
  exists e. rewrite Hs. simpl.
  split; [exact Ho|]. split; [exact Hhead|].
  split; [exact (queue_root_min _ _ Hord Hhead)|].
  split; [exact Hperm|]. split; [exact Hrest|]. reflexivity.
Qed.


(** X2: on a heap-ordered queue whose semaphore counts its entries,
    [JobQueue.pop] of a queue that is not empty returns the entry at the
    head, which no entry of the queue precedes in (priority, timestamp)
    order; the entries left are the others, still heap ordered and still
    counted by the semaphore. *)
Theorem pop_returns_the_most_urgent q i :
  Q2 q ->
  heap_ordered key_le (JobQueue.queue q) ->
  JobQueue.queue q <> [] ->
  exists e,
    outcome (JobQueue.pop q i) = Ok e
    /\ JobQueue.queue q !! 0%nat = Some e
    /\ (forall x, x ∈ JobQueue.queue q -> key_le e x)
    /\ JobQueue.queue q ≡ₚ e :: JobQueue.queue (state_of (JobQueue.pop q i))
    /\ heap_ordered key_le (JobQueue.queue (state_of (JobQueue.pop q i)))
    /\ Q2 (state_of (JobQueue.pop q i)).
Proof. exact (pop_returns_first q i). Qed.

Lemma pop_returns_the_most_urgent_witness :
  exists e,
    outcome (JobQueue.pop ScenarioQueue.three Scenario.world0) = Ok e
    /\ JobQueue.queue ScenarioQueue.three !! 0%nat = Some e
    /\ (forall x, x ∈ JobQueue.queue ScenarioQueue.three -> key_le e x)
    /\ JobQueue.queue ScenarioQueue.three
       ≡ₚ e :: JobQueue.queue
                 (state_of (JobQueue.pop ScenarioQueue.three Scenario.world0))
    /\ heap_ordered key_le
         (JobQueue.queue
            (state_of (JobQueue.pop ScenarioQueue.three Scenario.world0)))
    /\ Q2 (state_of (JobQueue.pop ScenarioQueue.three Scenario.world0)).
Proof.
  apply (pop_returns_the_most_urgent ScenarioQueue.three Scenario.world0).
  - reflexivity.
  - apply is_heap_sound. reflexivity.
  - discriminate.
Defined.

(** X3: two entries popped one after the other from a heap-ordered queue
    come out in (priority, timestamp) order: the second one never precedes
    the first. *)
Theorem pops_come_out_in_order q i i' e1 e2 :
  Q2 q ->
  heap_ordered key_le (JobQueue.queue q) ->
  outcome (JobQueue.pop q i) = Ok e1 ->
  outcome (JobQueue.pop (state_of (JobQueue.pop q i)) i') = Ok e2 ->
  key_le e1 e2.
Proof.
  intros Hq2 Hord H1 H2.
  destruct (decide (JobQueue.queue q = [])) as [Hq|Hq].
  { destruct (pop_blocks q i) as [Hb _]; [|congruence].
    rewrite Hq2, Hq. reflexivity. }
  destruct (pop_returns_first q i Hq2 Hord Hq)
    as (e & He & _ & Hmin & Hperm & Hord' & Hq2').
  assert (e = e1) by congruence. subst e.
  set (q' := state_of (JobQueue.pop q i)) in *.
  destruct (decide (JobQueue.queue q' = [])) as [Hq'|Hq'].
  { destruct (pop_blocks q' i') as [Hb _]; [|congruence].
    rewrite Hq2', Hq'. reflexivity. }
  destruct (pop_returns_first q' i' Hq2' Hord' Hq')
    as (e & He' & _ & _ & Hperm' & _).
  assert (e = e2) by congruence. subst e.
  apply Hmin. rewrite Hperm. right. rewrite Hperm'. left.
Qed.

Lemma pops_come_out_in_order_witness :
  key_le (JOB_PRIORITY_HIGH, 10, ScenarioQueue.compile1)
         (JOB_PRIORITY_HIGH, 30, ScenarioQueue.evaluate2).
Proof.
  apply (pops_come_out_in_order ScenarioQueue.three Scenario.world0
           Scenario.world0).
  - reflexivity.
  - apply is_heap_sound. reflexivity.
  - reflexivity.
  - reflexivity.
Defined.

(** X4: [JobQueue.top] shows what the next [JobQueue.pop] returns: on a
    heap-ordered, non-empty queue counted by its semaphore both return the
    same entry, which no entry of the queue precedes, and [top] leaves the
    queue as it is. *)
Theorem top_is_the_next_pop q i i' :
  Q2 q ->
  heap_ordered key_le (JobQueue.queue q) ->
  JobQueue.queue q <> [] ->
  exists e,
    outcome (JobQueue.top q i) = Ok e
    /\ state_of (JobQueue.top q i) = q
    /\ outcome (JobQueue.pop q i') = Ok e
    /\ forall x, x ∈ JobQueue.queue q -> key_le e x.
Proof.
  intros Hq2 Hord Hne.
  destruct (pop_returns_first q i' Hq2 Hord Hne)
    as (e & He & Hhead & Hmin & _).
  destruct (top_run q i) as [Ho Hs]. rewrite Hhead in Ho.
  exists e. repeat split; assumption.
Qed.

Lemma top_is_the_next_pop_witness :
  exists e,
    outcome (JobQueue.top ScenarioQueue.three Scenario.world0) = Ok e
    /\ state_of (JobQueue.top ScenarioQueue.three Scenario.world0)
       = ScenarioQueue.three
    /\ outcome (JobQueue.pop ScenarioQueue.three Scenario.world0) = Ok e
    /\ forall x, x ∈ JobQueue.queue ScenarioQueue.three -> key_le e x.
Proof.
  apply (top_is_the_next_pop ScenarioQueue.three Scenario.world0
           Scenario.world0).
  - reflexivity.
  - apply is_heap_sound. reflexivity.
  - discriminate.
Defined.

(** X5: [JobQueue.top] never changes the queue, and it fails exactly on
    the empty queue, with a [LookupError]. *)
Theorem top_fails_exactly_on_the_empty_queue q i :
  state_of (JobQueue.top q i) = q
  /\ (outcome (JobQueue.top q i) = Raise LookupError
      <-> JobQueue.queue q = [])
  /\ (forall e, outcome (JobQueue.top q i) = Raise e -> e = LookupError).
Proof.
  destruct (top_run q i) as [Ho Hs]. split; [exact Hs|].
  rewrite Ho. destruct (JobQueue.queue q) as [|e l]; simpl.
  - split; [split; reflexivity|]. intros e H. congruence.
  - split; [split; discriminate|]. intros e' H. discriminate.
Qed.

(** X6: the semaphore of the queue counts its entries (Q2) after every
    call of [JobQueue], whatever the call and its arguments, and under Q2
    no call finds the queue out of sync with the semaphore: none raises
    [RuntimeError]. *)
Theorem Q2_is_kept_by_every_call c q i :
  Q2 q ->
  Q2 (snd (run_queue_call c q i))
  /\ fst (run_queue_call c q i) <> Raise RuntimeError.
Proof.
  unfold Q2. intros Hq2. destruct c as [j p ts| | |j|j p| |]; simpl.
  - destruct (push_run j p ts q i) as [Ho Hs]. rewrite Ho, Hs. simpl.
    rewrite heappush_length, Hq2. split; [reflexivity|discriminate].
  - destruct (top_run q i) as [Ho Hs]. rewrite Ho, Hs.
    split; [exact Hq2|]. destruct (JobQueue.queue q !! 0%nat); discriminate.
  - pose proof (heappop_length entry_ltb (JobQueue.queue q)) as Hlen.
    destruct (heapq.heappop entry_ltb (JobQueue.queue q)) as [[e rest]|]
      eqn:Hpop.
    + destruct (pop_run q i (length rest) e rest) as [Ho Hs];
        [lia|exact Hpop|].
      rewrite Ho, Hs. simpl. split; [reflexivity|discriminate].
    + destruct (pop_blocks q i) as [Ho Hs]; [rewrite Hq2, Hlen; reflexivity|].
      rewrite Ho, Hs. split; [exact Hq2|discriminate].
  - rewrite search_raises. unfold_views. split; [exact Hq2|].
    destruct (JobQueue.queue q); discriminate.
  - rewrite set_priority_raises. unfold_views. split; [exact Hq2|].
    destruct (JobQueue.queue q); discriminate.
  - unfold JobQueue.length. unfold_monad. unfold_views.
    split; [exact Hq2|discriminate].
  - unfold JobQueue.empty, JobQueue.length. unfold_monad. unfold_views.
    split; [exact Hq2|discriminate].
Qed.

Lemma Q2_is_kept_by_every_call_witness :
  Q2 (snd (run_queue_call call_pop ScenarioQueue.three Scenario.world0))
  /\ fst (run_queue_call call_pop ScenarioQueue.three Scenario.world0)
     <> Raise RuntimeError.
Proof.
  apply (Q2_is_kept_by_every_call call_pop ScenarioQueue.three
           Scenario.world0).
  reflexivity.
Defined.

(** ** WorkerPool: invariants and round trips *)

Lemma acquire_worker_in_sync j b sd p i :
  W1 p ->
  outcome (WorkerPool.acquire_worker j b sd p i) <> Raise RuntimeError.
Proof.
  intros HW.
  destruct (WorkerPool.acquire_worker j b sd p i) as [[r p'] i'] eqn:H.
  unfold WorkerPool.acquire_worker, WorkerPool.find_worker,
    WorkerPool.semaphore_acquire in H.
  unfold_monad. split_matches; unfold_views; unfold W1 in *; simpl in *;
    try discriminate.
  apply find_inactive_none in Heqo. lia.
Qed.

(** X7: the semaphore of the pool counts the INACTIVE workers (W1) after
    every call of the pool, successful or not, as long as
    [disable_worker] is given a registered worker; and under W1 no call
    finds the worker array out of sync with the semaphore: none raises
    [RuntimeError]. *)
Theorem W1_is_kept_by_every_call c p i :
  W1 p ->
  (forall n, c = call_disable_worker n -> n ∈ dom (WorkerPool.workers p)) ->
  W1 (run_pool_call c p i)
  /\ pool_call_outcome c p i <> Raise RuntimeError.
Proof.
  intros HW Hd. split; [exact (W1_preserved c p i HW Hd)|].
  destruct c as [n h pt|n|n|n|j b sd|n]; simpl.
  - destruct (WorkerPool.add_worker n h pt p i) as [[r p'] i'] eqn:H.
    unfold WorkerPool.add_worker, WorkerPool.semaphore_release in H.
    unfold_monad. split_matches; unfold_views; discriminate.
  - destruct (WorkerPool.del_worker n p i) as [[r p'] i'] eqn:H.
    unfold WorkerPool.del_worker in H.
    unfold_monad. split_matches; unfold_views; discriminate.
  - destruct (WorkerPool.enable_worker n p i) as [[r p'] i'] eqn:H.
    unfold WorkerPool.enable_worker, WorkerPool.semaphore_release in H.
    unfold_monad. split_matches; unfold_views; discriminate.
  - destruct (WorkerPool.disable_worker n p i) as [[r p'] i'] eqn:H.
    unfold WorkerPool.disable_worker, WorkerPool.semaphore_release,
      WorkerPool.semaphore_acquire in H.
    unfold_monad. split_matches; unfold_views; discriminate.
  - pose proof (acquire_worker_in_sync j b sd p i HW) as Hs.
    destruct (outcome (WorkerPool.acquire_worker j b sd p i));
      [discriminate|].
    intros He. apply Hs. inversion He. reflexivity.
  - destruct (WorkerPool.release_worker n p i) as [[r p'] i'] eqn:H.
    unfold WorkerPool.release_worker, WorkerPool.semaphore_release in H.
    unfold_monad. split_matches; unfold_views; discriminate.
Qed.

Lemma W1_is_kept_by_every_call_witness :
  let c := call_acquire_worker ScenarioQueue.compile1 false (Some (1, 10)) in
  let p := Scenario.pool_of WorkerPool.WORKER_INACTIVE 1 in
  W1 (run_pool_call c p Scenario.world0)
  /\ pool_call_outcome c p Scenario.world0 <> Raise RuntimeError.
Proof.
  apply (W1_is_kept_by_every_call
           (call_acquire_worker ScenarioQueue.compile1 false (Some (1, 10)))
           (Scenario.pool_of WorkerPool.WORKER_INACTIVE 1) Scenario.world0).
  - vm_compute. reflexivity.
  - intros n Hn. discriminate Hn.
Defined.

(** X8: a call of the pool that is refused with [ValueError] leaves the
    pool exactly as it was: workers, permits, leases, addresses, error
    counts, side data and pending disablings. *)
Theorem refused_call_changes_nothing c p i :
  pool_call_outcome c p i = Raise ValueError ->
  run_pool_call c p i = p.
Proof.
  destruct p as [ws sem st ad ec sd sch].
  destruct c as [n h pt|n|n|n|j b sd'|n]; simpl; intros Hr.
  - destruct (WorkerPool.add_worker n h pt _ i) as [[r p'] i'] eqn:H.
    unfold WorkerPool.add_worker, WorkerPool.semaphore_release in H.
    unfold_monad. split_matches; unfold_views; try discriminate; reflexivity.
  - destruct (WorkerPool.del_worker n _ i) as [[r p'] i'] eqn:H.
    unfold WorkerPool.del_worker in H.
    unfold_monad. split_matches; unfold_views; try discriminate; reflexivity.
  - destruct (WorkerPool.enable_worker n _ i) as [[r p'] i'] eqn:H.
    unfold WorkerPool.enable_worker, WorkerPool.semaphore_release in H.
    unfold_monad. split_matches; unfold_views; try discriminate; reflexivity.
  - destruct (WorkerPool.disable_worker n _ i) as [[r p'] i'] eqn:H.
    unfold WorkerPool.disable_worker, WorkerPool.semaphore_release,
      WorkerPool.semaphore_acquire in H.
    unfold_monad. split_matches; unfold_views; try discriminate; reflexivity.
  - destruct (WorkerPool.acquire_worker j b sd' _ i) as [[r p'] i'] eqn:H.
    unfold WorkerPool.acquire_worker, WorkerPool.find_worker,
      WorkerPool.semaphore_acquire in H.
    unfold_monad. split_matches; unfold_views; try discriminate; reflexivity.
  - destruct (WorkerPool.release_worker n _ i) as [[r p'] i'] eqn:H.
    unfold WorkerPool.release_worker, WorkerPool.semaphore_release in H.
    unfold_monad. split_matches; unfold_views; try discriminate; reflexivity.
Qed.

Lemma refused_call_changes_nothing_witness :
  run_pool_call (call_del_worker 0)
    (Scenario.pool_of WorkerPool.WORKER_INACTIVE 1) Scenario.world0
  = Scenario.pool_of WorkerPool.WORKER_INACTIVE 1.
Proof.
  apply (refused_call_changes_nothing (call_del_worker 0)
           (Scenario.pool_of WorkerPool.WORKER_INACTIVE 1) Scenario.world0).
  vm_compute. reflexivity.
Defined.

Lemma find_inactive_some (ws : gmap Z WorkerPool.wstate) :
  (0 < inactive_count ws)%nat ->
  exists w w0,
    List.find (fun kv => WorkerPool.wstate_eqb (snd kv)
                              WorkerPool.WORKER_INACTIVE)
              (dict_items ws) = Some (w, w0).
Proof.
  intros Hpos.
  destruct (List.find _ (dict_items ws)) as [[w w0]|] eqn:Hfind; [eauto|].
  apply find_inactive_none in Hfind. lia.
Qed.

(** X9: under W1, [acquire_worker] without blocking returns [None] and
    changes nothing exactly when no worker is INACTIVE; otherwise it
    returns a worker that was INACTIVE, now BUSY with the job, with the side
    data given and a lease starting at the current time, and a permit
    less. *)
Theorem acquire_worker_takes_an_inactive_worker j sd p i :
  W1 p ->
  let r := WorkerPool.acquire_worker j false sd p i in
  match outcome r with
  | Ok None => inactive_count (WorkerPool.workers p) = 0%nat /\ state_of r = p
  | Ok (Some w) =>
      WorkerPool.workers p !! w = Some WorkerPool.WORKER_INACTIVE
      /\ WorkerPool.workers (state_of r) !! w = Some (WorkerPool.BUSY j)
      /\ WorkerPool.side_data (state_of r) !! w = Some sd
      /\ WorkerPool.start_time (state_of r) !! w = Some (Some (now i))
      /\ S (WorkerPool.semaphore (state_of r)) = WorkerPool.semaphore p
      /\ forall k, k <> w ->
           WorkerPool.workers (state_of r) !! k = WorkerPool.workers p !! k
  | Raise _ => False
  end.
Proof.
  intros HW r. subst r.
  destruct (WorkerPool.semaphore p) as [|m] eqn:Hsem.
  - assert (H : WorkerPool.acquire_worker j false sd p i = (Ok None, p, i)).
    { unfold WorkerPool.acquire_worker, WorkerPool.semaphore_acquire.
      unfold_monad. rewrite Hsem. reflexivity. }
    rewrite H. unfold_views. split; [|reflexivity].
    unfold W1 in HW. lia.
  - destruct (find_inactive_some (WorkerPool.workers p)) as (w & w0 & Hfind).
    { unfold W1 in HW. lia. }
    rewrite (acquire_worker_found j false sd p i m w w0 Hsem Hfind).
    unfold_views.
    apply find_in_pool_sound in Hfind as [Hw Heq].
    destruct w0; try discriminate Heq.
    rewrite !lookup_insert_eq.
    repeat (split; [first [assumption | reflexivity]|]).
    intros k Hk. apply lookup_insert_ne. congruence.
Qed.

Lemma acquire_worker_takes_an_inactive_worker_witness :
  let r := WorkerPool.acquire_worker ScenarioQueue.compile1 false
             (Some (1, 10)) (Scenario.pool_of WorkerPool.WORKER_INACTIVE 1)
             Scenario.world0 in
  outcome r = Ok (Some 0)
  /\ WorkerPool.workers (state_of r) !! 0
     = Some (WorkerPool.BUSY ScenarioQueue.compile1)
  /\ WorkerPool.side_data (state_of r) !! 0 = Some (Some (1, 10))
  /\ WorkerPool.semaphore (state_of r) = 0%nat.
Proof.
  pose proof (acquire_worker_takes_an_inactive_worker ScenarioQueue.compile1
                (Some (1, 10)) (Scenario.pool_of WorkerPool.WORKER_INACTIVE 1)
                Scenario.world0 ltac:(vm_compute; reflexivity)) as H.
  cbv zeta in *.
  assert (E : outcome (WorkerPool.acquire_worker ScenarioQueue.compile1 false
                         (Some (1, 10))
                         (Scenario.pool_of WorkerPool.WORKER_INACTIVE 1)
                         Scenario.world0) = Ok (Some 0))
    by (vm_compute; reflexivity).
  rewrite E in H. destruct H as (_ & H2 & H3 & _ & H5 & _).
  split; [exact E|]. split; [exact H2|]. split; [exact H3|].
  simpl in H5. lia.
Defined.

(** X10: a worker acquired and then released is INACTIVE again and the
    pool is as before the two calls, but for the side data of that worker,
    which is cleared; [release_worker] hands back the side data that
    [acquire_worker] was given. *)
Theorem acquire_then_release_restores_the_pool j b sd p i i' w :
  pool_ok p ->
  outcome (WorkerPool.acquire_worker j b sd p i) = Ok (Some w) ->
  let p1 := state_of (WorkerPool.acquire_worker j b sd p i) in
  outcome (WorkerPool.release_worker w p1 i') = Ok sd
  /\ state_of (WorkerPool.release_worker w p1 i')
     = WorkerPool.set_side_data <[w := None]> p.
Proof.
  intros Hok Hacq p1. subst p1.
  destruct (WorkerPool.acquire_worker j b sd p i) as [[r p1] i1] eqn:H.
  unfold_views. subst r.
  destruct (pool_ok_acquired j b sd p i w Hok) as (addr & n & Ha & Hn & Hsch).
  { rewrite H. reflexivity. }
  apply acquire_worker_some in H as (m & w0 & Hsem & Hfind & -> & _).
  apply find_in_pool_sound in Hfind as [Hw Heq].
  destruct w0; try discriminate Heq.
  erewrite release_worker_busy;
    [|simpl; apply lookup_insert_eq|simpl; apply lookup_insert_eq
     |simpl; exact Hsch].
  split; [reflexivity|]. simpl.
  pose proof (Hok w _ Hw) as Hwok. unfold worker_ok, lease_ok in Hwok.
  rewrite Hw in Hwok.
  destruct (WorkerPool.start_time p !! w) as [[t0|]|] eqn:Hst;
    try discriminate Hwok.
  destruct p as [ws sem st ad ec sdm sch]. simpl in *.
  unfold WorkerPool.set_side_data. simpl. subst sem.
  rewrite !insert_insert_eq.
  rewrite (insert_id ws w _ Hw), (insert_id st w _ Hst). reflexivity.
Qed.

Lemma acquire_then_release_restores_the_pool_witness :
  let p := Scenario.pool_of WorkerPool.WORKER_INACTIVE 1 in
  let p1 := state_of (WorkerPool.acquire_worker ScenarioQueue.compile1 false
                        (Some (1, 10)) p Scenario.world0) in
  outcome (WorkerPool.release_worker 0 p1 Scenario.world0)
  = Ok (Some (1, 10))
  /\ state_of (WorkerPool.release_worker 0 p1 Scenario.world0)
     = WorkerPool.set_side_data <[0 := None]> p.
Proof.
  apply (acquire_then_release_restores_the_pool ScenarioQueue.compile1 false
           (Some (1, 10)) (Scenario.pool_of WorkerPool.WORKER_INACTIVE 1)
           Scenario.world0 Scenario.world0 0).
  - intros k w Hk. unfold Scenario.pool_of in Hk. simpl in Hk.
    apply lookup_singleton_Some in Hk as [<- <-]. reflexivity.
  - vm_compute. reflexivity.
Defined.

(** X11: a worker that is added, disabled and deleted leaves no trace: if
    the pool had no record of worker [n], the three calls succeed and the
    pool is exactly what it was. *)
Theorem add_disable_del_leaves_no_trace n host port p i1 i2 i3 :
  unknown_worker p n ->
  let a := WorkerPool.add_worker n host port p i1 in
  let d := WorkerPool.disable_worker n (state_of a) i2 in
  let x := WorkerPool.del_worker n (state_of d) i3 in
  outcome a = Ok tt /\ outcome d = Ok tt /\ outcome x = Ok tt
  /\ state_of x = p.
Proof.
  intros (Hw & Hst & Had & Hec & Hsd & Hsch) a d x.
  destruct p as [ws sem st ad ec sd sch]. simpl in *.
  assert (Ha : a = (Ok tt,
                    WorkerPool.mk (<[n := WorkerPool.WORKER_INACTIVE]> ws)
                      (S sem) (<[n := None]> st) (<[n := (host, port)]> ad)
                      (<[n := 0]> ec) (<[n := None]> sd) (<[n := false]> sch),
                    world_of a)).
  { subst a. unfold WorkerPool.add_worker, WorkerPool.semaphore_release.
    unfold_monad. simpl.
    destruct (decide (n ∈ dom ws)) as [Hin|Hin].
    - apply elem_of_dom in Hin as [w0 Hin]. congruence.
    - reflexivity. }
  subst d x. rewrite Ha. unfold_views.
  erewrite disable_worker_inactive;
    [|reflexivity|simpl; apply lookup_insert_eq].
  simpl. split; [reflexivity|]. split; [reflexivity|].
  unfold WorkerPool.del_worker. unfold_monad. simpl.
  rewrite insert_insert_eq.
  destruct (decide (n ∉ dom (<[n := WorkerPool.WORKER_DISABLED]> ws)))
    as [Hout|_].
  { exfalso. apply Hout. apply elem_of_dom. rewrite lookup_insert_eq. eauto. }
  repeat (rewrite ?lookup_insert_eq, ?lookup_delete_eq; simpl).
  split; [reflexivity|].
  unfold WorkerPool.set_side_data, WorkerPool.set_schedule_disabling,
    WorkerPool.set_error_count, WorkerPool.set_address,
    WorkerPool.set_start_time, WorkerPool.set_workers. simpl.
  rewrite !delete_insert_id by assumption. reflexivity.
Qed.

(** X12: disabling an INACTIVE worker and enabling it again restores the
    pool exactly, permits included. *)
Theorem disable_then_enable_restores_the_pool n p i1 i2 :
  WorkerPool.workers p !! n = Some WorkerPool.WORKER_INACTIVE ->
  (0 < WorkerPool.semaphore p)%nat ->
  let d := WorkerPool.disable_worker n p i1 in
  let e := WorkerPool.enable_worker n (state_of d) i2 in
  outcome d = Ok tt /\ outcome e = Ok tt /\ state_of e = p.
Proof.
  intros Hw Hsem d e.
  destruct (WorkerPool.semaphore p) as [|m] eqn:Hm; [lia|].
  subst e d. rewrite (disable_worker_inactive n p i1 m Hm Hw).
  unfold_views. split; [reflexivity|].
  unfold WorkerPool.enable_worker, WorkerPool.semaphore_release.
  unfold_monad. simpl.
  destruct (decide (n ∉ dom (<[n := WorkerPool.WORKER_DISABLED]>
                               (WorkerPool.workers p)))) as [Hout|_].
  { exfalso. apply Hout. apply elem_of_dom. rewrite lookup_insert_eq. eauto. }
  repeat (rewrite ?lookup_insert_eq; simpl).
  split; [reflexivity|].
  unfold WorkerPool.set_semaphore, WorkerPool.set_workers. simpl.
  rewrite insert_insert_eq, (insert_id _ _ _ Hw).
  destruct p. simpl in *. subst. reflexivity.
Qed.

Lemma disable_then_enable_restores_the_pool_witness :
  let p := Scenario.pool_of WorkerPool.WORKER_INACTIVE 1 in
  let d := WorkerPool.disable_worker 0 p Scenario.world0 in
  let e := WorkerPool.enable_worker 0 (state_of d) Scenario.world0 in
  outcome d = Ok tt /\ outcome e = Ok tt /\ state_of e = p.
Proof.
  apply (disable_then_enable_restores_the_pool 0
           (Scenario.pool_of WorkerPool.WORKER_INACTIVE 1)
           Scenario.world0 Scenario.world0).
  - reflexivity.
  - simpl. lia.
Defined.

Lemma add_disable_del_leaves_no_trace_witness :
  let p := Scenario.pool_of WorkerPool.WORKER_INACTIVE 1 in
  let a := WorkerPool.add_worker 7 "worker7" 9007 p Scenario.world0 in
  let d := WorkerPool.disable_worker 7 (state_of a) Scenario.world0 in
  let x := WorkerPool.del_worker 7 (state_of d) Scenario.world0 in
  outcome a = Ok tt /\ outcome d = Ok tt /\ outcome x = Ok tt
  /\ state_of x = p.
Proof.
  apply (add_disable_del_leaves_no_trace 7 "worker7" 9007
           (Scenario.pool_of WorkerPool.WORKER_INACTIVE 1)
           Scenario.world0 Scenario.world0 Scenario.world0).
  repeat split; reflexivity.
Defined.

(** X13: [find_worker] looks without touching: the pool is unchanged; the
    worker it returns is registered in the state asked for, and it fails,
    with [LookupError] and nothing else, exactly when no worker is in that
    state. *)
Theorem find_worker_is_sound_and_complete v p i :
  state_of (WorkerPool.find_worker v p i) = p
  /\ match outcome (WorkerPool.find_worker v p i) with
     | Ok k =>
         exists w, WorkerPool.workers p !! k = Some w
                   /\ WorkerPool.wstate_eqb w v = true
     | Raise e =>
         e = LookupError
         /\ forall k w, WorkerPool.workers p !! k = Some w ->
                        WorkerPool.wstate_eqb w v = false
     end.
Proof.
  unfold WorkerPool.find_worker. unfold_monad.
  destruct (List.find _ (dict_items (WorkerPool.workers p)))
    as [[k w]|] eqn:Hfind; unfold_views; (split; [reflexivity|]).
  - apply find_in_pool_sound in Hfind. eauto.
  - split; [reflexivity|]. exact (find_in_pool_none _ _ Hfind).
Qed.

Lemma inactive_count_revoke_all vs : forall p,
  (forall k, In k vs -> inactive_at (WorkerPool.workers p) k = false) ->
  inactive_count (WorkerPool.workers (foldl revoke p vs))
  = inactive_count (WorkerPool.workers p).
Proof.
  induction vs as [|v vs IH]; intros p Hvs; simpl; [reflexivity|].
  rewrite IH.
  - unfold revoke. simpl.
    pose proof (inactive_count_insert (WorkerPool.workers p) v
                  WorkerPool.WORKER_DISABLED) as H.
    rewrite (Hvs v (or_introl eq_refl)) in H. simpl in H. lia.
  - intros k Hk. unfold revoke, inactive_at. simpl.
    destruct (decide (k = v)) as [->|Hne].
    + rewrite lookup_insert_eq. reflexivity.
    + rewrite lookup_insert_ne by congruence.
      apply (Hvs k). right. exact Hk.
Qed.

Lemma check_timeout_keeps_pool p i :
  pool_ok p -> W1 p ->
  pool_ok (state_of (WorkerPool.check_timeout p i))
  /\ W1 (state_of (WorkerPool.check_timeout p i)).
Proof.
  intros Hok HW.
  destruct (check_timeout_result p i (pool_ok_leases p Hok))
    as (i' & new & Hrun & _).
  pose proof (pool_ok_check_timeout p i Hok) as Hok'.
  rewrite Hrun in *. unfold_views. split; [exact Hok'|].
  unfold W1 in *. rewrite revoke_all_semaphore, inactive_count_revoke_all;
    [exact HW|].
  intros k Hk. apply filter_In in Hk as [_ Hlate].
  pose proof (pool_ok_leases p Hok) as Hl.
  unfold expired in Hlate. unfold inactive_at.
  destruct (WorkerPool.workers p !! k) as [w|] eqn:Hw; [|reflexivity].
  specialize (Hl k w Hw). simpl in Hl. unfold lease_ok in Hl.
  rewrite Hw in Hl.
  destruct (WorkerPool.start_time p !! k) as [[t0|]|]; try discriminate.
  destruct w; try discriminate Hl. reflexivity.
Qed.

(** X14: [check_timeout] of a pool with complete records never raises, and
    it keeps the pool in order: the records stay complete and the semaphore
    still counts the INACTIVE workers -- a worker whose lease is revoked
    ends up DISABLED, so no permit is given back for it. *)
Theorem check_timeout_keeps_the_pool_in_order p i :
  pool_ok p ->
  W1 p ->
  let r := WorkerPool.check_timeout p i in
  (exists lost, outcome r = Ok lost)
  /\ pool_ok (state_of r)
  /\ W1 (state_of r)
  /\ WorkerPool.semaphore (state_of r) = WorkerPool.semaphore p.
Proof.
  intros Hok HW r. subst r.
  destruct (check_timeout_keeps_pool p i Hok HW) as [Hok' HW'].
  destruct (check_timeout_result p i (pool_ok_leases p Hok))
    as (i' & new & Hrun & _).
  rewrite Hrun in *. unfold_views.
  split; [eauto|]. split; [exact Hok'|]. split; [exact HW'|].
  apply revoke_all_semaphore.
Qed.

Lemma check_timeout_keeps_the_pool_in_order_witness :
  let r := WorkerPool.check_timeout Scenario.busy_pool ScenarioTimeout.late in
  (exists lost, outcome r = Ok lost)
  /\ pool_ok (state_of r)
  /\ W1 (state_of r)
  /\ WorkerPool.semaphore (state_of r)
     = WorkerPool.semaphore Scenario.busy_pool.
Proof.
  apply (check_timeout_keeps_the_pool_in_order Scenario.busy_pool
           ScenarioTimeout.late).
  - intros k w Hk. unfold Scenario.busy_pool in Hk. simpl in Hk.
    apply lookup_singleton_Some in Hk as [<- <-]. reflexivity.
  - vm_compute. reflexivity.
Defined.

(** ** JobDispatcher: dispatching *)

Lemma dispatch_rpc_ok k id addr (d : JobDispatcher.t) i :
  job_type_eqb k JOB_TYPE_BOMB = false ->
  rpc_raises i addr (dispatch_rpc k id) = false ->
  (if job_type_eqb k JOB_TYPE_COMPILATION then rpc addr (rpc_compile id)
   else if job_type_eqb k JOB_TYPE_EVALUATION then rpc addr (rpc_evaluate id)
   else ret tt) d i
  = (Ok tt, d, emit (EvRpc addr (dispatch_rpc k id)) i).
Proof.
  intros Hk Hr. destruct k; try discriminate; simpl in *; unfold rpc;
    rewrite Hr; reflexivity.
Qed.

(** A dispatch that goes through: the worker found is BUSY on the job with
    the priority and timestamp of the entry as side data, the request has
    been sent, the queue is untouched. *)
Lemma check_action_rpc_ok d i priority timestamp k sub m w w0 addr :
  job_type_eqb k JOB_TYPE_BOMB = false ->
  WorkerPool.semaphore (JobDispatcher.workers d) = S m ->
  List.find (fun kv => WorkerPool.wstate_eqb (snd kv)
                            WorkerPool.WORKER_INACTIVE)
            (dict_items (WorkerPool.workers (JobDispatcher.workers d)))
  = Some (w, w0) ->
  WorkerPool.address (JobDispatcher.workers d) !! w = Some addr ->
  rpc_raises i addr (dispatch_rpc k (couch_id sub)) = false ->
  exists i',
    JobDispatcher.check_action priority timestamp (k, Some sub) d i
    = (Ok JobDispatcher.ACTION_OK,
       JobDispatcher.set_workers
         (WorkerPool.mk
            (<[w := WorkerPool.BUSY (k, Some sub)]>
               (WorkerPool.workers (JobDispatcher.workers d)))
            m
            (<[w := Some (now i)]>
               (WorkerPool.start_time (JobDispatcher.workers d)))
            (WorkerPool.address (JobDispatcher.workers d))
            (WorkerPool.error_count (JobDispatcher.workers d))
            (<[w := Some (priority, timestamp)]>
               (WorkerPool.side_data (JobDispatcher.workers d)))
            (WorkerPool.schedule_disabling (JobDispatcher.workers d)))
         d,
       i')
    /\ only_events i i'
    /\ EvRpc addr (dispatch_rpc k (couch_id sub)) ∈ events i'.
Proof.
  intros Hk Hs Hf Haddr Hrpc.
  unfold JobDispatcher.check_action. cbv zeta. cbn [fst snd]. rewrite Hk.
  unfold JobDispatcher.on_workers.
  erewrite bind_ok
    by (apply zoom_eq; apply (acquire_worker_found _ _ _ _ _ m w w0 Hs Hf)).
  cbv beta iota.
  erewrite bind_ok
    by (apply zoom_eq; unfold getitem; simpl; rewrite lookup_insert_eq;
        reflexivity).
  erewrite bind_ok by reflexivity.
  erewrite bind_ok
    by (apply zoom_eq; unfold getitem; simpl; rewrite Haddr; reflexivity).
  erewrite bind_ok by reflexivity.
  erewrite bind_ok by reflexivity.
  erewrite bind_ok by reflexivity.
  erewrite bind_ok by reflexivity.
  unfold try_except.
  erewrite bind_ok by (apply dispatch_rpc_ok; [exact Hk|exact Hrpc]).
  simpl. destruct d as [q p b t]. simpl.
  eexists. split; [reflexivity|]. split; [solve_only_events|].
  simpl. left.
Qed.

Lemma look_at_top_empty d i :
  JobQueue.queue (JobDispatcher.queue d) = [] ->
  try_except (e <~ JobDispatcher.on_queue JobQueue.top; ret (Some e))
    (fun e => match e with
              | LookupError => ret None
              | _ => raise e
              end) d i
  = (Ok None, d, after_top i).
Proof.
  intros Hq. unfold try_except, JobDispatcher.on_queue, JobQueue.top.
  unfold_monad. destruct d as [[q s] p b t]. simpl in *. subst q.
  reflexivity.
Qed.

Lemma look_at_top_head d i e :
  JobQueue.queue (JobDispatcher.queue d) !! 0%nat = Some e ->
  try_except (e <~ JobDispatcher.on_queue JobQueue.top; ret (Some e))
    (fun e => match e with
              | LookupError => ret None
              | _ => raise e
              end) d i
  = (Ok (Some e), d, after_top i).
Proof.
  intros Hq. unfold try_except, JobDispatcher.on_queue.
  erewrite bind_ok by (apply zoom_eq; apply top_head; exact Hq).
  rewrite set_queue_same. reflexivity.
Qed.

(** ** JobDispatcher: the retry after a failed dispatch *)

Lemma set_workers_same d :
  JobDispatcher.set_workers (JobDispatcher.workers d) d = d.
Proof. destruct d. reflexivity. Qed.

Lemma check_action_no_permit priority timestamp j d i :
  job_type_eqb (fst j) JOB_TYPE_BOMB = false ->
  WorkerPool.semaphore (JobDispatcher.workers d) = 0%nat ->
  JobDispatcher.check_action priority timestamp j d i
  = (Ok JobDispatcher.ACTION_FAIL, d, i).
Proof.
  intros Hk Hsem. unfold JobDispatcher.check_action. cbv zeta. rewrite Hk.
  unfold JobDispatcher.on_workers.
  erewrite bind_ok.
  2:{ apply zoom_eq. unfold WorkerPool.acquire_worker,
        WorkerPool.semaphore_acquire. unfold_monad. rewrite Hsem.
      reflexivity. }
  rewrite set_workers_same. reflexivity.
Qed.












Lemma pop_only_events q i r q' i' :
  JobQueue.pop q i = (r, q', i') -> only_events i i'.
Proof.
  unfold JobQueue.pop, JobQueue.semaphore_acquire. unfold_monad.
  intros H. split_matches; solve_only_events.
Qed.

Lemma workers_answer_later i i' :
  only_events i i' -> workers_answer i -> workers_answer i'.
Proof.
  intros (_ & _ & Hr & _) H addr c. rewrite Hr. apply H.
Qed.

Lemma holds_entry_acquired (p : WorkerPool.t) w j priority timestamp m st e :
  WorkerPool.workers p !! w = Some WorkerPool.WORKER_INACTIVE ->
  holds_entry p e ->
  holds_entry
    (WorkerPool.mk (<[w := WorkerPool.BUSY j]> (WorkerPool.workers p)) m st
       (WorkerPool.address p) (WorkerPool.error_count p)
       (<[w := Some (priority, timestamp)]> (WorkerPool.side_data p))
       (WorkerPool.schedule_disabling p)) e.
Proof.
  intros Hw (w' & Hb & Hsd). exists w'. simpl.
  assert (w' <> w) by congruence.
  rewrite !lookup_insert_ne by congruence. split; assumption.
Qed.

(** With a worker to spare for every queued job and workers that answer,
    the loop of [process_queue] empties the queue. *)
Lemma process_queue_loop_drains fuel : forall d i,
  dispatcher_ok d ->
  Forall (fun e => dispatchable e = true)
         (JobQueue.queue (JobDispatcher.queue d)) ->
  (length (JobQueue.queue (JobDispatcher.queue d))
   <= WorkerPool.semaphore (JobDispatcher.workers d))%nat ->
  (length (JobQueue.queue (JobDispatcher.queue d)) < fuel)%nat ->
  workers_answer i ->
  exists d' i',
    JobDispatcher.process_queue_loop fuel d i = (Ok tt, d', i')
    /\ only_events i i'
    /\ dispatcher_ok d'
    /\ JobQueue.queue (JobDispatcher.queue d') = []
    /\ (WorkerPool.semaphore (JobDispatcher.workers d')
        + length (JobQueue.queue (JobDispatcher.queue d))
        = WorkerPool.semaphore (JobDispatcher.workers d))%nat
    /\ (forall e, e ∈ JobQueue.queue (JobDispatcher.queue d) ->
                  holds_entry (JobDispatcher.workers d') e)
    /\ (forall e, holds_entry (JobDispatcher.workers d) e ->
                  holds_entry (JobDispatcher.workers d') e)
    /\ (forall e, e ∈ JobQueue.queue (JobDispatcher.queue d) ->
                  request_sent i' e)
    /\ JobDispatcher.bomb_primed d' = JobDispatcher.bomb_primed d
    /\ JobDispatcher.touched d' = JobDispatcher.touched d.
Proof.
  induction fuel as [|fuel IH]; intros d i Hok Hdisp Hperm Hfuel Hans;
    [lia|].
  cbn [JobDispatcher.process_queue_loop].
  destruct (decide (JobQueue.queue (JobDispatcher.queue d) = [])) as [Hq|Hq].
  { erewrite bind_ok by (apply look_at_top_empty; exact Hq).
    exists d, (after_top i). split; [reflexivity|].
    split; [unfold after_top; solve_only_events|].
    split; [exact Hok|]. split; [exact Hq|].
    rewrite Hq. split; [simpl; lia|]. split.
    - intros e He. apply elem_of_nil in He. destruct He.
    - split; [intros e He; exact He|].
      split; [|split; reflexivity].
      intros e He. apply elem_of_nil in He. destruct He. }
  destruct Hok as (HQ2 & Hheap & Hpool & HW1).
  destruct (pop_returns_first (JobDispatcher.queue d) (after_top i)
              HQ2 Hheap Hq) as (e & _ & Hhead & _).
  erewrite bind_ok by (apply look_at_top_head; exact Hhead).
  destruct e as [[priority timestamp] [k osub]].
  assert (He : dispatchable (priority, timestamp, (k, osub)) = true).
  { rewrite Forall_forall in Hdisp. apply Hdisp.
    eapply list_elem_of_lookup_2. exact Hhead. }
  unfold dispatchable in He. simpl in He.
  apply andb_true_iff in He as [Hk Hsub].
  apply negb_true_iff in Hk.
  destruct osub as [sub|]; [|discriminate].
  destruct (WorkerPool.semaphore (JobDispatcher.workers d)) as [|m] eqn:Hsem.
  { destruct (JobQueue.queue (JobDispatcher.queue d));
      [exfalso; apply Hq; reflexivity|].
    simpl in Hperm. lia. }
  destruct (find_inactive_some (WorkerPool.workers (JobDispatcher.workers d)))
    as (w & w0 & Hfind).
  { unfold W1 in HW1. lia. }
  pose proof (find_in_pool_sound _ _ _ _ Hfind) as [Hw Hw0].
  destruct w0; try discriminate Hw0.
  assert (Haddr : exists addr,
            WorkerPool.address (JobDispatcher.workers d) !! w = Some addr).
  { pose proof (Hpool w _ Hw) as Hwok. simpl in Hwok. unfold worker_ok in Hwok.
    destruct (WorkerPool.address (JobDispatcher.workers d) !! w); [eauto|].
    rewrite andb_false_r in Hwok. discriminate. }
  destruct Haddr as [addr Haddr].
  destruct (check_action_rpc_ok d (after_top i) priority timestamp k sub m w
              WorkerPool.WORKER_INACTIVE addr Hk Hsem Hfind Haddr
              (workers_answer_later i (after_top i)
                 ltac:(unfold after_top; solve_only_events) Hans _ _))
    as (i1 & Hact & Hev1 & Hsent1).
  erewrite bind_ok by exact Hact.
  set (p1 := WorkerPool.mk _ _ _ _ _ _ _) in *.
  set (d1 := JobDispatcher.set_workers p1 d) in *.
  assert (Hp1 : p1 = state_of (WorkerPool.acquire_worker (k, Some sub) false
                                 (Some (priority, timestamp))
                                 (JobDispatcher.workers d) (after_top i))).
  { rewrite (acquire_worker_found _ false _ _ _ m w _ Hsem Hfind).
    reflexivity. }
  assert (Hq1 : JobDispatcher.queue d1 = JobDispatcher.queue d)
    by reflexivity.
  destruct (pop_returns_first (JobDispatcher.queue d) i1 HQ2 Hheap Hq)
    as (e' & Hpo & Hhead' & _ & Hpermq & Hheap' & HQ2').
  rewrite Hhead in Hhead'. symmetry in Hhead'. inversion Hhead'. subst e'.
  clear Hhead'.
  destruct (JobQueue.pop (JobDispatcher.queue d) i1) as [[r q2] i2] eqn:Epop.
  unfold_views. subst r.
  unfold JobDispatcher.on_queue.
  erewrite bind_ok by (apply zoom_eq; exact Epop).
  set (d2 := JobDispatcher.set_queue q2 d1) in *.
  assert (Hlen : length (JobQueue.queue (JobDispatcher.queue d))
                 = S (length (JobQueue.queue q2))).
  { rewrite Hpermq. reflexivity. }
  destruct (IH d2 i2) as (d' & i' & Hrun & Hev & Hok' & Hempty & Hsem'
                          & Hheld & Hkept & Hsent & Hbomb & Htouched).
  { repeat split; simpl.
    - exact HQ2'.
    - exact Hheap'.
    - rewrite Hp1. apply pool_ok_acquire_worker. exact Hpool.
    - rewrite Hp1. apply W1_acquire_worker. exact HW1. }
  { simpl. rewrite Forall_forall in *. intros x Hx. apply Hdisp.
    rewrite Hpermq. right. exact Hx. }
  { simpl. lia. }
  { simpl. lia. }
  { eapply workers_answer_later; [|exact Hans].
    eapply only_events_trans; [|eapply pop_only_events; exact Epop].
    eapply only_events_trans; [|exact Hev1].
    unfold after_top. solve_only_events. }
  exists d', i'. split; [exact Hrun|].
  split.
  { eapply only_events_trans; [|exact Hev].
    eapply only_events_trans; [|eapply pop_only_events; exact Epop].
    eapply only_events_trans; [|exact Hev1].
    unfold after_top. solve_only_events. }
  split; [exact Hok'|]. split; [exact Hempty|].
  split; [simpl in Hsem'; lia|].
  split; [|split; [|split]].
  - intros x Hx. rewrite Hpermq in Hx.
    apply elem_of_cons in Hx as [->|Hx].
    + apply Hkept. exists w. simpl. rewrite !lookup_insert_eq.
      split; reflexivity.
    + apply Hheld. exact Hx.
  - intros x Hx. apply Hkept. simpl.
    apply holds_entry_acquired; assumption.
  - intros x Hx. rewrite Hpermq in Hx.
    apply elem_of_cons in Hx as [->|Hx]; [|apply Hsent; exact Hx].
    unfold request_sent. simpl. exists addr.
    eapply elem_of_suffix; [exact Hsent1|].
    eapply only_events_trans in Hev;
      [|eapply pop_only_events; exact Epop].
    apply Hev.
  - simpl in Hbomb, Htouched. split; assumption.
Qed.

(** X15: with the dispatcher in order, every queued entry a compilation or
    an evaluation of a submission, at least as many permits as entries and
    workers that answer, one pass of [process_queue] returns having emptied
    the queue: for every entry a request has gone out and some worker is
    BUSY with its job, carrying its priority and timestamp; one permit is
    gone per entry, and the dispatcher is still in order. *)
Theorem process_queue_hands_out_every_job d i :
  dispatcher_ok d ->
  Forall (fun e => dispatchable e = true)
         (JobQueue.queue (JobDispatcher.queue d)) ->
  (length (JobQueue.queue (JobDispatcher.queue d))
   <= WorkerPool.semaphore (JobDispatcher.workers d))%nat ->
  workers_answer i ->
  let r := JobDispatcher.process_queue d i in
  outcome r = Ok tt
  /\ JobQueue.queue (JobDispatcher.queue (state_of r)) = []
  /\ (forall e, e ∈ JobQueue.queue (JobDispatcher.queue d) ->
                holds_entry (JobDispatcher.workers (state_of r)) e
                /\ request_sent (world_of r) e)
  /\ (WorkerPool.semaphore (JobDispatcher.workers (state_of r))
      + length (JobQueue.queue (JobDispatcher.queue d))
      = WorkerPool.semaphore (JobDispatcher.workers d))%nat
  /\ dispatcher_ok (state_of r).
Proof.
  intros Hok Hdisp Hperm Hans r. subst r.
  unfold JobDispatcher.process_queue, with_lock.
  erewrite bind_ok by reflexivity.
  destruct (process_queue_loop_drains
              (S (WorkerPool.semaphore (JobDispatcher.workers d))) d
              (emit (EvAcquire DispatcherLock) i) Hok Hdisp Hperm
              ltac:(lia)
              (workers_answer_later i _ ltac:(solve_only_events) Hans))
    as (d' & i' & -> & Hev & Hok' & Hempty & Hsem & Hheld & _ & Hsent & _).
  unfold_views. split; [reflexivity|]. split; [exact Hempty|].
  split; [|split; assumption].
  intros e He. split; [apply Hheld; exact He|].
  specialize (Hsent e He). unfold request_sent in *.
  destruct (snd (snd e)) as [sub|]; [|exact Hsent].
  destruct Hsent as [addr Hin]. exists addr. simpl. right. exact Hin.
Qed.

Lemma process_queue_hands_out_every_job_witness :
  let r := JobDispatcher.process_queue ScenarioDispatch.two_jobs
             Scenario.world0 in
  outcome r = Ok tt
  /\ JobQueue.queue (JobDispatcher.queue (state_of r)) = []
  /\ (forall e,
        e ∈ JobQueue.queue (JobDispatcher.queue ScenarioDispatch.two_jobs) ->
        holds_entry (JobDispatcher.workers (state_of r)) e
        /\ request_sent (world_of r) e)
  /\ (WorkerPool.semaphore (JobDispatcher.workers (state_of r)) + 2
      = 2)%nat
  /\ dispatcher_ok (state_of r).
Proof.
  apply (process_queue_hands_out_every_job ScenarioDispatch.two_jobs
           Scenario.world0).
  - split; [reflexivity|]. split; [apply is_heap_sound; reflexivity|].
    split; [|vm_compute; reflexivity].
    unfold pool_ok. apply (bool_decide_unpack _). vm_compute. exact I.
  - repeat constructor.
  - vm_compute. lia.
  - intros addr c. reflexivity.
Defined.

(** X16: [process_queue] does nothing when there is nothing it can do:
    on an empty queue, and on a queue whose head is not the bomb while the
    pool has no permit left, it returns and leaves queue, workers and flags
    exactly as they were. *)
Theorem process_queue_idles d i :
  JobQueue.queue (JobDispatcher.queue d) = []
  \/ (WorkerPool.semaphore (JobDispatcher.workers d) = 0%nat
      /\ exists priority timestamp j,
           JobQueue.queue (JobDispatcher.queue d) !! 0%nat
           = Some (priority, timestamp, j)
           /\ job_type_eqb (fst j) JOB_TYPE_BOMB = false) ->
  outcome (JobDispatcher.process_queue d i) = Ok tt
  /\ state_of (JobDispatcher.process_queue d i) = d.
Proof.
  intros H. unfold JobDispatcher.process_queue, with_lock.
  erewrite bind_ok by reflexivity.
  cbn [JobDispatcher.process_queue_loop].
  destruct H as [Hq|(Hsem & priority & timestamp & j & Hhead & Hk)].
  - erewrite bind_ok by (apply look_at_top_empty; exact Hq).
    unfold_views. split; reflexivity.
  - erewrite bind_ok by (apply look_at_top_head; exact Hhead).
    cbv beta iota.
    erewrite bind_ok by (apply check_action_no_permit; assumption).
    unfold_views. split; reflexivity.
Qed.

Lemma process_queue_idles_witness :
  outcome (JobDispatcher.process_queue ScenarioAux.asleep Scenario.world0)
  = Ok tt
  /\ state_of (JobDispatcher.process_queue ScenarioAux.asleep Scenario.world0)
     = ScenarioAux.asleep.
Proof.
  apply (process_queue_idles ScenarioAux.asleep Scenario.world0).
  left. reflexivity.
Defined.

Lemma queue_push_run j priority ts d i :
  exists i',
    JobDispatcher.queue_push j priority ts d i
    = (Ok tt,
       JobDispatcher.mk
         (JobQueue.mk
            (heapq.heappush entry_ltb (JobQueue.queue (JobDispatcher.queue d))
               (priority, pushed_timestamp j ts i, j))
            (S (JobQueue.semaphore (JobDispatcher.queue d))))
         (JobDispatcher.workers d) (JobDispatcher.bomb_primed d) true,
       i')
    /\ only_events i i'.
Proof.
  unfold JobDispatcher.queue_push, JobDispatcher.on_queue, JobQueue.push,
    JobQueue.semaphore_release, JobQueue.job_timestamp,
    JobDispatcher.touched_set, pushed_timestamp.
  destruct d as [[q s] p b t].
  destruct ts as [t0|]; [|destruct (snd j) as [sub|]];
    unfold_monad; simpl; eexists; (split; [reflexivity|]);
    solve_only_events.
Qed.

(** The loop of [JobDispatcher.check_timeout]: every lost job goes back
    to the queue under its own priority and timestamp. *)
Lemma requeue_lost_jobs lost : forall d i,
  Forall (fun e : entry => is_Some (snd (snd e))) lost ->
  Q2 (JobDispatcher.queue d) ->
  heap_ordered key_le (JobQueue.queue (JobDispatcher.queue d)) ->
  exists d' i',
    for_each lost tt
      (fun _ e =>
         let '(priority, timestamp, j) := e in
         match snd j with
         | Some _ =>
             Utils_log "Requeuing job (%s, %s), lost because of timeouting worker"
                       SEVERITY_NORMAL
         | None => raise AttributeError
         end;;
         JobDispatcher.queue_push j priority (Some timestamp)) d i
    = (Ok tt, d', i')
    /\ only_events i i'
    /\ JobQueue.queue (JobDispatcher.queue d')
       ≡ₚ (lost ++ JobQueue.queue (JobDispatcher.queue d))%list
    /\ Q2 (JobDispatcher.queue d')
    /\ heap_ordered key_le (JobQueue.queue (JobDispatcher.queue d'))
    /\ JobDispatcher.workers d' = JobDispatcher.workers d
    /\ JobDispatcher.bomb_primed d' = JobDispatcher.bomb_primed d
    /\ JobDispatcher.touched d'
       = match lost with [] => JobDispatcher.touched d | _ => true end.
Proof.
  induction lost as [|[[priority timestamp] j] lost IH];
    intros d i Hsub HQ2 Hheap; cbn [for_each].
  { exists d, i. split; [reflexivity|]. split; [apply only_events_refl|].
    split; [reflexivity|]. split; [exact HQ2|]. split; [exact Hheap|].
    repeat split. }
  apply Forall_cons in Hsub as [[sub Hj] Hsub]. simpl in Hj.
  rewrite Hj.
  destruct (queue_push_run j priority (Some timestamp) d
              (emit (EvLog "Requeuing job (%s, %s), lost because of timeouting worker"
                           SEVERITY_NORMAL) i)) as (i1 & E & Hev1).
  erewrite bind_ok by (erewrite bind_ok by reflexivity; exact E).
  cbn [pushed_timestamp] in E.
  match type of E with _ = (_, ?x, _) => set (d1 := x) in * end.
  destruct (queue_heappush (JobQueue.queue (JobDispatcher.queue d))
              (priority, timestamp, j) Hheap) as [Hheap1 Hperm1].
  destruct (IH d1 i1 Hsub) as (d' & i' & Hrun & Hev & Hperm & HQ2' & Hheap'
                               & Hw & Hb & Ht).
  { unfold Q2. simpl. rewrite heappush_length. rewrite HQ2. reflexivity. }
  { exact Hheap1. }
  exists d', i'. split; [exact Hrun|]. split.
  { eapply only_events_trans; [|exact Hev].
    eapply only_events_trans; [|exact Hev1]. solve_only_events. }
  split.
  { rewrite Hperm. simpl. rewrite Hperm1.
    symmetry. apply Permutation_middle. }
  split; [exact HQ2'|]. split; [exact Hheap'|].
  split; [exact Hw|]. split; [exact Hb|].
  rewrite Ht. destruct lost; reflexivity.
Qed.

(** X17: [JobDispatcher.check_timeout] loses no job: with the dispatcher
    in order and every job held by an expired worker the job of a
    submission, it returns; the leases of the expired workers are revoked,
    and the queue afterwards holds the entries it had and, for each expired
    worker, the job it held under the priority and timestamp it was taken
    with; the dispatcher is still in order. *)
Theorem check_timeout_requeues_the_lost_jobs d i :
  dispatcher_ok d ->
  let p := JobDispatcher.workers d in
  let late :=
    List.filter (expired (now i) (worker_timeout (config i)) p) (visited p) in
  Forall (fun e : entry => is_Some (snd (snd e))) (omap (lost_entry p) late) ->
  let r := JobDispatcher.check_timeout d i in
  outcome r = Ok tt
  /\ JobQueue.queue (JobDispatcher.queue (state_of r))
     ≡ₚ (omap (lost_entry p) late
          ++ JobQueue.queue (JobDispatcher.queue d))%list
  /\ JobDispatcher.workers (state_of r) = foldl revoke p late
  /\ dispatcher_ok (state_of r).
Proof.
  intros (HQ2 & Hheap & Hpool & HW1) p late Hsub r. subst r.
  unfold JobDispatcher.check_timeout.
  erewrite bind_ok by reflexivity.
  set (i1 := emit _ i).
  destruct (check_timeout_result p i1 (pool_ok_leases p Hpool))
    as (i2 & new & E & _).
  change (now i1) with (now i) in E. change (config i1) with (config i) in E.
  fold late in E.
  unfold JobDispatcher.on_workers.
  erewrite bind_ok by (apply zoom_eq; exact E).
  set (d1 := JobDispatcher.set_workers (foldl revoke p late) d).
  destruct (requeue_lost_jobs (omap (lost_entry p) late) d1 i2 Hsub HQ2 Hheap)
    as (d' & i' & Hrun & _ & Hperm & HQ2' & Hheap' & Hw & _).
  erewrite bind_ok by exact Hrun.
  unfold_views.
  split; [reflexivity|]. split; [exact Hperm|]. split; [exact Hw|].
  split; [exact HQ2'|]. split; [exact Hheap'|]. rewrite Hw. simpl.
  pose proof (check_timeout_keeps_pool p i1 Hpool HW1) as Hkeep.
  rewrite E in Hkeep. exact Hkeep.
Qed.

Lemma check_timeout_requeues_the_lost_jobs_witness :
  let r := JobDispatcher.check_timeout ScenarioRequeue.waiting
             ScenarioTimeout.late in
  outcome r = Ok tt
  /\ JobQueue.queue (JobDispatcher.queue (state_of r))
     ≡ₚ [(JOB_PRIORITY_HIGH, 10, ScenarioQueue.compile1)]
  /\ JobDispatcher.workers (state_of r) = revoke Scenario.busy_pool 0
  /\ dispatcher_ok (state_of r).
Proof.
  apply (check_timeout_requeues_the_lost_jobs ScenarioRequeue.waiting
           ScenarioTimeout.late).
  - split; [reflexivity|]. split; [apply is_heap_sound; reflexivity|].
    split; [|vm_compute; reflexivity].
    unfold pool_ok. apply (bool_decide_unpack _). vm_compute. exact I.
  - vm_compute. repeat constructor. eauto.
Defined.

Lemma on_workers_state {A} (m : M WorkerPool.t A) d i :
  state_of (JobDispatcher.on_workers m d i)
  = JobDispatcher.set_workers (state_of (m (JobDispatcher.workers d) i)) d.
Proof.
  unfold JobDispatcher.on_workers, zoom.
  destruct (m (JobDispatcher.workers d) i) as [[r p'] i']. reflexivity.
Qed.

(** X18: the auxiliary operations of the dispatcher keep it in order,
    whether they succeed or are refused: after [queue_push],
    [queue_set_priority], [release_worker], [enable_worker], [add_worker]
    or [del_worker], the queue is still a heap counted by its semaphore, the
    records of the pool are complete and its semaphore counts the INACTIVE
    workers. *)
Theorem auxiliary_operations_keep_the_dispatcher_in_order c d i :
  dispatcher_ok d ->
  dispatcher_ok (state_of (run_aux_call c d i)).
Proof.
  intros (HQ2 & Hheap & Hpool & HW1).
  destruct c as [j p ts|j p|n|n|n h pt|n]; simpl.
  - destruct (queue_push_run j p ts d i) as (i' & -> & _). unfold_views.
    destruct (queue_heappush _ (p, pushed_timestamp j ts i, j) Hheap)
      as [Hheap' _].
    split; [|split; [exact Hheap'|split; assumption]].
    unfold Q2. simpl. rewrite heappush_length, HQ2. reflexivity.
  - destruct (queue_set_priority_raises j p d i) as (e & i' & -> & _).
    unfold_views. repeat split; assumption.
  - unfold JobDispatcher.release_worker, with_lock, JobDispatcher.touched_set.
    unfold bind, modify, ret.
    pose proof (on_workers_state (WorkerPool.release_worker n) d
                  (emit (EvAcquire DispatcherLock) i)) as Hs.
    pose proof (pool_ok_release_worker n (JobDispatcher.workers d)
                  (emit (EvAcquire DispatcherLock) i) Hpool) as Hp.
    pose proof (W1_release_worker n (JobDispatcher.workers d)
                  (emit (EvAcquire DispatcherLock) i) HW1) as Hw.
    destruct (JobDispatcher.on_workers _ d _) as [[[r|e] d1] i1];
      unfold_views; subst d1; repeat split; assumption.
  - unfold JobDispatcher.enable_worker, with_lock, JobDispatcher.touched_set.
    unfold bind, modify, ret.
    pose proof (on_workers_state (WorkerPool.enable_worker n) d
                  (emit (EvAcquire DispatcherLock) i)) as Hs.
    pose proof (pool_ok_enable_worker n (JobDispatcher.workers d)
                  (emit (EvAcquire DispatcherLock) i) Hpool) as Hp.
    pose proof (W1_enable_worker n (JobDispatcher.workers d)
                  (emit (EvAcquire DispatcherLock) i) HW1) as Hw.
    destruct (JobDispatcher.on_workers _ d _) as [[[r|e] d1] i1];
      unfold_views; subst d1; repeat split; assumption.
  - unfold JobDispatcher.add_worker, with_lock, JobDispatcher.touched_set.
    unfold bind, modify, ret.
    pose proof (on_workers_state (WorkerPool.add_worker n h pt) d
                  (emit (EvAcquire DispatcherLock) i)) as Hs.
    pose proof (pool_ok_add_worker n h pt (JobDispatcher.workers d)
                  (emit (EvAcquire DispatcherLock) i) Hpool) as Hp.
    pose proof (W1_add_worker n h pt (JobDispatcher.workers d)
                  (emit (EvAcquire DispatcherLock) i) HW1) as Hw.
    destruct (JobDispatcher.on_workers _ d _) as [[[r|e] d1] i1];
      unfold_views; subst d1; repeat split; assumption.
  - unfold JobDispatcher.del_worker, with_lock.
    pose proof (on_workers_state (WorkerPool.del_worker n) d
                  (emit (EvAcquire DispatcherLock) i)) as Hs.
    pose proof (pool_ok_del_worker n (JobDispatcher.workers d)
                  (emit (EvAcquire DispatcherLock) i) Hpool) as Hp.
    pose proof (W1_del_worker n (JobDispatcher.workers d)
                  (emit (EvAcquire DispatcherLock) i) HW1) as Hw.
    destruct (JobDispatcher.on_workers _ d _) as [[[r|e] d1] i1];
      unfold_views; subst d1; repeat split; assumption.
Qed.

Lemma auxiliary_operations_keep_the_dispatcher_in_order_witness :
  dispatcher_ok
    (state_of (run_aux_call
                 (aux_queue_push ScenarioQueue.evaluate2 JOB_PRIORITY_LOW None)
                 ScenarioDispatch.two_jobs Scenario.world0)).
Proof.
  apply (auxiliary_operations_keep_the_dispatcher_in_order
           (aux_queue_push ScenarioQueue.evaluate2 JOB_PRIORITY_LOW None)
           ScenarioDispatch.two_jobs Scenario.world0).
  split; [reflexivity|]. split; [apply is_heap_sound; reflexivity|].
  split; [|vm_compute; reflexivity].
  unfold pool_ok. apply (bool_decide_unpack _). vm_compute. exact I.
Defined.

Lemma add_worker_new n host port p i :
  WorkerPool.workers p !! n = None ->
  exists i',
    WorkerPool.add_worker n host port p i
    = (Ok tt,
       WorkerPool.mk (<[n := WorkerPool.WORKER_INACTIVE]> (WorkerPool.workers p))
         (S (WorkerPool.semaphore p))
         (<[n := None]> (WorkerPool.start_time p))
         (<[n := (host, port)]> (WorkerPool.address p))
         (<[n := 0]> (WorkerPool.error_count p))
         (<[n := None]> (WorkerPool.side_data p))
         (<[n := false]> (WorkerPool.schedule_disabling p)),
       i')
    /\ only_events i i'.
Proof.
  intros Hn. unfold WorkerPool.add_worker, WorkerPool.semaphore_release.
  unfold_monad. simpl.
  destruct (decide (n ∈ dom (WorkerPool.workers p))) as [Hin|Hin].
  - apply elem_of_dom in Hin as [w0 Hin]. congruence.
  - destruct p. simpl. eexists. split; [reflexivity|]. solve_only_events.
Qed.

(** The loop of [JobDispatcher.__init__] over the configured workers. *)
Lemma add_configured_workers_spec ws : forall n d i,
  (forall k, n <= k -> WorkerPool.workers (JobDispatcher.workers d) !! k = None) ->
  exists d' i',
    JobDispatcher.add_configured_workers n ws d i = (Ok tt, d', i')
    /\ only_events i i'
    /\ JobDispatcher.queue d' = JobDispatcher.queue d
    /\ JobDispatcher.bomb_primed d' = JobDispatcher.bomb_primed d
    /\ JobDispatcher.touched d' = JobDispatcher.touched d
    /\ WorkerPool.semaphore (JobDispatcher.workers d')
       = (WorkerPool.semaphore (JobDispatcher.workers d) + length ws)%nat
    /\ (forall (j : nat) addr,
          ws !! j = Some addr ->
          WorkerPool.workers (JobDispatcher.workers d') !! (n + Z.of_nat j)
          = Some WorkerPool.WORKER_INACTIVE
          /\ WorkerPool.address (JobDispatcher.workers d') !! (n + Z.of_nat j)
             = Some addr)
    /\ (forall k, k < n ->
          WorkerPool.workers (JobDispatcher.workers d') !! k
          = WorkerPool.workers (JobDispatcher.workers d) !! k
          /\ WorkerPool.address (JobDispatcher.workers d') !! k
             = WorkerPool.address (JobDispatcher.workers d) !! k)
    /\ (forall k, n + Z.of_nat (length ws) <= k ->
          WorkerPool.workers (JobDispatcher.workers d') !! k = None)
    /\ (pool_ok (JobDispatcher.workers d) -> pool_ok (JobDispatcher.workers d'))
    /\ (W1 (JobDispatcher.workers d) -> W1 (JobDispatcher.workers d')).
Proof.
  induction ws as [|[host port] ws IH]; intros n d i Hfree;
    cbn [JobDispatcher.add_configured_workers].
  { exists d, i. split; [reflexivity|]. split; [apply only_events_refl|].
    repeat (split; [reflexivity|]).
    split; [simpl; lia|]. split; [intros j addr Hj; discriminate Hj|].
    split; [intros k _; split; reflexivity|].
    split; [intros k Hk; apply Hfree; simpl in Hk; lia|].
    split; intros H; exact H. }
  destruct (add_worker_new n host port (JobDispatcher.workers d) i
              (Hfree n ltac:(lia))) as (i1 & Eadd & Hev1).
  unfold JobDispatcher.on_workers. cbn [fst snd].
  erewrite bind_ok by (apply zoom_eq; exact Eadd).
  match goal with |- context [JobDispatcher.set_workers ?p d] =>
    set (p1 := p) in *; set (d1 := JobDispatcher.set_workers p1 d) end.
  destruct (IH (n + 1) d1 i1) as (d' & i' & Hrun & Hev & Hq & Hb & Ht & Hsem
                                  & Hnew & Hold & Hout & Hpool & HW1).
  { intros k Hk. simpl. rewrite lookup_insert_ne by lia. apply Hfree. lia. }
  exists d', i'. split; [exact Hrun|].
  split; [eapply only_events_trans; eassumption|].
  split; [exact Hq|]. split; [exact Hb|]. split; [exact Ht|].
  split; [rewrite Hsem; simpl; lia|].
  split; [|split; [|split; [|split]]].
  - intros [|j] addr Hj; simpl in Hj.
    + inversion Hj; subst addr. rewrite Z.add_0_r.
      destruct (Hold n ltac:(lia)) as [-> ->]. simpl.
      rewrite !lookup_insert_eq. split; reflexivity.
    + replace (n + Z.of_nat (S j)) with (n + 1 + Z.of_nat j) by lia.
      apply Hnew. exact Hj.
  - intros k Hk. destruct (Hold k ltac:(lia)) as [-> ->]. simpl.
    rewrite !lookup_insert_ne by lia. split; reflexivity.
  - intros k Hk. apply Hout. simpl length in Hk. lia.
  - intros Hp. apply Hpool. simpl.
    pose proof (pool_ok_add_worker n host port (JobDispatcher.workers d) i Hp)
      as H. rewrite Eadd in H. exact H.
  - intros Hw. apply HW1. simpl.
    pose proof (W1_add_worker n host port (JobDispatcher.workers d) i Hw)
      as H. rewrite Eadd in H. exact H.
Qed.

(** X19: whatever the configuration, [JobDispatcher.__init__] returns with
    one INACTIVE worker per configured address, numbered from 0 in the order
    of the configuration, and nobody else; the pool has one permit per
    worker, the queue is empty and the dispatcher is in order. *)
Theorem init_registers_the_configured_workers i :
  let r := JobDispatcher.__init__ JobDispatcher.fresh i in
  let p := JobDispatcher.workers (state_of r) in
  outcome r = Ok tt
  /\ (forall (n : nat) addr,
        cfg_workers (config i) !! n = Some addr ->
        WorkerPool.workers p !! Z.of_nat n = Some WorkerPool.WORKER_INACTIVE
        /\ WorkerPool.address p !! Z.of_nat n = Some addr)
  /\ (forall k, is_Some (WorkerPool.workers p !! k) ->
                0 <= k < Z.of_nat (length (cfg_workers (config i))))
  /\ WorkerPool.semaphore p = length (cfg_workers (config i))
  /\ JobQueue.queue (JobDispatcher.queue (state_of r)) = []
  /\ dispatcher_ok (state_of r).
Proof.
  cbv zeta. unfold JobDispatcher.__init__.
  erewrite bind_ok by reflexivity.
  destruct (add_configured_workers_spec (cfg_workers (config i)) 0
              JobDispatcher.fresh i)
    as (d' & i' & -> & _ & Hq & _ & _ & Hsem & Hnew & Hold & Hout & Hpool
        & HW1).
  { intros k _. apply lookup_empty. }
  unfold_views. split; [reflexivity|].
  split; [intros n addr Hn; exact (Hnew n addr Hn)|].
  split.
  { intros k [w Hk].
    destruct (decide (k < 0)) as [Hneg|Hpos].
    - destruct (Hold k Hneg) as [Hw _]. rewrite Hw, lookup_empty in Hk.
      discriminate.
    - destruct (decide (k < Z.of_nat (length (cfg_workers (config i)))))
        as [Hlt|Hge]; [lia|].
      rewrite Hout in Hk by lia. discriminate. }
  split; [exact Hsem|]. unfold dispatcher_ok. rewrite Hq.
  split; [reflexivity|].
  split; [reflexivity|].
  split; [intros k x y _ Hx; destruct k; discriminate Hx|].
  split; [apply Hpool, pool_ok_init|apply HW1, W1_init].
Qed.

(** ** EvaluationServer: what a finished job leads to *)

Lemma find_unique {V} (ws : gmap Z V) (f : V -> bool) w x :
  ws !! w = Some x -> f x = true ->
  (forall k y, ws !! k = Some y -> f y = true -> k = w) ->
  List.find (fun kv => f (snd kv)) (dict_items ws) = Some (w, x).
Proof.
  intros Hw Hf Huniq.
  destruct (List.find _ (dict_items ws)) as [[k y]|] eqn:Hfind.
  - apply find_some in Hfind as [Hin Hy]. simpl in Hy.
    apply list_elem_of_In, elem_of_dict_items in Hin.
    pose proof (Huniq k y Hin Hy). subst k. congruence.
  - exfalso.
    assert (Hin : In (w, x) (dict_items ws)).
    { apply list_elem_of_In, elem_of_dict_items. exact Hw. }
    pose proof (find_none _ _ Hfind (w, x) Hin) as Hno. simpl in Hno.
    congruence.
Qed.

(** The worker on the job is found and released; the dispatcher is woken
    up; the side data of the job is handed back. *)
Lemma action_finished_releases k sub es i w sd :
  on_lease (JobDispatcher.workers (EvaluationServer.jd es)) w k
           (couch_id sub) sd ->
  exists i',
    EvaluationServer.action_finished (k, Some sub) es i
    = (Ok (Some sd),
       EvaluationServer.mk
         (JobDispatcher.mk (JobDispatcher.queue (EvaluationServer.jd es))
            (released (JobDispatcher.workers (EvaluationServer.jd es)) w)
            (JobDispatcher.bomb_primed (EvaluationServer.jd es)) true),
       i')
    /\ only_events i i'.
Proof.
  intros ((x & Hw & Hbusy) & Huniq & (t0 & Hst) & (addr & Haddr) & Hsd & Hsch).
  destruct es as [[q p b t]]. simpl in *.
  assert (Hfind : List.find
            (fun kv => WorkerPool.wstate_eqb (snd kv)
                         (WorkerPool.BUSY (k, Some sub)))
            (dict_items (WorkerPool.workers p)) = Some (w, x)).
  { apply (find_unique (WorkerPool.workers p)
             (fun y => WorkerPool.wstate_eqb y (WorkerPool.BUSY (k, Some sub)))).
    - exact Hw.
    - rewrite wstate_eqb_busy_on. exact Hbusy.
    - intros k' y Hk' Hy. rewrite wstate_eqb_busy_on in Hy. eauto. }
  assert (Hx : exists j, x = WorkerPool.BUSY j).
  { destruct x; try discriminate Hbusy. eauto. }
  destruct Hx as [j ->].
  unfold EvaluationServer.action_finished, EvaluationServer.on_jd,
    JobDispatcher.find_worker, JobDispatcher.on_workers,
    WorkerPool.find_worker, JobDispatcher.release_worker,
    JobDispatcher.touched_set.
  erewrite bind_ok.
  2:{ apply zoom_eq. unfold with_lock.
      erewrite zoom_eq; [reflexivity|].
      erewrite bind_ok by reflexivity. simpl. rewrite Hfind. reflexivity. }
  erewrite bind_ok.
  2:{ apply zoom_eq. apply zoom_eq. unfold getitem. simpl. rewrite Hst.
      reflexivity. }
  erewrite bind_ok by reflexivity.
  erewrite bind_ok by reflexivity.
  erewrite bind_ok.
  2:{ apply zoom_eq. apply zoom_eq. unfold getitem. simpl. rewrite Haddr.
      reflexivity. }
  erewrite bind_ok by reflexivity.
  erewrite bind_ok by reflexivity.
  erewrite zoom_eq.
  2:{ erewrite bind_ok.
      2:{ unfold with_lock, JobDispatcher.on_workers.
          erewrite zoom_eq; [reflexivity|].
          simpl. eapply (release_worker_busy w p _ j (Some sd)); assumption. }
      erewrite bind_ok by reflexivity. reflexivity. }
  simpl. eexists. split; [reflexivity|]. solve_only_events.
Qed.

Lemma on_jd_queue_push j priority ts es i :
  exists i',
    EvaluationServer.on_jd (JobDispatcher.queue_push j priority ts) es i
    = (Ok tt,
       EvaluationServer.mk
         (JobDispatcher.mk
            (JobQueue.mk
               (heapq.heappush entry_ltb
                  (JobQueue.queue (JobDispatcher.queue (EvaluationServer.jd es)))
                  (priority, pushed_timestamp j ts i, j))
               (S (JobQueue.semaphore
                     (JobDispatcher.queue (EvaluationServer.jd es)))))
            (JobDispatcher.workers (EvaluationServer.jd es))
            (JobDispatcher.bomb_primed (EvaluationServer.jd es)) true),
       i')
    /\ only_events i i'.
Proof.
  destruct (queue_push_run j priority ts (EvaluationServer.jd es) i)
    as (i' & E & Hev).
  exists i'. split; [|exact Hev].
  unfold EvaluationServer.on_jd. erewrite zoom_eq by exact E. reflexivity.
Qed.

Lemma only_events_store i i' : only_events i i' -> store i' = store i.
Proof. intros (_ & _ & _ & H & _). exact H. Qed.

(** X20: when the worker compiling a submission reports back,
    [compilation_finished] returns [True]: the counter of compilations is
    incremented in the store, the worker is released, its permit given back
    and the dispatcher woken up; and the queue gains exactly the follow-up
    of the compilation -- the evaluation, at priority MEDIUM if a token was
    used and LOW otherwise, after a success with outcome "ok"; nothing
    after a success with outcome "fail"; otherwise the compilation again at
    priority HIGH as long as the incremented counter does not exceed
    MAX_COMPILATION_TENTATIVES -- under the timestamp of the submission. *)
Theorem compilation_finished_queues_the_follow_up success id sub es i w sd :
  store i !! id = Some sub ->
  couch_id sub = id ->
  Forall (fun c => couch_id c = id) (conflicts i) ->
  on_lease (JobDispatcher.workers (EvaluationServer.jd es)) w
           JOB_TYPE_COMPILATION id sd ->
  heap_ordered key_le
    (JobQueue.queue (JobDispatcher.queue (EvaluationServer.jd es))) ->
  let sub' := EvaluationServer.bump_compilation (last_version sub i) in
  let r := EvaluationServer.compilation_finished success id es i in
  outcome r = Ok true
  /\ store (world_of r) !! id = Some sub'
  /\ JobDispatcher.workers (EvaluationServer.jd (state_of r))
     = released (JobDispatcher.workers (EvaluationServer.jd es)) w
  /\ JobQueue.queue (JobDispatcher.queue (EvaluationServer.jd (state_of r)))
     ≡ₚ (after_compilation success sub'
          ++ JobQueue.queue (JobDispatcher.queue (EvaluationServer.jd es)))%list
  /\ heap_ordered key_le
       (JobQueue.queue (JobDispatcher.queue (EvaluationServer.jd (state_of r))))
  /\ JobDispatcher.touched (EvaluationServer.jd (state_of r)) = true.
Proof.
  intros Hs Hid Hall Hlease Hheap sub' r. subst r id.
  unfold EvaluationServer.compilation_finished.
  erewrite bind_ok
    by (unfold CouchObject.from_couch; rewrite Hs; reflexivity).
  erewrite bind_ok
    by (apply save_with_retry_returns; [intros s; reflexivity|exact Hall]).
  fold sub'.
  set (i1 := set_conflicts [] _).
  assert (Hid' : couch_id sub' = couch_id sub).
  { unfold sub'. simpl. apply last_version_id. exact Hall. }
  rewrite <- Hid' in Hlease.
  destruct (action_finished_releases JOB_TYPE_COMPILATION sub' es i1 w sd
              Hlease) as (i2 & Eact & Hev2).
  erewrite bind_ok by exact Eact.
  set (es2 := EvaluationServer.mk _) in *.
  assert (Hstore : store i2 !! couch_id sub = Some sub').
  { rewrite (only_events_store _ _ Hev2). unfold i1. simpl.
    apply lookup_insert_eq. }
  assert (Hpush : forall k priority i0,
            only_events i2 i0 ->
            exists es3 i3,
              EvaluationServer.on_jd
                (JobDispatcher.queue_push (k, Some sub') priority None) es2 i0
              = (Ok tt, es3, i3)
              /\ store i3 !! couch_id sub = Some sub'
              /\ JobDispatcher.workers (EvaluationServer.jd es3)
                 = released (JobDispatcher.workers (EvaluationServer.jd es)) w
              /\ JobQueue.queue (JobDispatcher.queue (EvaluationServer.jd es3))
                 ≡ₚ (priority, timestamp sub', (k, Some sub'))
                    :: JobQueue.queue
                         (JobDispatcher.queue (EvaluationServer.jd es))
              /\ heap_ordered key_le
                   (JobQueue.queue
                      (JobDispatcher.queue (EvaluationServer.jd es3)))
              /\ JobDispatcher.touched (EvaluationServer.jd es3) = true).
  { intros k priority i0 Hev0.
    destruct (on_jd_queue_push (k, Some sub') priority None es2 i0)
      as (i3 & E & Hev3).
    destruct (queue_heappush _ (priority, timestamp sub', (k, Some sub'))
                Hheap) as [Hheap3 Hperm3].
    eexists _, i3. split; [exact E|]. simpl.
    split; [|repeat split; assumption].
    rewrite (only_events_store _ _ Hev3), (only_events_store _ _ Hev0).
    exact Hstore. }
  unfold after_compilation.
  destruct (success && bool_decide (compilation_outcome sub' = Some "ok"))
    eqn:Hok.
  { destruct (Hpush JOB_TYPE_EVALUATION
                (if tokened sub' then JOB_PRIORITY_MEDIUM
                 else JOB_PRIORITY_LOW)
                (emit (EvLog "Compilation succeeded for submission %s,  queueing evaluation"
                             SEVERITY_NORMAL) i2)
                ltac:(solve_only_events))
      as (es3 & i3 & E & Hst3 & Hw3 & Hq3 & Hh3 & Ht3).
    erewrite bind_ok by (erewrite bind_ok by reflexivity; exact E).
    unfold_views. repeat split; assumption. }
  destruct (success && bool_decide (compilation_outcome sub' = Some "fail"))
    eqn:Hfail.
  { erewrite bind_ok by reflexivity.
    unfold_views. repeat split; try assumption; reflexivity. }
  rewrite Z.leb_antisym.
  destruct (MAX_COMPILATION_TENTATIVES <? compilation_tentatives sub')
    eqn:Hmax; cbn [negb].
  { erewrite bind_ok by (erewrite bind_ok by reflexivity; reflexivity).
    unfold_views. repeat split; try assumption; reflexivity. }
  destruct (Hpush JOB_TYPE_COMPILATION JOB_PRIORITY_HIGH
              (emit (EvLog "Compilation failed for submission %s"
                           SEVERITY_NORMAL) i2)
              ltac:(solve_only_events))
    as (es3 & i3 & E & Hst3 & Hw3 & Hq3 & Hh3 & Ht3).
  erewrite bind_ok by (erewrite bind_ok by reflexivity; exact E).
  unfold_views. repeat split; assumption.
Qed.

Lemma compilation_finished_queues_the_follow_up_witness :
  let es := EvaluationServer.mk ScenarioRequeue.waiting in
  let r := EvaluationServer.compilation_finished true "s1" es
             Scenario.world0 in
  let s1' := EvaluationServer.bump_compilation Scenario.s1 in
  outcome r = Ok true
  /\ store (world_of r) !! "s1" = Some s1'
  /\ JobDispatcher.workers (EvaluationServer.jd (state_of r))
     = released Scenario.busy_pool 0
  /\ JobQueue.queue (JobDispatcher.queue (EvaluationServer.jd (state_of r)))
     ≡ₚ [(JOB_PRIORITY_HIGH, 10, (JOB_TYPE_COMPILATION, Some s1'))]
  /\ heap_ordered key_le
       (JobQueue.queue (JobDispatcher.queue (EvaluationServer.jd (state_of r))))
  /\ JobDispatcher.touched (EvaluationServer.jd (state_of r)) = true.
Proof.
  apply (compilation_finished_queues_the_follow_up true "s1" Scenario.s1
           (EvaluationServer.mk ScenarioRequeue.waiting) Scenario.world0 0
           (JOB_PRIORITY_HIGH, 10)).
  - vm_compute. reflexivity.
  - reflexivity.
  - constructor.
  - split; [exists (WorkerPool.BUSY ScenarioQueue.compile1);
            split; vm_compute; reflexivity|].
    split.
    { intros w' x Hx _. simpl in Hx. unfold Scenario.busy_pool in Hx.
      simpl in Hx. apply lookup_singleton_Some in Hx as [<- _].
      reflexivity. }
    split; [exists 50; vm_compute; reflexivity|].
    split; [exists ("worker0", 9000); vm_compute; reflexivity|].
    split; vm_compute; reflexivity.
  - apply is_heap_sound. reflexivity.
Defined.

(** X21: when the worker evaluating a submission reports back,
    [evaluation_finished] returns [True]: the counter of evaluations is
    incremented in the store, the worker is released, its permit given back
    and the dispatcher woken up.  After a success the scorer is told and
    the ranking refreshed, and nothing is queued; after a failure the
    evaluation is queued again, at the priority the job was taken from the
    queue with, as long as the incremented counter does not exceed
    MAX_EVALUATION_TENTATIVES. *)
Theorem evaluation_finished_queues_the_follow_up success id sub es i w
    priority ts :
  store i !! id = Some sub ->
  couch_id sub = id ->
  Forall (fun c => couch_id c = id) (conflicts i) ->
  on_lease (JobDispatcher.workers (EvaluationServer.jd es)) w
           JOB_TYPE_EVALUATION id (priority, ts) ->
  heap_ordered key_le
    (JobQueue.queue (JobDispatcher.queue (EvaluationServer.jd es))) ->
  let sub' := EvaluationServer.bump_evaluation (last_version sub i) in
  let r := EvaluationServer.evaluation_finished success id es i in
  outcome r = Ok true
  /\ store (world_of r) !! id = Some sub'
  /\ JobDispatcher.workers (EvaluationServer.jd (state_of r))
     = released (JobDispatcher.workers (EvaluationServer.jd es)) w
  /\ JobQueue.queue (JobDispatcher.queue (EvaluationServer.jd (state_of r)))
     ≡ₚ (after_evaluation success priority sub'
          ++ JobQueue.queue (JobDispatcher.queue (EvaluationServer.jd es)))%list
  /\ heap_ordered key_le
       (JobQueue.queue (JobDispatcher.queue (EvaluationServer.jd (state_of r))))
  /\ JobDispatcher.touched (EvaluationServer.jd (state_of r)) = true
  /\ (success = true ->
      EvCall (scorer_add_submission id) ∈ events (world_of r)
      /\ EvCall contest_update_ranking_view ∈ events (world_of r)).
Proof.
  intros Hs Hid Hall Hlease Hheap sub' r. subst r id.
  unfold EvaluationServer.evaluation_finished.
  erewrite bind_ok
    by (unfold CouchObject.from_couch; rewrite Hs; reflexivity).
  erewrite bind_ok
    by (apply save_with_retry_returns; [intros s; reflexivity|exact Hall]).
  fold sub'.
  set (i1 := set_conflicts [] _).
  assert (Hid' : couch_id sub' = couch_id sub).
  { unfold sub'. simpl. apply last_version_id. exact Hall. }
  rewrite <- Hid' in Hlease.
  destruct (action_finished_releases JOB_TYPE_EVALUATION sub' es i1 w
              (priority, ts) Hlease) as (i2 & Eact & Hev2).
  erewrite bind_ok by exact Eact.
  erewrite bind_ok by reflexivity. cbn [fst].
  set (es2 := EvaluationServer.mk _) in *.
  assert (Hstore : store i2 !! couch_id sub = Some sub').
  { rewrite (only_events_store _ _ Hev2). unfold i1. simpl.
    apply lookup_insert_eq. }
  unfold after_evaluation. destruct success.
  { erewrite bind_ok.
    2:{ erewrite bind_ok by reflexivity.
        unfold EvaluationServer.update_evaluation.
        erewrite bind_ok
          by (unfold CouchObject.from_couch; simpl; rewrite Hstore;
              reflexivity).
        erewrite bind_ok by reflexivity. reflexivity. }
    unfold_views. rewrite Hid'.
    repeat (split; [first [assumption | reflexivity]|]).
    intros _. split; [right; left|left]. }
  rewrite Z.leb_antisym.
  destruct (MAX_EVALUATION_TENTATIVES <? evaluation_tentatives sub')
    eqn:Hmax; cbn [negb].
  { erewrite bind_ok by (erewrite bind_ok by reflexivity; reflexivity).
    unfold_views.
    repeat (split; [first [assumption | reflexivity]|]). discriminate. }
  destruct (on_jd_queue_push (JOB_TYPE_EVALUATION, Some sub') priority None
              es2 (emit (EvLog "Evaluation failed for submission %s"
                               SEVERITY_NORMAL) i2)) as (i3 & E & Hev3).
  destruct (queue_heappush _
              (priority, timestamp sub', (JOB_TYPE_EVALUATION, Some sub'))
              Hheap) as [Hheap3 Hperm3].
  erewrite bind_ok by (erewrite bind_ok by reflexivity; exact E).
  unfold_views.
  split; [reflexivity|]. split.
  { rewrite (only_events_store _ _ Hev3). exact Hstore. }
  split; [reflexivity|]. split; [exact Hperm3|]. split; [exact Hheap3|].
  split; [reflexivity|discriminate].
Qed.

Lemma evaluation_finished_queues_the_follow_up_witness :
  let r := EvaluationServer.evaluation_finished false "s2"
             ScenarioFinish.evaluating Scenario.world0 in
  let s2' := EvaluationServer.bump_evaluation Scenario.s2 in
  outcome r = Ok true
  /\ store (world_of r) !! "s2" = Some s2'
  /\ JobQueue.queue (JobDispatcher.queue (EvaluationServer.jd (state_of r)))
     ≡ₚ [(JOB_PRIORITY_LOW, 20, (JOB_TYPE_EVALUATION, Some s2'))].
Proof.
  destruct (evaluation_finished_queues_the_follow_up false "s2" Scenario.s2
              ScenarioFinish.evaluating Scenario.world0 0
              JOB_PRIORITY_LOW 20) as (H1 & H2 & _ & H4 & _).
  - vm_compute. reflexivity.
  - reflexivity.
  - constructor.
  - split; [exists (WorkerPool.BUSY ScenarioQueue.evaluate2);
            split; vm_compute; reflexivity|].
    split.
    { intros w' x Hx _. simpl in Hx.
      apply lookup_singleton_Some in Hx as [<- _]. reflexivity. }
    split; [exists 50; vm_compute; reflexivity|].
    split; [exists ("worker0", 9000); vm_compute; reflexivity|].
    split; vm_compute; reflexivity.
  - apply is_heap_sound. reflexivity.
  - cbv zeta. split; [exact H1|]. split; [exact H2|exact H4].
Defined.

(** X22: [add_job] of a submission of the store returns [True] having
    queued its compilation at priority HIGH under the timestamp of the
    submission and woken the dispatcher up; every other entry stays, the
    queue stays a heap and the pool is untouched.  For an id the store does
    not know it raises [ResourceNotFound] and the server is as before. *)
Theorem add_job_queues_the_compilation id es i :
  heap_ordered key_le
    (JobQueue.queue (JobDispatcher.queue (EvaluationServer.jd es))) ->
  let r := EvaluationServer.add_job id es i in
  match store i !! id with
  | Some sub =>
      outcome r = Ok true
      /\ JobQueue.queue (JobDispatcher.queue (EvaluationServer.jd (state_of r)))
         ≡ₚ (JOB_PRIORITY_HIGH, timestamp sub, (JOB_TYPE_COMPILATION, Some sub))
            :: JobQueue.queue (JobDispatcher.queue (EvaluationServer.jd es))
      /\ heap_ordered key_le
           (JobQueue.queue
              (JobDispatcher.queue (EvaluationServer.jd (state_of r))))
      /\ JobDispatcher.workers (EvaluationServer.jd (state_of r))
         = JobDispatcher.workers (EvaluationServer.jd es)
      /\ JobDispatcher.touched (EvaluationServer.jd (state_of r)) = true
  | None => outcome r = Raise ResourceNotFound /\ state_of r = es
  end.
Proof.
  intros Hheap r. subst r.
  destruct (store i !! id) as [sub|] eqn:Hs.
  - destruct (on_jd_queue_push (JOB_TYPE_COMPILATION, Some sub)
                JOB_PRIORITY_HIGH None es
                (emit (EvLog "Queueing compilation for submission %s"
                             SEVERITY_NORMAL)
                   (emit (EvCall contest_refresh) i))) as (i3 & E & _).
    assert (Hrun : EvaluationServer.add_job id es i
                   = (Ok true,
                      state_of (EvaluationServer.on_jd
                                  (JobDispatcher.queue_push
                                     (JOB_TYPE_COMPILATION, Some sub)
                                     JOB_PRIORITY_HIGH None) es
                                  (emit (EvLog "Queueing compilation for submission %s"
                                               SEVERITY_NORMAL)
                                     (emit (EvCall contest_refresh) i))),
                      i3)).
    { unfold EvaluationServer.add_job.
      erewrite bind_ok by reflexivity.
      erewrite bind_ok by reflexivity.
      erewrite bind_ok
        by (unfold CouchObject.from_couch; simpl; rewrite Hs; reflexivity).
      erewrite bind_ok by exact E. rewrite E. reflexivity. }
    rewrite Hrun, E.
    destruct (queue_heappush _
                (JOB_PRIORITY_HIGH, timestamp sub,
                 (JOB_TYPE_COMPILATION, Some sub)) Hheap) as [Hh Hp].
    unfold_views.
    split; [reflexivity|]. split; [exact Hp|]. split; [exact Hh|].
    split; reflexivity.
  - assert (Hrun : EvaluationServer.add_job id es i
                   = (Raise ResourceNotFound, es,
                      emit (EvLog "Queueing compilation for submission %s"
                                  SEVERITY_NORMAL)
                        (emit (EvCall contest_refresh) i))).
    { unfold EvaluationServer.add_job.
      erewrite bind_ok by reflexivity.
      erewrite bind_ok by reflexivity.
      erewrite bind_raise
        by (unfold CouchObject.from_couch; simpl; rewrite Hs; reflexivity).
      reflexivity. }
    rewrite Hrun. split; reflexivity.
Qed.

Lemma add_job_queues_the_compilation_witness :
  let r := EvaluationServer.add_job "s1"
             (EvaluationServer.mk ScenarioDispatch.two_jobs) Scenario.world0 in
  outcome r = Ok true
  /\ JobQueue.queue (JobDispatcher.queue (EvaluationServer.jd (state_of r)))
     ≡ₚ (JOB_PRIORITY_HIGH, 10, ScenarioQueue.compile1)
        :: JobQueue.queue (JobDispatcher.queue ScenarioDispatch.two_jobs)
  /\ heap_ordered key_le
       (JobQueue.queue
          (JobDispatcher.queue (EvaluationServer.jd (state_of r))))
  /\ JobDispatcher.workers (EvaluationServer.jd (state_of r))
     = ScenarioDispatch.two_free
  /\ JobDispatcher.touched (EvaluationServer.jd (state_of r)) = true.
Proof.
  apply (add_job_queues_the_compilation "s1"
           (EvaluationServer.mk ScenarioDispatch.two_jobs) Scenario.world0).
  apply is_heap_sound. reflexivity.
Defined.

Lemma bomb_goes_first q r now0 :
  heap_ordered key_le q ->
  Forall (fun e : entry => JOB_PRIORITY_HIGH <= fst (fst e)) q ->
  heapq.heappush entry_ltb q (JOB_PRIORITY_EXTRA_HIGH, now0, (JOB_TYPE_BOMB, None))
    !! 0%nat = Some r ->
  r = (JOB_PRIORITY_EXTRA_HIGH, now0, (JOB_TYPE_BOMB, None)).
Proof.
  intros Hheap Hall Hr.
  destruct (queue_heappush q
              (JOB_PRIORITY_EXTRA_HIGH, now0, (JOB_TYPE_BOMB, None)) Hheap)
    as [Hh Hp].
  assert (Hmin : key_le r (JOB_PRIORITY_EXTRA_HIGH, now0, (JOB_TYPE_BOMB, None))).
  { apply (queue_root_min _ r Hh Hr). rewrite Hp. left. }
  assert (Hin : r ∈ (JOB_PRIORITY_EXTRA_HIGH, now0, (JOB_TYPE_BOMB, None)) :: q).
  { rewrite <- Hp. eapply list_elem_of_lookup_2. exact Hr. }
  apply elem_of_cons in Hin as [Heq|Hin]; [exact Heq|].
  rewrite Forall_forall in Hall. specialize (Hall r Hin).
  unfold key_le, JOB_PRIORITY_HIGH, JOB_PRIORITY_EXTRA_HIGH in *.
  simpl in Hmin. lia.
Qed.

(** X23: [self_destruct] stops the dispatching: on a heap-ordered queue
    whose entries have priority HIGH or lower it returns [True] with the
    bomb at the head of the queue, every entry kept behind it; from then
    on a pass of [process_queue] hands out nothing -- queue and pool stay
    as they are -- and leaves the bomb primed. *)
Theorem self_destruct_stops_the_dispatching es i i' :
  heap_ordered key_le
    (JobQueue.queue (JobDispatcher.queue (EvaluationServer.jd es))) ->
  Forall (fun e : entry => JOB_PRIORITY_HIGH <= fst (fst e))
    (JobQueue.queue (JobDispatcher.queue (EvaluationServer.jd es))) ->
  let r := EvaluationServer.self_destruct es i in
  let d := EvaluationServer.jd (state_of r) in
  let bomb := (JOB_PRIORITY_EXTRA_HIGH, now i, (JOB_TYPE_BOMB, None)) in
  outcome r = Ok true
  /\ JobQueue.queue (JobDispatcher.queue d) !! 0%nat = Some bomb
  /\ JobQueue.queue (JobDispatcher.queue d)
     ≡ₚ bomb :: JobQueue.queue (JobDispatcher.queue (EvaluationServer.jd es))
  /\ JobDispatcher.workers d = JobDispatcher.workers (EvaluationServer.jd es)
  /\ outcome (JobDispatcher.process_queue d i') = Ok tt
  /\ JobDispatcher.queue (state_of (JobDispatcher.process_queue d i'))
     = JobDispatcher.queue d
  /\ JobDispatcher.workers (state_of (JobDispatcher.process_queue d i'))
     = JobDispatcher.workers d
  /\ JobDispatcher.bomb_primed (state_of (JobDispatcher.process_queue d i'))
     = true.
Proof.
  intros Hheap Hall r d bomb. subst d r.
  unfold EvaluationServer.self_destruct.
  destruct (on_jd_queue_push (JOB_TYPE_BOMB, None) JOB_PRIORITY_EXTRA_HIGH
              None es i) as (i1 & E & _).
  erewrite bind_ok by exact E.
  change (pushed_timestamp (JOB_TYPE_BOMB, None) None i) with (now i) in *.
  fold bomb in E |- *.
  destruct (queue_heappush _ bomb Hheap) as [Hh Hp].
  unfold_views.
  assert (Hhead : heapq.heappush entry_ltb
                    (JobQueue.queue
                       (JobDispatcher.queue (EvaluationServer.jd es))) bomb
                  !! 0%nat = Some bomb).
  { destruct (heapq.heappush entry_ltb _ bomb !! 0%nat) as [r|] eqn:Hr.
    - f_equal. exact (bomb_goes_first _ r (now i) Hheap Hall Hr).
    - apply lookup_ge_None in Hr. rewrite heappush_length in Hr. lia. }
  split; [reflexivity|]. split; [exact Hhead|]. split; [exact Hp|].
  split; [reflexivity|].
  match goal with |- context [JobDispatcher.process_queue ?d0 i'] =>
    destruct (process_queue_blocked d0 i') as (H1 & H2 & H3 & H4) end.
  { exists JOB_PRIORITY_EXTRA_HIGH, (now i), None. simpl.
    split; [exact Hhead|]. unfold JOB_PRIORITY_EXTRA_HIGH. lia. }
  repeat split; assumption.
Qed.

Lemma self_destruct_stops_the_dispatching_witness :
  let es := EvaluationServer.mk ScenarioDispatch.two_jobs in
  let r := EvaluationServer.self_destruct es Scenario.world0 in
  let d := EvaluationServer.jd (state_of r) in
  outcome r = Ok true
  /\ JobQueue.queue (JobDispatcher.queue d) !! 0%nat
     = Some (JOB_PRIORITY_EXTRA_HIGH, 100, (JOB_TYPE_BOMB, None))
  /\ outcome (JobDispatcher.process_queue d Scenario.world0) = Ok tt
  /\ JobDispatcher.workers
       (state_of (JobDispatcher.process_queue d Scenario.world0))
     = ScenarioDispatch.two_free
  /\ JobDispatcher.bomb_primed
       (state_of (JobDispatcher.process_queue d Scenario.world0)) = true.
Proof.
  destruct (self_destruct_stops_the_dispatching
              (EvaluationServer.mk ScenarioDispatch.two_jobs)
              Scenario.world0 Scenario.world0)
    as (H1 & H2 & _ & H4 & H5 & _ & H7 & H8).
  - apply is_heap_sound. reflexivity.
  - repeat constructor; vm_compute; discriminate.
  - cbv zeta. split; [exact H1|]. split; [exact H2|]. split; [exact H5|].
    split; [rewrite H7; exact H4|exact H8].
Defined.

(** ** JobDispatcher: what a pass of the queue costs *)





(** *** The dispatching never waits for a worker *)
























(** ** EvaluationServer: saving a counter against concurrent writers *)

(** X25: the loop that increments a counter of a submission and saves it
    ends however many concurrent writers get in first, as long as they
    write the same document: it returns the last writer's version with the
    counter incremented, which is then the version in the store; every
    other document is as it was, and the server is untouched. *)
Theorem save_with_retry_stores_the_incremented_last_version bump sub
    (es : EvaluationServer.t) i :
  keeps_id bump ->
  Forall (fun c => couch_id c = couch_id sub) (conflicts i) ->
  let r := EvaluationServer.save_with_retry bump sub es i in
  outcome r = Ok (bump (last_version sub i))
  /\ state_of r = es
  /\ store (world_of r) = <[couch_id sub := bump (last_version sub i)]> (store i)
  /\ conflicts (world_of r) = [].
Proof.
  intros Hid Hall r. subst r.
  rewrite (save_with_retry_returns bump sub es i Hid Hall).
  unfold_views. repeat split.
Qed.

Lemma save_with_retry_stores_the_incremented_last_version_witness :
  let i := set_conflicts [Scenario.s1; Scenario.s1] Scenario.world0 in
  let r := EvaluationServer.save_with_retry EvaluationServer.bump_compilation
             Scenario.s1 (EvaluationServer.mk ScenarioRequeue.waiting) i in
  outcome r = Ok (EvaluationServer.bump_compilation Scenario.s1)
  /\ state_of r = EvaluationServer.mk ScenarioRequeue.waiting
  /\ store (world_of r)
     = <["s1" := EvaluationServer.bump_compilation Scenario.s1]>
         (store Scenario.world0)
  /\ conflicts (world_of r) = [].
Proof.
  apply (save_with_retry_stores_the_incremented_last_version
           EvaluationServer.bump_compilation Scenario.s1
           (EvaluationServer.mk ScenarioRequeue.waiting)
           (set_conflicts [Scenario.s1; Scenario.s1] Scenario.world0)).
  - intros s. reflexivity.
  - repeat constructor.
Defined.

(** * The dump updater *)

Lemma updated_idem k v : updated k (updated k v) = updated k v.
Proof.
  unfold updated. destruct (String.prefix "_" k); [reflexivity|].
  destruct v as [| | | | |d]; try reflexivity. simpl.
  destruct (d !! "_class") as [c|] eqn:Hc; [|simpl; rewrite Hc; reflexivity].
  destruct (Updater.is_participation c) eqn:Hp.
  - simpl. rewrite lookup_insert_ne by discriminate. rewrite Hc, Hp.
    rewrite insert_insert_eq. reflexivity.
  - simpl. rewrite Hc, Hp. reflexivity.
Qed.

Lemma updated_well_formed k v :
  well_formed k (updated k v) = well_formed k v.
Proof.
  unfold well_formed, updated.
  destruct (String.prefix "_" k); [reflexivity|]. simpl.
  destruct v as [| | | | |d]; try reflexivity. simpl.
  destruct (d !! "_class") as [c|] eqn:Hc; [|simpl; rewrite Hc; reflexivity].
  destruct (Updater.is_participation c); simpl.
  - rewrite lookup_insert_ne by discriminate. rewrite Hc. reflexivity.
  - rewrite Hc. reflexivity.
Qed.

(** The loop over the entries not yet visited: the visited ones are
    updated, the others are as they were. *)
Lemma run_loop_spec items : forall objs,
  NoDup (fst <$> items) ->
  let r := Updater.run_loop items objs in
  (forall k, k ∉ (fst <$> items) -> snd r !! k = objs !! k)
  /\ (forall k v, (k, v) ∈ items ->
        snd r !! k = objs !! k \/ snd r !! k = Some (updated k v))
  /\ match fst r with
     | Ok _ =>
         Forall (fun kv => well_formed (fst kv) (snd kv) = true) items
         /\ forall k v, (k, v) ∈ items ->
              objs !! k = Some v -> snd r !! k = Some (updated k v)
     | Raise e =>
         (e = KeyError \/ e = TypeError)
         /\ Exists (fun kv => well_formed (fst kv) (snd kv) = false) items
     end.
Proof.
  induction items as [|[k v] items IH]; intros objs Hnd; cbn zeta.
  { simpl. split; [reflexivity|]. split.
    - intros k v Hin. apply elem_of_nil in Hin. destruct Hin.
    - split; [constructor|]. intros k v Hin.
      apply elem_of_nil in Hin. destruct Hin. }
  rewrite fmap_cons in Hnd. apply NoDup_cons in Hnd as [Hk Hnd]. simpl in Hk.
  cbn [Updater.run_loop].
  assert (Hstep : forall objs1,
            (forall k', k' <> k -> objs1 !! k' = objs !! k') ->
            (objs1 !! k = objs !! k \/ objs1 !! k = Some (updated k v)) ->
            (objs !! k = Some v -> objs1 !! k = Some (updated k v)) ->
            well_formed k v = true ->
            let r := Updater.run_loop items objs1 in
            (forall k0, k0 ∉ (fst <$> (k, v) :: items) ->
                        snd r !! k0 = objs !! k0)
            /\ (forall k0 v0, (k0, v0) ∈ (k, v) :: items ->
                  snd r !! k0 = objs !! k0
                  \/ snd r !! k0 = Some (updated k0 v0))
            /\ match fst r with
               | Ok _ =>
                   Forall (fun kv => well_formed (fst kv) (snd kv) = true)
                          ((k, v) :: items)
                   /\ forall k0 v0, (k0, v0) ∈ (k, v) :: items ->
                        objs !! k0 = Some v0 ->
                        snd r !! k0 = Some (updated k0 v0)
               | Raise e =>
                   (e = KeyError \/ e = TypeError)
                   /\ Exists (fun kv => well_formed (fst kv) (snd kv) = false)
                             ((k, v) :: items)
               end).
  { intros objs1 Hother Hat Hat' Hwf. cbn zeta.
    destruct (IH objs1 Hnd) as (Hout & Hin & Hres).
    split; [|split].
    - intros k0 Hk0. rewrite fmap_cons in Hk0.
      apply not_elem_of_cons in Hk0 as [Hne Hk0]. simpl in Hne.
      rewrite Hout by exact Hk0. apply Hother. exact Hne.
    - intros k0 v0 Hin0. apply elem_of_cons in Hin0 as [Heq|Hin0].
      + inversion Heq; subst k0 v0. rewrite Hout by exact Hk. exact Hat.
      + assert (k0 <> k).
        { intros ->. apply Hk. apply list_elem_of_fmap.
          exists (k, v0). split; [reflexivity|exact Hin0]. }
        destruct (Hin k0 v0 Hin0) as [H1|H1].
        * left. rewrite H1. apply Hother. assumption.
        * right. exact H1.
    - destruct (fst (Updater.run_loop items objs1)) as [[]|e].
      + destruct Hres as [Hall Hupd]. split.
        * constructor; [exact Hwf|exact Hall].
        * intros k0 v0 Hin0 Hobjs.
          apply elem_of_cons in Hin0 as [Heq|Hin0].
          -- inversion Heq; subst k0 v0. rewrite Hout by exact Hk.
             apply Hat'. exact Hobjs.
          -- assert (k0 <> k).
             { intros ->. apply Hk. apply list_elem_of_fmap.
               exists (k, v0). split; [reflexivity|exact Hin0]. }
             apply Hupd; [exact Hin0|].
             rewrite Hother by assumption. exact Hobjs.
      + destruct Hres as [He Hex]. split; [exact He|].
        apply Exists_cons_tl. exact Hex. }
  unfold well_formed in Hstep at 1. unfold updated in Hstep at 1 2.
  destruct (String.prefix "_" k) eqn:Hpre.
  { apply Hstep.
    - intros k' _. reflexivity.
    - left. reflexivity.
    - intros H. exact H.
    - reflexivity. }
  destruct (Updater.getitem v "_class") as [c|e] eqn:Hc.
  2:{ simpl. split; [reflexivity|]. split; [intros; left; reflexivity|].
      split.
      - unfold Updater.getitem in Hc. destruct v as [| | | | |d];
          try (inversion Hc; subst; right; reflexivity).
        destruct (d !! "_class"); inversion Hc; subst. left. reflexivity.
      - apply Exists_cons_hd. unfold well_formed. simpl.
        rewrite Hpre, Hc. reflexivity. }
  destruct (Updater.is_participation c) eqn:Hp.
  - apply Hstep.
    + intros k' Hne. apply lookup_insert_ne. congruence.
    + right. apply lookup_insert_eq.
    + intros _. apply lookup_insert_eq.
    + reflexivity.
  - apply Hstep.
    + intros k' _. reflexivity.
    + left. reflexivity.
    + intros H. exact H.
    + reflexivity.
Qed.

Lemma run_spec u :
  let r := Updater.run u in
  (forall k, Updater.objs (snd r) !! k = Updater.objs u !! k
             \/ Updater.objs (snd r) !! k
                = updated k <$> Updater.objs u !! k)
  /\ match fst r with
     | Ok d =>
         d = Updater.objs (snd r)
         /\ (forall k, d !! k = updated k <$> Updater.objs u !! k)
         /\ map_Forall (fun k v => well_formed k v = true) (Updater.objs u)
     | Raise e =>
         (e = KeyError \/ e = TypeError)
         /\ exists k v, Updater.objs u !! k = Some v
                        /\ well_formed k v = false
     end.
Proof.
  cbv zeta. unfold Updater.run.
  destruct (run_loop_spec (map_to_list (Updater.objs u)) (Updater.objs u)
              (NoDup_fst_map_to_list _)) as (Hout & Hin & Hres).
  destruct (Updater.run_loop _ _) as [[[]|e] objs'] eqn:Hrun; simpl in *.
  - destruct Hres as [Hall Hupd].
    assert (Hk : forall k, objs' !! k = updated k <$> Updater.objs u !! k).
    { intros k. destruct (Updater.objs u !! k) as [v|] eqn:Hv; simpl.
      - apply Hupd; [|exact Hv]. apply elem_of_map_to_list. exact Hv.
      - rewrite Hout; [exact Hv|]. intros Hin'.
        apply list_elem_of_fmap in Hin' as ([k' v'] & -> & Hin').
        apply elem_of_map_to_list in Hin'. simpl in Hv. congruence. }
    split; [intros k; right; apply Hk|].
    split; [reflexivity|]. split; [exact Hk|].
    intros k v Hv. rewrite Forall_forall in Hall.
    apply (Hall (k, v)). apply elem_of_map_to_list. exact Hv.
  - destruct Hres as [He Hex]. split.
    + intros k. destruct (Updater.objs u !! k) as [v|] eqn:Hv; simpl.
      * destruct (Hin k v) as [H|H].
        -- apply elem_of_map_to_list. exact Hv.
        -- left. congruence.
        -- right. exact H.
      * left. rewrite Hout; [exact Hv|]. intros Hin'.
        apply list_elem_of_fmap in Hin' as ([k' v'] & -> & Hin').
        apply elem_of_map_to_list in Hin'. simpl in Hv. congruence.
    + split; [exact He|].
      apply Exists_exists in Hex as ([k v] & Hkv & Hwf).
      exists k, v. split; [|exact Hwf].
      apply elem_of_map_to_list. exact Hkv.
Qed.

(** X26: [Updater.run] returns exactly when every entry of the dump is
    metadata (a key that starts with an underscore) or a dictionary with a
    ["_class"]; it then returns the dump it holds, in which every entry has
    been updated and no key added or lost.  Otherwise it raises [KeyError]
    or [TypeError] on a malformed entry, and the dump is left with some
    entries updated and the others as they were. *)
Theorem run_updates_the_whole_dump_or_raises u :
  let r := Updater.run u in
  (forall k, Updater.objs (snd r) !! k = Updater.objs u !! k
             \/ Updater.objs (snd r) !! k
                = updated k <$> Updater.objs u !! k)
  /\ match fst r with
     | Ok d =>
         d = Updater.objs (snd r)
         /\ (forall k, d !! k = updated k <$> Updater.objs u !! k)
         /\ map_Forall (fun k v => well_formed k v = true) (Updater.objs u)
     | Raise e =>
         (e = KeyError \/ e = TypeError)
         /\ exists k v, Updater.objs u !! k = Some v
                        /\ well_formed k v = false
     end.
Proof. exact (run_spec u). Qed.

(** X27: a second [run] changes nothing: on the dump that a first run has
    returned, [run] returns that same dump.  The entry ["_version"] is
    among those left alone: the dump still carries the version it came
    with. *)
Theorem run_is_idempotent u d :
  fst (Updater.run u) = Ok d ->
  Updater.run (Updater.mk d) = (Ok d, Updater.mk d)
  /\ d !! "_version" = Updater.objs u !! "_version".
Proof.
  intros Hrun.
  destruct (run_spec u) as (_ & H1). cbv zeta in H1. rewrite Hrun in H1.
  destruct H1 as (_ & Hd & Hwf).
  split; [|rewrite Hd; destruct (Updater.objs u !! "_version"); reflexivity].
  destruct (run_spec (Updater.mk d)) as (_ & H2). cbv zeta in H2.
  destruct (Updater.run (Updater.mk d)) as [[d2|e] u2] eqn:Hrun2;
    simpl in H2.
  - destruct H2 as (Hu2 & Hd2 & _).
    assert (Heq : d2 = d).
    { apply map_eq. intros k. rewrite Hd2, Hd.
      destruct (Updater.objs u !! k) as [v|]; simpl; [|reflexivity].
      rewrite updated_idem. reflexivity. }
    destruct u2 as [o2]. simpl in Hu2. rewrite <- Hu2, Heq. reflexivity.
  - exfalso. destruct H2 as (_ & k & v & Hv & Hbad).
    rewrite Hd in Hv.
    destruct (Updater.objs u !! k) as [v0|] eqn:Hv0; [|discriminate].
    simpl in Hv. inversion Hv; subst v.
    rewrite updated_well_formed in Hbad.
    rewrite (Hwf k v0 Hv0) in Hbad. discriminate.
Qed.

Lemma run_is_idempotent_witness :
  exists d,
    fst (Updater.run (Updater.mk ScenarioDump.dump)) = Ok d
    /\ Updater.run (Updater.mk d) = (Ok d, Updater.mk d)
    /\ d !! "_version" = Some (Updater.VInt 22).
Proof.
  destruct (Updater.run (Updater.mk ScenarioDump.dump)) as [[d|e] u'] eqn:E.
  - exists d. split; [reflexivity|].
    apply (run_is_idempotent (Updater.mk ScenarioDump.dump) d).
    rewrite E. reflexivity.
  - exfalso. vm_compute in E. discriminate E.
Defined.

(** X28: what [run] does to each kind of entry when it returns: metadata
    and the objects of every class but "Participation" are as they were; a
    "Participation" has its field ["unrestricted"] set to [False] and its
    other fields as they were. *)
Theorem run_restricts_the_participations u d :
  fst (Updater.run u) = Ok d ->
  (forall k v, Updater.objs u !! k = Some v ->
               String.prefix "_" k = true -> d !! k = Some v)
  /\ (forall k o, Updater.objs u !! k = Some (Updater.VDict o) ->
                  String.prefix "_" k = false ->
                  o !! "_class" = Some (Updater.VStr "Participation") ->
                  d !! k
                  = Some (Updater.VDict
                            (<["unrestricted" := Updater.VBool false]> o)))
  /\ (forall k o c, Updater.objs u !! k = Some (Updater.VDict o) ->
                    String.prefix "_" k = false ->
                    o !! "_class" = Some c ->
                    c <> Updater.VStr "Participation" ->
                    d !! k = Some (Updater.VDict o))
  /\ dom d = dom (Updater.objs u).
Proof.
  intros Hrun.
  destruct (run_spec u) as (_ & H1). cbv zeta in H1. rewrite Hrun in H1.
  destruct H1 as (_ & Hd & _).
  split; [|split; [|split]].
  - intros k v Hv Hpre. rewrite Hd, Hv. simpl. unfold updated.
    rewrite Hpre. reflexivity.
  - intros k o Hv Hpre Hc. rewrite Hd, Hv. simpl. unfold updated.
    rewrite Hpre. simpl. rewrite Hc. reflexivity.
  - intros k o c Hv Hpre Hc Hne. rewrite Hd, Hv. simpl. unfold updated.
    rewrite Hpre. simpl. rewrite Hc.
    destruct (Updater.is_participation c) eqn:Hp; [|reflexivity].
    exfalso. apply Hne. destruct c; try discriminate Hp. simpl in Hp.
    apply String.eqb_eq in Hp. subst. reflexivity.
  - apply set_eq. intros k. rewrite !elem_of_dom, Hd.
    destruct (Updater.objs u !! k); simpl; split; intros [x Hx];
      try discriminate; eauto.
Qed.

Lemma run_restricts_the_participations_witness :
  exists d,
    fst (Updater.run (Updater.mk ScenarioDump.dump)) = Ok d
    /\ d !! "1"
       = Some (Updater.VDict
                 {["_class" := Updater.VStr "Participation";
                   "hidden" := Updater.VBool false;
                   "unrestricted" := Updater.VBool false]})
    /\ d !! "0" = Some ScenarioDump.user.
Proof.
  destruct (Updater.run (Updater.mk ScenarioDump.dump)) as [[d|e] u'] eqn:E.
  - exists d. split; [reflexivity|].
    destruct (run_restricts_the_participations
                (Updater.mk ScenarioDump.dump) d) as (_ & H2 & H3 & _).
    { rewrite E. reflexivity. }
    split.
    + erewrite (H2 "1"); [|reflexivity|reflexivity|reflexivity].
      reflexivity.
    + apply (H3 "0" _ (Updater.VStr "User")); try reflexivity.
      discriminate.
  - exfalso. vm_compute in E. discriminate E.
Defined.

(** X29: [Updater.__init__] takes a dump of version 22 and nothing else:
    it keeps the dump as it is when ["_version"] is 22; it raises
    [KeyError] when the dump has no ["_version"] and [AssertionError] when
    it has another one. *)
Theorem init_takes_version_22_only data :
  match Updater.__init__ data with
  | Ok u => Updater.objs u = data /\ data !! "_version" = Some (Updater.VInt 22)
  | Raise e =>
      (e = KeyError /\ data !! "_version" = None)
      \/ (e = AssertionError
          /\ exists v, data !! "_version" = Some v /\ v <> Updater.VInt 22)
  end.
Proof.
  unfold Updater.__init__.
  destruct (data !! "_version") as [v|]; [|left; split; reflexivity].
  destruct (Updater.is_22 v) eqn:Hv.
  - split; [reflexivity|]. destruct v; try discriminate Hv. simpl in Hv.
    apply Z.eqb_eq in Hv. subst. reflexivity.
  - right. split; [reflexivity|]. exists v. split; [reflexivity|].
    intros ->. discriminate Hv.
Qed.

(** * The status report *)

Lemma status_of_spec n p i :
  WorkerStatus.status_of n p i
  = (match status_at p n with
     | Some x => Ok x
     | None =>
         match WorkerPool.workers p !! n with
         | Some (WorkerPool.BUSY (_, None)) => Raise AttributeError
         | _ => Raise KeyError
         end
     end, p, i).
Proof.
  unfold WorkerStatus.status_of, status_at, WorkerStatus.represent_job.
  unfold_monad.
  destruct (WorkerPool.workers p !! n) as [[| |[k [s|]]]|]; simpl;
    try reflexivity;
    destruct (WorkerPool.address p !! n); simpl; try reflexivity;
    destruct (WorkerPool.start_time p !! n); simpl; try reflexivity;
    destruct (WorkerPool.error_count p !! n); simpl; try reflexivity;
    destruct (WorkerPool.side_data p !! n); simpl; reflexivity.
Qed.

Lemma status_loop_spec ks : forall acc p i,
  let r := for_each ks acc
             (fun acc n => x <~ WorkerStatus.status_of n;
                           ret (acc ++ [(n, x)])%list) p i in
  state_of r = p /\ world_of r = i
  /\ match outcome r with
     | Ok l =>
         exists new,
           l = (acc ++ new)%list
           /\ fst <$> new = ks
           /\ Forall (fun nx => status_at p (fst nx) = Some (snd nx)) new
     | Raise e =>
         exists n, n ∈ ks /\ status_at p n = None
           /\ (e = AttributeError \/ e = KeyError)
     end.
Proof.
  induction ks as [|n ks IH]; intros acc p i; cbn zeta.
  { cbn [for_each]. unfold_views. split; [reflexivity|].
    split; [reflexivity|].
    exists []. rewrite app_nil_r. repeat split. constructor. }
  assert (Hstep :
    for_each (n :: ks) acc
      (fun acc n => x <~ WorkerStatus.status_of n;
                    ret (acc ++ [(n, x)])%list) p i
    = match status_at p n with
      | Some x =>
          for_each ks (acc ++ [(n, x)])%list
            (fun acc n => x <~ WorkerStatus.status_of n;
                          ret (acc ++ [(n, x)])%list) p i
      | None =>
          (Raise match WorkerPool.workers p !! n with
                 | Some (WorkerPool.BUSY (_, None)) => AttributeError
                 | _ => KeyError
                 end, p, i)
      end).
  { cbn [for_each]. unfold bind at 1. unfold bind at 1.
    rewrite status_of_spec.
    destruct (status_at p n); [reflexivity|].
    destruct (WorkerPool.workers p !! n) as [[| |[k [s|]]]|]; reflexivity. }
  rewrite Hstep. clear Hstep.
  destruct (status_at p n) as [x|] eqn:Hx.
  - specialize (IH (acc ++ [(n, x)])%list p i). cbn zeta in IH.
    destruct IH as (Hs & Hw & Hres).
    split; [exact Hs|]. split; [exact Hw|].
    destruct (outcome _) as [l|e].
    + destruct Hres as (new & -> & Hks & Hall).
      exists ((n, x) :: new). rewrite <- app_assoc. split; [reflexivity|].
      split; [rewrite fmap_cons, Hks; reflexivity|].
      constructor; [exact Hx|exact Hall].
    + destruct Hres as (n' & Hin & Hn' & He).
      exists n'. split; [right; exact Hin|]. split; assumption.
  - unfold_views. split; [reflexivity|]. split; [reflexivity|].
    exists n. split; [left|]. split; [exact Hx|].
    destruct (WorkerPool.workers p !! n) as [[| |[k [s|]]]|]; auto.
Qed.

(** X30: [get_workers_status], asked through the server, changes nothing
    of the server.  When it returns, the report has one entry per
    registered worker and no other, carrying the representation of its
    state -- "None" when INACTIVE, "disabled" when DISABLED, and the kind
    of the job with the id of the submission when BUSY -- and its address,
    lease, error count and side data.  It raises only when a registered
    worker lacks one of these, which includes a BUSY worker whose job has no
    submission. *)
Theorem get_workers_status_reports_every_worker es i :
  let p := JobDispatcher.workers (EvaluationServer.jd es) in
  let r := WorkerStatus.server_get_workers_status es i in
  state_of r = es
  /\ match outcome r with
     | Ok report =>
         (forall n, report !! n = status_at p n)
         /\ dom report = dom (WorkerPool.workers p)
     | Raise e =>
         (e = AttributeError \/ e = KeyError)
         /\ exists n, is_Some (WorkerPool.workers p !! n)
                      /\ status_at p n = None
     end.
Proof.
  cbv zeta.
  set (p := JobDispatcher.workers (EvaluationServer.jd es)).
  set (i1 := emit (EvAcquire DispatcherLock) i).
  assert (Hcall :
    WorkerStatus.server_get_workers_status es i
    = (match outcome
               (for_each (dict_keys (WorkerPool.workers p)) []
                  (fun acc n => x <~ WorkerStatus.status_of n;
                                ret (acc ++ [(n, x)])%list) p i1) with
       | Ok l => Ok (list_to_map l)
       | Raise e => Raise e
       end, es, emit (EvRelease DispatcherLock) i1)).
  { pose proof (status_loop_spec (dict_keys (WorkerPool.workers p))
                  [] p i1) as H.
    cbv zeta in H. destruct H as (Hs & Hw & _).
    unfold WorkerStatus.server_get_workers_status,
      WorkerStatus.dispatcher_get_workers_status, EvaluationServer.on_jd,
      JobDispatcher.on_workers, WorkerStatus.get_workers_status, with_lock,
      zoom, bind, gets, ret.
    fold p. fold i1.
    destruct (for_each _ _ _ p i1) as [[[l|e] p'] i'];
      unfold state_of, world_of in Hs, Hw; simpl in Hs, Hw; subst p' i';
      destruct es as [[q p0 b t]]; reflexivity. }
  rewrite Hcall. unfold_views. split; [reflexivity|].
  pose proof (status_loop_spec (dict_keys (WorkerPool.workers p))
                [] p i1) as H.
  cbv zeta in H. destruct H as (_ & _ & Hres). unfold outcome in Hres.
  destruct (for_each _ _ _ p i1) as [[[l|e] p'] i']; cbn [fst snd] in *.
  - destruct Hres as (new & -> & Hks & Hall). simpl.
    assert (Hnd : NoDup (fst <$> new)).
    { rewrite Hks. apply NoDup_fst_dict_items. }
    assert (Hrep : forall n, (list_to_map new : gmap Z _) !! n
                             = status_at p n).
    { intros n.
      destruct ((list_to_map new : gmap Z _) !! n) as [x|] eqn:Hn.
      - apply elem_of_list_to_map in Hn; [|exact Hnd].
        rewrite Forall_forall in Hall. symmetry. exact (Hall (n, x) Hn).
      - apply not_elem_of_list_to_map in Hn. rewrite Hks in Hn.
        unfold status_at.
        destruct (WorkerPool.workers p !! n) as [w|] eqn:Hw; [|reflexivity].
        exfalso. apply Hn. apply list_elem_of_fmap. exists (n, w).
        split; [reflexivity|]. apply elem_of_dict_items. exact Hw. }
    split; [exact Hrep|].
    apply set_eq. intros n. rewrite dom_list_to_map_L, elem_of_list_to_set.
    rewrite Hks. rewrite elem_of_dom. split.
    + intros Hin. apply list_elem_of_fmap in Hin as ([n' w] & -> & Hin).
      apply elem_of_dict_items in Hin. eauto.
    + intros [w Hw]. apply list_elem_of_fmap. exists (n, w).
      split; [reflexivity|]. apply elem_of_dict_items. exact Hw.
  - destruct Hres as (n & Hin & Hn & He).
    split; [exact He|]. exists n. split; [|exact Hn].
    apply list_elem_of_fmap in Hin as ([n' w] & -> & Hin).
    apply elem_of_dict_items in Hin. eauto.
Qed.
